(** * Orchestration core of the storyboard generator (services/geminiService.ts)

    A shallow embedding of the service layer: the resilient invoker
    [withRetry], the credential lookup [getAI], the two script analyses
    [extractWorldInfo] and [analyzeScript], tiered image generation
    [generateImage], the four prompt constructors, and the WAV container
    encoder [createWavHeader] behind [generateSpeech].

    Conventions.
    - A JavaScript string is the list of its UTF-16 code units ([jsstr]).
    - A JavaScript number that the code computes with as an integer is a
      [Z]; the one true division of the file ([bitsPerSample / 8]) is
      carried out in [Q].  A number that [JSON.parse] read is a double
      ([JsNumber]); the code only tests and passes on such numbers.
    - Asynchronous, throwing code lives in the monad [M]: a function of the
      world returning an outcome (resolved value or rejection), the new
      world, and the events it caused, oldest first.
    - Host facilities that are not part of the repository (the provider
      behind the SDK, [JSON.parse], [atob], [URL.createObjectURL], the
      printing of a number) are the fields of the class [Platform]. *)

From Stdlib Require Import Strings.String Strings.Ascii Strings.Byte.
From Stdlib Require Import ZArith NArith QArith List Bool Lia.
From Stdlib Require Floats.SpecFloat.

Set Warnings "-register-all".
Import ListNotations.

Local Open Scope Z_scope.
Local Open Scope list_scope.

(* ================================================================== *)
(** * JavaScript strings *)
(* ================================================================== *)

(** A string is a sequence of 16-bit code units. *)
Definition jsstr : Type := list N.

(** Decoder from the UTF-8 bytes of a literal written in this file to
    UTF-16 code units; code points above the BMP become surrogate pairs. *)
Fixpoint utf16 (bs : list N) : jsstr :=
  match bs with
  | [] => []
  | b0 :: r0 =>
    if (b0 <? 128)%N then b0 :: utf16 r0
    else if (b0 <? 224)%N then
      match r0 with
      | b1 :: r1 => ((b0 mod 32) * 64 + b1 mod 64)%N :: utf16 r1
      | [] => []
      end
    else if (b0 <? 240)%N then
      match r0 with
      | b1 :: b2 :: r2 =>
        ((b0 mod 16) * 4096 + (b1 mod 64) * 64 + b2 mod 64)%N :: utf16 r2
      | _ => []
      end
    else
      match r0 with
      | b1 :: b2 :: b3 :: r3 =>
        let cp := ((b0 mod 8) * 262144 + (b1 mod 64) * 4096
                   + (b2 mod 64) * 64 + b3 mod 64)%N in
        let v := (cp - 65536)%N in
        (55296 + v / 1024)%N :: (56320 + v mod 1024)%N :: utf16 r3
      | _ => []
      end
  end.

Definition js (s : string) : jsstr :=
  utf16 (map Byte.to_N (list_byte_of_string s)).
Arguments js s%_string.

(** The characters that cannot be written inside a literal here. *)
Definition LF : jsstr := [10%N].
Definition DQUOTE : jsstr := [34%N].

Fixpoint str_eqb (s t : jsstr) : bool :=
  match s, t with
  | [], [] => true
  | a :: s', b :: t' => (a =? b)%N && str_eqb s' t'
  | _, _ => false
  end.

Fixpoint startsWith (s pat : jsstr) : bool :=
  match pat, s with
  | [], _ => true
  | p :: pat', c :: s' => (c =? p)%N && startsWith s' pat'
  | _ :: _, [] => false
  end.

(** [s.includes(pat)] *)
Fixpoint includes (s pat : jsstr) : bool :=
  startsWith s pat ||
  match s with
  | [] => false
  | _ :: s' => includes s' pat
  end.

(** [s.substring(0, n)] for a non-negative integer [n] *)
Definition substring0 (s : jsstr) (n : nat) : jsstr := firstn n s.

(** WhiteSpace and LineTerminator code units, as [String.prototype.trim]
    understands them. *)
Definition isWhiteSpace (c : N) : bool :=
  existsb (N.eqb c)
    [9; 10; 11; 12; 13; 32; 160; 5760; 8232; 8233; 8239; 8287; 12288; 65279]%N
  || ((8192 <=? c) && (c <=? 8202))%N.

Fixpoint trimStart (s : jsstr) : jsstr :=
  match s with
  | c :: s' => if isWhiteSpace c then trimStart s' else s
  | [] => []
  end.

Definition trimEnd (s : jsstr) : jsstr := rev (trimStart (rev s)).

Definition trim (s : jsstr) : jsstr := trimEnd (trimStart s).

(** [parts.join(sep)] on strings *)
Fixpoint join (sep : jsstr) (parts : list jsstr) : jsstr :=
  match parts with
  | [] => []
  | [p] => p
  | p :: rest => p ++ sep ++ join sep rest
  end.

(* ================================================================== *)
(** * Typed arrays and DataView *)
(* ================================================================== *)

Definition Uint8Array : Type := list byte.

Definition ToUint8 (z : Z) : byte :=
  match Byte.of_N (Z.to_N (z mod 256)) with
  | Some b => b
  | None => x00
  end.

Definition byteValue (b : byte) : Z := Z.of_N (Byte.to_N b).

(** ToUint16 / ToUint32 of a number: truncate toward zero, then reduce
    modulo the width. *)
Definition truncate (q : Q) : Z := Z.quot (Qnum q) (Zpos (Qden q)).
Definition ToUint16 (q : Q) : Z := truncate q mod 2 ^ 16.
Definition ToUint32 (q : Q) : Z := truncate q mod 2 ^ 32.

(** [new ArrayBuffer(n)] : [n] zero bytes. *)
Definition ArrayBuffer (n : nat) : list byte := repeat x00 n.

Fixpoint store (view : list byte) (i : nat) (b : byte) : list byte :=
  match view, i with
  | [], _ => []
  | _ :: rest, O => b :: rest
  | a :: rest, S i' => a :: store rest i' b
  end.

(** The DataView setters raise a RangeError ([None]) when the write would
    not fit in the buffer. *)
Definition setUint8 (view : list byte) (byteOffset : nat) (value : Z)
  : option (list byte) :=
  if (byteOffset <? length view)%nat
  then Some (store view byteOffset (ToUint8 value))
  else None.

Fixpoint setBytes (view : list byte) (byteOffset : nat) (bs : list Z)
  : option (list byte) :=
  match bs with
  | [] => Some view
  | b :: bs' =>
    match setUint8 view byteOffset b with
    | Some view' => setBytes view' (S byteOffset) bs'
    | None => None
    end
  end.

Definition orderBytes (littleEndian : bool) (bs : list Z) : list Z :=
  if littleEndian then bs else rev bs.

Definition setUint16 (view : list byte) (byteOffset : nat) (value : Q)
           (littleEndian : bool) : option (list byte) :=
  let v := ToUint16 value in
  if (byteOffset + 2 <=? length view)%nat
  then setBytes view byteOffset (orderBytes littleEndian [v; Z.shiftr v 8])
  else None.

Definition setUint32 (view : list byte) (byteOffset : nat) (value : Q)
           (littleEndian : bool) : option (list byte) :=
  let v := ToUint32 value in
  if (byteOffset + 4 <=? length view)%nat
  then setBytes view byteOffset
         (orderBytes littleEndian
            [v; Z.shiftr v 8; Z.shiftr v 16; Z.shiftr v 24])
  else None.

(** Readers, used to state what a decoder of the container sees. *)
Fixpoint readBytes (view : list byte) (byteOffset n : nat) : option (list Z) :=
  match n with
  | O => Some []
  | S n' =>
    match nth_error view byteOffset, readBytes view (S byteOffset) n' with
    | Some b, Some bs => Some (byteValue b :: bs)
    | _, _ => None
    end
  end.

Fixpoint fromLittleEndian (bs : list Z) : Z :=
  match bs with
  | [] => 0
  | b :: bs' => b + 256 * fromLittleEndian bs'
  end.

Definition getUint (width : nat) (view : list byte) (byteOffset : nat)
           (littleEndian : bool) : option Z :=
  match readBytes view byteOffset width with
  | Some bs => Some (fromLittleEndian (if littleEndian then bs else rev bs))
  | None => None
  end.

Definition getUint16 := getUint 2.
Definition getUint32 := getUint 4.

(** [function writeString(view, offset, string)] *)
Fixpoint writeString (view : list byte) (offset : nat) (string : jsstr)
  : option (list byte) :=
  match string with
  | [] => Some view
  | c :: rest =>
    match setUint8 view offset (Z.of_N c) with
    | Some view' => writeString view' (S offset) rest
    | None => None
    end
  end.

(** [target.set(source, offset)] on typed arrays; a RangeError when the
    source does not fit. *)
Definition setArray (target source : Uint8Array) (offset : nat)
  : option Uint8Array :=
  if (offset + length source <=? length target)%nat
  then Some (firstn offset target ++ source
             ++ skipn (offset + length source) target)
  else None.

Declare Scope dataview_scope.
Delimit Scope dataview_scope with dataview.
Notation "'do' v <- c ; k" :=
  (match c with Some v => k | None => None end)
  (at level 10, v name, c at level 100, k at level 200) : dataview_scope.

(** [function createWavHeader(pcmData, sampleRate, numChannels, bitsPerSample)] *)
Definition createWavHeader (pcmData : Uint8Array)
           (sampleRate numChannels bitsPerSample : Z) : option Uint8Array :=
  let header := ArrayBuffer 44 in
  let view := header in
  let pcmLength := Z.of_nat (length pcmData) in
  let dataSize := pcmLength in
  let fileSize := 36 + dataSize in
  let byteRate :=
    (inject_Z sampleRate * inject_Z numChannels * (inject_Z bitsPerSample / 8))%Q in
  let blockAlign := (inject_Z numChannels * (inject_Z bitsPerSample / 8))%Q in
  (do view <- writeString view 0 (js "RIFF");
   do view <- setUint32 view 4 (inject_Z fileSize) true;
   do view <- writeString view 8 (js "WAVE");
   do view <- writeString view 12 (js "fmt ");
   do view <- setUint32 view 16 16 true;
   do view <- setUint16 view 20 1 true;
   do view <- setUint16 view 22 (inject_Z numChannels) true;
   do view <- setUint32 view 24 (inject_Z sampleRate) true;
   do view <- setUint32 view 28 byteRate true;
   do view <- setUint16 view 32 blockAlign true;
   do view <- setUint16 view 34 (inject_Z bitsPerSample) true;
   do view <- writeString view 36 (js "data");
   do view <- setUint32 view 40 (inject_Z dataSize) true;
   let wavFile := repeat x00 (length header + length pcmData) in
   do wavFile <- setArray wavFile view 0;
   do wavFile <- setArray wavFile pcmData 44;
   Some wavFile)%dataview.

(** The fixed format of the speech model's output, from [pcmBase64ToWavUrl]. *)
Definition sampleRate : Z := 24000.
Definition numChannels : Z := 1.
Definition bitsPerSample : Z := 16.


(* ================================================================== *)
(** * JavaScript values read from the provider *)
(* ================================================================== *)

(** A Number: an IEEE 754 double, given by its sign, significand and
    binary exponent, or one of the two zeros, the two infinities, or NaN. *)
Definition JsNumber : Type := SpecFloat.spec_float.

(** The Number an integer literal denotes (rounded to the nearest double,
    ties to even). *)
Definition integer (z : Z) : JsNumber :=
  SpecFloat.binary_normalize 53 1024 z 0 false.
Coercion integer : Z >-> JsNumber.

(** What [JSON.parse] can return. *)
Inductive JsVal : Type :=
| JNull
| JBool (b : bool)
| JNum (n : JsNumber)
| JStr (s : jsstr)
| JArr (elements : list JsVal)
| JObj (fields : list (jsstr * JsVal)).

(** A property read yields [undefined] ([None]) or a value. *)
Definition Property : Type := option JsVal.

Fixpoint lookup (fields : list (jsstr * JsVal)) (key : jsstr) : Property :=
  match fields with
  | [] => None
  | (k, v) :: rest => if str_eqb k key then Some v else lookup rest key
  end.

(** [v.key] for one of the data keys the code reads (none of them is a
    built-in property of strings, numbers, booleans or arrays).  Reading a
    property of [null] raises a TypeError: the outer [None]. *)
Definition member (v : JsVal) (key : jsstr) : option Property :=
  match v with
  | JNull => None
  | JObj fields => Some (lookup fields key)
  | _ => Some None
  end.

(** ToBoolean *)
Definition truthy (p : Property) : bool :=
  match p with
  | None | Some JNull => false
  | Some (JBool b) => b
  | Some (JNum (SpecFloat.S754_zero _)) | Some (JNum SpecFloat.S754_nan) => false
  | Some (JNum _) => true
  | Some (JStr s) => negb (str_eqb s [])
  | Some (JArr _) | Some (JObj _) => true
  end.

Definition nonEmpty (s : jsstr) : bool := negb (str_eqb s []).

(** [typeof p === 'string' ? p : fallback], and its siblings *)
Definition stringOr (fallback : jsstr) (p : Property) : jsstr :=
  match p with Some (JStr s) => s | _ => fallback end.

Definition numberOr (fallback : JsNumber) (p : Property) : JsNumber :=
  match p with Some (JNum n) => n | _ => fallback end.

Definition arrayOr (fallback : list JsVal) (p : Property) : list JsVal :=
  match p with Some (JArr l) => l | _ => fallback end.

Definition orString (a : option jsstr) (b : jsstr) : jsstr :=
  match a with
  | Some s => if nonEmpty s then s else b
  | None => b
  end.

(** An optional string interpolated into a template literal. *)
Definition interpolate (s : option jsstr) : jsstr :=
  match s with Some s => s | None => js "undefined" end.

(* ================================================================== *)
(** * Failures *)
(* ================================================================== *)

(** The body of a provider error: [{ error: { code, message } }]. *)
Record ErrorBody : Type := {
  code : option Z;
  body_message : option jsstr
}.

(** A thrown value, with the fields [withRetry] inspects.  [as_text] is
    what [error.toString()] returns; [to_boolean] is the value seen as a
    condition, true of every object and false of the falsy primitives
    ([0], [NaN], [false], the empty string) a promise can be rejected with;
    those have none of the fields.  A rejection with [null] or
    [undefined], of which no field can be read, is not among the values
    described. *)
Record JsError : Type := {
  message : option jsstr;
  as_text : jsstr;
  status : option Z;
  response_status : option Z;
  error : option ErrorBody;
  to_boolean : bool
}.

(** [new Error(msg)] *)
Definition newError (msg : jsstr) : JsError :=
  {| message := Some msg;
     as_text := if nonEmpty msg then js "Error: " ++ msg else js "Error";
     status := None; response_status := None; error := None;
     to_boolean := true |}.

Inductive Outcome (A : Type) : Type :=
| Resolved (value : A)
| Rejected (reason : JsError).
Arguments Resolved {A} value.
Arguments Rejected {A} reason.

Definition truthyString (s : option jsstr) : bool :=
  match s with Some s => nonEmpty s | None => false end.

Definition truthyNumber (n : option Z) : bool :=
  match n with Some n => negb (n =? 0) | None => false end.

(** [a || b] on optional numbers *)
Definition orNumber (a b : option Z) : option Z :=
  if truthyNumber a then a else b.

Definition isStatus (s : option Z) (n : Z) : bool :=
  match s with Some v => v =? n | None => false end.

(** Lines 89-94: the text searched for failure patterns. *)
Definition errorText (e : JsError) : jsstr :=
  let msg := orString (message e) (orString (Some (as_text e)) []) in
  match error e with
  | Some body =>
    if truthyString (body_message body)
    then msg ++ js " " ++ interpolate (body_message body)
    else msg
  | None => msg
  end.

(** Line 96: [error.status || error.response?.status || error.error?.code] *)
Definition errorStatus (e : JsError) : option Z :=
  orNumber (status e)
    (orNumber (response_status e)
       (match error e with Some body => code body | None => None end)).

Definition networkPatterns : list jsstr :=
  [js "Rpc failed"; js "xhr error"; js "fetch failed";
   js "NetworkError"; js "Load failed"; js "network timeout"].

(** Lines 99-109 *)
Definition isTransient (e : JsError) : bool :=
  let status := errorStatus e in
  let msg := errorText e in
  isStatus status 500 || isStatus status 503 ||
  isStatus status 502 || isStatus status 504 ||
  includes msg (js "Rpc failed") ||
  includes msg (js "xhr error") ||
  includes msg (js "fetch failed") ||
  includes msg (js "NetworkError") ||
  includes msg (js "Load failed") ||
  includes msg (js "network timeout").

(* ================================================================== *)
(** * The data model (types.ts) *)
(* ================================================================== *)

Module Character.
Record t : Type := make {
  id : jsstr;
  name : jsstr;
  description : jsstr;
  visualPrompt : jsstr;
  imageUrl : option jsstr;
  defaultVoice : option jsstr
}.
End Character.

Module Scene.
Record t : Type := make {
  id : jsstr;
  name : jsstr;
  description : jsstr;
  visualPrompt : jsstr;
  imageUrl : option jsstr;
  gridUrl : option jsstr
}.
End Scene.

(** [Partial<Character>] and [Partial<Scene>]: every field may be absent. *)
Module PartialCharacter.
Record t : Type := make {
  id : option jsstr;
  name : option jsstr;
  description : option jsstr;
  visualPrompt : option jsstr;
  imageUrl : option jsstr;
  defaultVoice : option jsstr
}.
End PartialCharacter.

Module PartialScene.
Record t : Type := make {
  id : option jsstr;
  name : option jsstr;
  description : option jsstr;
  visualPrompt : option jsstr;
  imageUrl : option jsstr;
  gridUrl : option jsstr
}.
End PartialScene.

(** [ScriptPanel].  The declared element type of [charactersPresent] is
    string; [analyzeScript] builds panels whose elements are whatever the
    provider sent, so the element type is a parameter. *)
Module ScriptPanel.
Record t (Name : Type) : Type := make {
  panelNumber : JsNumber;
  description : jsstr;
  charactersPresent : list Name;
  dialogue : option jsstr;
  cameraAngle : option jsstr
}.
Arguments make {Name}.
Arguments panelNumber {Name}.
Arguments description {Name}.
Arguments charactersPresent {Name}.
Arguments dialogue {Name}.
Arguments cameraAngle {Name}.
End ScriptPanel.

(** The panel type as declared, and as returned before the cast
    [as ScriptPanel[]]. *)
Definition DeclaredPanel : Type := ScriptPanel.t jsstr.
Definition ReturnedPanel : Type := ScriptPanel.t JsVal.

Definition asString (v : JsVal) : option jsstr :=
  match v with JStr s => Some s | _ => None end.

Fixpoint allStrings (l : list JsVal) : option (list jsstr) :=
  match l with
  | [] => Some []
  | v :: rest =>
    match asString v, allStrings rest with
    | Some s, Some ss => Some (s :: ss)
    | _, _ => None
    end
  end.

(** A returned panel seen at its declared type, when it has it. *)
Definition declared (p : ReturnedPanel) : option DeclaredPanel :=
  match allStrings (ScriptPanel.charactersPresent p) with
  | Some names =>
    Some (ScriptPanel.make (ScriptPanel.panelNumber p)
            (ScriptPanel.description p) names
            (ScriptPanel.dialogue p) (ScriptPanel.cameraAngle p))
  | None => None
  end.

(* ================================================================== *)
(** * Prompt assembly *)
(* ================================================================== *)

(** [constructCharacterPrompt(char: Partial<Character>)] *)
Definition constructCharacterPrompt (char : PartialCharacter.t) : jsstr :=
  trim (js "
[Art Type] **Production Character Model Sheet (Settei)**.
[Subject] Name: " ++ interpolate (PartialCharacter.name char) ++ js ".
[Visual DNA] " ++ interpolate (PartialCharacter.visualPrompt char) ++ js ".
[Layout] **Horizontal Composition** on Technical Grid Background.
1. **Left**: Full body Standing pose (Front View).
2. **Center**: Full body Profile pose (Side View).
3. **Right**: Full body (Back View).
4. **Inserts**: Include 2 close-up sketches of facial expressions (Eyes/Face) and 1 detail of clothing/accessory in the corners.
[Background] White/Light Grey background with technical measurement grid lines.
[Style] Professional Anime Character Design, Flat colors, Clean lines, Reference Art, High Quality 4k.
  ").

(** [constructScenePrompt(scene: Partial<Scene>)] *)
Definition constructScenePrompt (scene : PartialScene.t) : jsstr :=
  trim (js "
    [Type] Wide-angle Concept Art.
    [Location] " ++ interpolate (PartialScene.name scene) ++ js ".
    [Visuals] " ++ interpolate (PartialScene.visualPrompt scene) ++ js ".
    [Quality] Masterpiece, Cinematic Lighting, 8k, Makoto Shinkai Style.
    [Style] Anime Background Art.
    No characters.
  ").

(** [constructSceneGridPrompt(scene: Partial<Scene>)] *)
Definition constructSceneGridPrompt (scene : PartialScene.t) : jsstr :=
  trim (js "
    [Type] 9-Panel Grid Concept Sheet.
    [Subject] Details of " ++ interpolate (PartialScene.name scene) ++ js ".
    [Visuals] " ++ interpolate (PartialScene.visualPrompt scene) ++ js ".
    [Content] Close-ups of props, textures, lighting, corners.
    [Style] Technical concept art.
  ").

(** The predicate of the [find] at line 428. *)
Definition fuzzyMatch (charName : jsstr) (c : Character.t) : bool :=
  str_eqb (Character.name c) charName
  || includes charName (Character.name c)
  || includes (Character.name c) charName.

(** Lines 429-434: the line appended for one name. *)
Definition characterLine (charName : jsstr) (charObj : option Character.t)
  : jsstr :=
  match charObj with
  | Some charObj =>
    LF ++ js "- (" ++ charName ++ js "): " ++ Character.visualPrompt charObj
  | None =>
    LF ++ js "- (" ++ charName ++ js "): Generic anime character."
  end.

(** Lines 409-419: preamble, action and location. *)
Definition promptHead (panel : DeclaredPanel) (scene : option Scene.t) : jsstr :=
  let prompt :=
    js "(Anime Style Masterpiece, 8k Resolution, Cinematic Composition). " in
  let prompt :=
    prompt ++ LF ++ js "[ACTION & SHOT] **"
    ++ interpolate (ScriptPanel.cameraAngle panel) ++ js "**. "
    ++ ScriptPanel.description panel ++ js ". " in
  match scene with
  | Some scene =>
    prompt ++ LF ++ js "[LOCATION] " ++ Scene.visualPrompt scene
    ++ js " (Name: " ++ Scene.name scene ++ js "). Detailed background. "
  | None =>
    prompt ++ LF ++ js "[LOCATION] Atmospheric background, matching the mood. "
  end.

(** [constructPanelPrompt(panel, characters, scene?)].  On a declared panel
    [Array.isArray(panel.charactersPresent)] holds, so
    [safeCharactersPresent] is the list itself. *)
Definition constructPanelPrompt (panel : DeclaredPanel)
           (characters : list Character.t) (scene : option Scene.t) : jsstr :=
  let prompt := promptHead panel scene in
  let safeCharactersPresent := ScriptPanel.charactersPresent panel in
  if (0 <? length safeCharactersPresent)%nat then
    let prompt := prompt ++ LF ++ js "[CHARACTERS]:" in
    fold_left
      (fun prompt charName =>
         let charObj := find (fuzzyMatch charName) characters in
         prompt ++ characterLine charName charObj)
      safeCharactersPresent prompt
  else prompt.

(* ================================================================== *)
(** * The provider SDK *)
(* ================================================================== *)

Inductive AspectRatio : Type :=
| Ratio_1_1 | Ratio_16_9 | Ratio_9_16 | Ratio_3_4 | Ratio_4_3.

Inductive ResponseSchema : Type := WorldInfoSchema | PanelArraySchema.

(** The [config] object of a [generateContent] call. *)
Inductive ContentConfig : Type :=
| JsonConfig (responseSchema : ResponseSchema)
| ImageConfig (aspectRatio : AspectRatio)
| SpeechConfig (voiceName : jsstr).

Module ContentParameters.
Record t : Type := make {
  model : jsstr;
  contents : jsstr;
  config : ContentConfig
}.
End ContentParameters.

Module ImagesParameters.
Record t : Type := make {
  model : jsstr;
  prompt : jsstr;
  numberOfImages : Z;
  aspectRatio : AspectRatio;
  outputMimeType : jsstr
}.
End ImagesParameters.

(** A request as it reaches the provider, with the credential it carries. *)
Inductive Call : Type :=
| GenerateContent (apiKey : jsstr) (params : ContentParameters.t)
| GenerateImages (apiKey : jsstr) (params : ImagesParameters.t).

Definition callKey (c : Call) : jsstr :=
  match c with
  | GenerateContent k _ | GenerateImages k _ => k
  end.

Record InlineData : Type := { data : option jsstr }.

Record Part : Type := {
  inlineData : option InlineData;
  text : option jsstr
}.

Record Content : Type := { parts : option (list Part) }.

Record Candidate : Type := { content : option Content }.

(** [GenerateContentResponse]; [response_text] is its [text] accessor. *)
Record GenerateContentResponse : Type := {
  response_text : option jsstr;
  candidates : option (list Candidate)
}.

Record Image : Type := { imageBytes : option jsstr }.
Record GeneratedImage : Type := { image : option Image }.
Record GenerateImagesResponse : Type := {
  generatedImages : option (list GeneratedImage)
}.

Record Blob : Type := {
  blobParts : Uint8Array;
  type : jsstr
}.

(** The host: the provider behind the SDK with its hidden state, and the
    browser functions the service calls. *)
Class Platform : Type := {
  Provider : Type;
  serveContent :
    jsstr -> ContentParameters.t -> Provider ->
    Outcome GenerateContentResponse * Provider;
  serveImages :
    jsstr -> ImagesParameters.t -> Provider ->
    Outcome GenerateImagesResponse * Provider;
  (** [JSON.parse]; [None] when it raises a SyntaxError *)
  JSON_parse : jsstr -> option JsVal;
  JSON_parse_empty : JSON_parse [] = None;
  (** [atob]: the decoded binary string, or the exception raised *)
  atob : jsstr -> Outcome jsstr;
  (** the URL minted for the n-th object registered *)
  objectURL : nat -> jsstr;
  (** [Number::toString]: a number as [join] and template literals print it *)
  Number_toString : JsNumber -> jsstr
}.

Definition PROMPT1 (scriptText : jsstr) : jsstr :=
  js "
    Analyze the following fiction script.
    Identify all the MAIN characters and DISTINCT scenes/locations.
    
    **OUTPUT LANGUAGE REQUIREMENT: SIMPLIFIED CHINESE (简体中文)**.
    
    For each Character:
    - name: Character Name (Chinese).
    - description: Brief description (Chinese).
    - visualPrompt: **Extremely detailed visual description in Chinese**. 
      - Include: Hairstyle, hair color, eye shape/color, clothing details (materials, style), accessories, body type, age feel. 
      - Example: " ++ DQUOTE ++ js "银色长发，锐利的蓝色眼睛，穿着带有发光纹路的黑色赛博朋克战术夹克，冷酷表情，脖子上有条形码纹身" ++ DQUOTE ++ js ".

    For each Scene:
    - name: Location Name (Chinese).
    - description: Brief description (Chinese).
    - visualPrompt: **Extremely detailed visual description in Chinese**.
      - Include: Lighting (neon, natural, dark), atmosphere, key props, architectural style.
      - Example: " ++ DQUOTE ++ js "破旧的废弃工厂内部，生锈的金属管道，昏暗的黄色应急灯光，地面有积水，充满压抑感" ++ DQUOTE ++ js ".

    Script:
    " ++ scriptText ++ js "
  ".

Definition PROMPT2 (charNames scriptText : jsstr) : jsstr :=
  js "
    Role: Professional Cinematic Storyboard Director.
    Task: Convert the script into a sequence of highly detailed visual panels.
    
    **CRITICAL**: You MUST provide a 'visual_action' for every single panel. 
    It must be rich in visual detail, describing lighting, composition, and specific character acting.
    
    Instead of " ++ DQUOTE ++ js "He looks angry" ++ DQUOTE ++ js ", say: " ++ DQUOTE ++ js "Close-up, high contrast lighting, Character A's face contorted in rage, veins visible, dark background." ++ DQUOTE ++ js "
    Instead of " ++ DQUOTE ++ js "They talk" ++ DQUOTE ++ js ", say: " ++ DQUOTE ++ js "Over-the-shoulder shot, Character A in focus foreground, Character B blurred in background, warm sunset lighting." ++ DQUOTE ++ js "

    **OUTPUT LANGUAGE REQUIREMENT: SIMPLIFIED CHINESE (简体中文)**.
    
    Available Characters: " ++ charNames ++ js ".
    
    Output JSON Array with these exact keys:
    - panel_id (integer)
    - visual_action (String. **REQUIRED**. Detailed Visual Instruction.)
    - characters_in_shot (Array of Strings. Names from available list.)
    - dialogue_text (String. Original text.)
    - shot_type (String. E.g., " ++ DQUOTE ++ js "特写 (Close-up)" ++ DQUOTE ++ js ", " ++ DQUOTE ++ js "中景 (Medium)" ++ DQUOTE ++ js ", " ++ DQUOTE ++ js "广角 (Wide)" ++ DQUOTE ++ js ", " ++ DQUOTE ++ js "荷兰角 (Dutch Angle)" ++ DQUOTE ++ js ")

    Script:
    " ++ scriptText ++ js "
  ".

(* ================================================================== *)
(** * Effects *)
(* ================================================================== *)

Section Service.

Context {platform : Platform}.

(** What the service can see and change. *)
Record World : Type := {
  (** [localStorage.getItem("gemini_api_key")] *)
  localStorage_gemini_api_key : option jsstr;
  (** [process.env.API_KEY] *)
  process_env_API_KEY : option jsstr;
  provider : Provider;
  (** blobs registered by [URL.createObjectURL], oldest first *)
  objectURLs : list Blob
}.

(** What a run does, in order.  [Attempt] marks one invocation of the
    operation handed to [withRetry]; console output is not recorded. *)
Inductive Event : Type :=
| Attempt
| Timeout (delay : Z)
| Request (c : Call).

(** An asynchronous computation that may reject. *)
Definition M (A : Type) : Type := World -> Outcome A * World * list Event.

Definition ret {A} (a : A) : M A := fun w => (Resolved a, w, []).

Definition throw {A} (e : JsError) : M A := fun w => (Rejected e, w, []).

Definition bind {A B} (c : M A) (k : A -> M B) : M B :=
  fun w =>
    match c w with
    | (Resolved a, w1, evs1) =>
      let '(r, w2, evs2) := k a w1 in (r, w2, evs1 ++ evs2)
    | (Rejected e, w1, evs1) => (Rejected e, w1, evs1)
    end.

(** [try { c } catch (error) { handler }] *)
Definition tryCatch {A} (c : M A) (handler : JsError -> M A) : M A :=
  fun w =>
    match c w with
    | (Resolved a, w1, evs1) => (Resolved a, w1, evs1)
    | (Rejected e, w1, evs1) =>
      let '(r, w2, evs2) := handler e w1 in (r, w2, evs1 ++ evs2)
    end.

Notation "x <- c ;; k" := (bind c (fun x => k))
  (at level 61, c at next level, right associativity).
Notation "c ;;; k" := (bind c (fun _ => k))
  (at level 61, right associativity).

Definition withProvider (w : World) (p : Provider) : World :=
  {| localStorage_gemini_api_key := localStorage_gemini_api_key w;
     process_env_API_KEY := process_env_API_KEY w;
     provider := p;
     objectURLs := objectURLs w |}.

(** An upstream operation: it acts on the provider and tells which
    requests it sent. *)
Definition Op (T : Type) : Type := Provider -> Outcome T * Provider * list Call.

(** [await fn()] *)
Definition invoke {T} (fn : Op T) : M T :=
  fun w =>
    let '(r, p, calls) := fn (provider w) in
    (r, withProvider w p, Attempt :: map Request calls).

(** [await new Promise(r => setTimeout(r, delay))] *)
Definition setTimeout (delay : Z) : M unit :=
  fun w => (Resolved tt, w, [Timeout delay]).

(* ------------------------------------------------------------------ *)
(** ** The resilient invoker *)

Definition retriesDefault : nat := 3.
Definition delayDefault : Z := 2000.
(** The retry count the image calls pass. *)
Definition retriesForImages : nat := 2.

(** [async function withRetry<T>(fn, retries = 3, delay = 2000)].  The
    retry count is a natural number, so [retries > 0] is the successor
    case; the console warning is not recorded. *)
Fixpoint withRetry {T} (fn : Op T) (retries : nat) (delay : Z) : M T :=
  tryCatch (invoke fn) (fun error =>
    let isTransient := isTransient error in
    match retries with
    | S retries' =>
      if isTransient then
        setTimeout delay ;;;
        withRetry fn retries' (delay * 2)
      else throw error
    | O => throw error
    end).

(* ------------------------------------------------------------------ *)
(** ** Credentials *)

Record GoogleGenAI : Type := { apiKey : jsstr }.

(** [localKey || envKey] *)
Definition resolveKey (localKey envKey : option jsstr) : option jsstr :=
  if truthyString localKey then localKey else envKey.

Definition getAI : M GoogleGenAI :=
  fun w =>
    let localKey := localStorage_gemini_api_key w in
    let envKey := process_env_API_KEY w in
    let key := resolveKey localKey envKey in
    match key with
    | Some key =>
      if nonEmpty key then ret {| apiKey := key |} w
      else throw (newError (js "API Key is missing. Please set it in Settings.")) w
    | None =>
      throw (newError (js "API Key is missing. Please set it in Settings.")) w
    end.

(** [ai.models.generateContent(params)] and [ai.models.generateImages(params)] *)
Definition generateContent (ai : GoogleGenAI) (params : ContentParameters.t)
  : Op GenerateContentResponse :=
  fun p =>
    let '(r, p') := serveContent (apiKey ai) params p in
    (r, p', [GenerateContent (apiKey ai) params]).

Definition generateImages (ai : GoogleGenAI) (params : ImagesParameters.t)
  : Op GenerateImagesResponse :=
  fun p =>
    let '(r, p') := serveImages (apiKey ai) params p in
    (r, p', [GenerateImages (apiKey ai) params]).

(* ------------------------------------------------------------------ *)
(** ** Entity extraction *)

(** The result of [extractWorldInfo]; the two fields hold whatever truthy
    value the provider sent, or the empty array. *)
Record WorldInfo : Type := {
  characters : JsVal;
  scenes : JsVal
}.

(** [p || []] *)
Definition orEmptyArray (p : Property) : JsVal :=
  match p with
  | Some v => if truthy p then v else JArr []
  | None => JArr []
  end.

(** [try { const result = JSON.parse(text); body } catch (e) { throw new
    Error("Invalid JSON response from AI") }], where [body] is [None] when
    it raises. *)
Definition parseThen {A} (text : jsstr) (body : JsVal -> option A) : M A :=
  match JSON_parse text with
  | Some result =>
    match body result with
    | Some a => ret a
    | None => throw (newError (js "Invalid JSON response from AI"))
    end
  | None => throw (newError (js "Invalid JSON response from AI"))
  end.

Definition worldInfoOf (result : JsVal) : option WorldInfo :=
  match member result (js "characters"), member result (js "scenes") with
  | Some cs, Some ss =>
    Some {| characters := orEmptyArray cs; scenes := orEmptyArray ss |}
  | _, _ => None
  end.

Definition worldInfoRequest (scriptText : jsstr) : ContentParameters.t :=
  ContentParameters.make (js "gemini-2.5-flash") (PROMPT1 scriptText)
    (JsonConfig WorldInfoSchema).

Definition extractWorldInfo (scriptText : jsstr) : M WorldInfo :=
  ai <- getAI ;;
  response <- withRetry (generateContent ai (worldInfoRequest scriptText))
                retriesDefault delayDefault ;;
  let text := response_text response in
  match text with
  | Some text =>
    if nonEmpty text then parseThen text worldInfoOf
    else throw (newError (js "Failed to analyze script entities"))
  | None => throw (newError (js "Failed to analyze script entities"))
  end.

(* ------------------------------------------------------------------ *)
(** ** Panel analysis *)

Definition NO_DESCRIPTION : jsstr := js "No description generated.".

(** [f] on every element, in order; nothing when it raises on one. *)
Definition traverse {A B} (f : A -> option B) : list A -> option (list B) :=
  fix each (l : list A) : option (list B) :=
    match l with
    | [] => Some []
    | a :: rest =>
      match f a, each rest with
      | Some b, Some bs => Some (b :: bs)
      | _, _ => None
      end
    end.

(** ToString, as [Array.prototype.join] applies it to an element of an
    array that [JSON.parse] built; [None] when it raises a TypeError.
    [null] gives the empty string and a nested array is joined with
    commas.  An object is converted through its [toString] property: the
    inherited [Object.prototype.toString] gives [[object Object]], while an
    own [toString] key, whose value [JSON.parse] never makes callable,
    leaves no way to convert and raises. *)
Fixpoint elementToString (v : JsVal) : option jsstr :=
  match v with
  | JNull => Some []
  | JBool true => Some (js "true")
  | JBool false => Some (js "false")
  | JNum n => Some (Number_toString n)
  | JStr s => Some s
  | JArr elements =>
    option_map (join (js ",")) (traverse elementToString elements)
  | JObj fields =>
    match lookup fields (js "toString") with
    | Some _ => None
    | None => Some (js "[object Object]")
    end
  end.

(** [l.join(sep)] *)
Definition joinValues (sep : jsstr) (l : list JsVal) : option jsstr :=
  option_map (join sep) (traverse elementToString l).

(** Lines 333-339; [None] when [chars.join] raises.  The names are joined
    only on the path that uses them. *)
Definition recoverDescription (desc dialogue : jsstr) (chars : list JsVal)
  : option jsstr :=
  if negb (nonEmpty desc) || (length (trim desc) =? 0)%nat
     || str_eqb desc NO_DESCRIPTION
  then
    if nonEmpty dialogue then
      match joinValues (js "&") chars with
      | Some joined =>
        Some (orString (Some joined) (js "Character")
              ++ js " saying: " ++ DQUOTE ++ substring0 dialogue 15 ++ js "..."
              ++ DQUOTE ++ js ". Cinematic lighting, detailed expression.")
      | None => None
      end
    else
      Some (js "Cinematic establishing shot, detailed environment, 8k resolution.")
  else Some desc.

(** The callback of [result.map] (lines 327-348); [None] when it raises,
    on a property read of [null] or in [chars.join]. *)
Definition panelOf (p : JsVal) : option ReturnedPanel :=
  match member p (js "visual_action"), member p (js "dialogue_text"),
        member p (js "characters_in_shot"), member p (js "panel_id"),
        member p (js "shot_type") with
  | Some visual_action, Some dialogue_text, Some characters_in_shot,
    Some panel_id, Some shot_type =>
    let desc := stringOr [] visual_action in
    let dialogue := stringOr [] dialogue_text in
    let chars := arrayOr [] characters_in_shot in
    match recoverDescription desc dialogue chars with
    | Some desc =>
      Some (ScriptPanel.make (numberOr 0 panel_id) desc chars (Some dialogue)
              (Some (stringOr (js "Medium Shot") shot_type)))
    | None => None
    end
  | _, _, _, _, _ => None
  end.

Fixpoint mapPanels (l : list JsVal) : option (list ReturnedPanel) :=
  match l with
  | [] => Some []
  | p :: rest =>
    match panelOf p, mapPanels rest with
    | Some r, Some rs => Some (r :: rs)
    | _, _ => None
    end
  end.

(** Lines 326-350 *)
Definition panelsOf (result : JsVal) : option (list ReturnedPanel) :=
  match result with
  | JArr elements => mapPanels elements
  | _ => Some []
  end.

Definition panelsRequest (scriptText : jsstr)
           (availableCharacters : list Character.t) : ContentParameters.t :=
  let charNames := join (js ", ") (map Character.name availableCharacters) in
  ContentParameters.make (js "gemini-2.5-flash") (PROMPT2 charNames scriptText)
    (JsonConfig PanelArraySchema).

Definition analyzeScript (scriptText : jsstr)
           (availableCharacters : list Character.t) : M (list ReturnedPanel) :=
  ai <- getAI ;;
  response <- withRetry
                (generateContent ai (panelsRequest scriptText availableCharacters))
                retriesDefault delayDefault ;;
  let text := response_text response in
  match text with
  | Some text =>
    if nonEmpty text then parseThen text panelsOf
    else throw (newError (js "Failed to analyze script"))
  | None => throw (newError (js "Failed to analyze script"))
  end.

(* ------------------------------------------------------------------ *)
(** ** Tiered image generation *)

Definition aspectRatioDefault : AspectRatio := Ratio_1_1.

(** [response.candidates?.[0]?.content?.parts] *)
Definition firstParts (response : GenerateContentResponse)
  : option (list Part) :=
  match candidates response with
  | Some (candidate :: _) =>
    match content candidate with
    | Some c => parts c
    | None => None
    end
  | _ => None
  end.

Definition isPresent {A} (o : option A) : bool :=
  match o with Some _ => true | None => false end.

Definition option_bind {A B} (o : option A) (f : A -> option B) : option B :=
  match o with Some a => f a | None => None end.

(** Lines 222-235: what Tier 1's response amounts to, an image to return
    ([inl]) or the diagnostic kept in [lastError] ([inr]). *)
Definition inspectParts (response : GenerateContentResponse)
  : jsstr + JsError :=
  let parts := match firstParts response with Some l => l | None => [] end in
  let imagePart := find (fun p => isPresent (inlineData p)) parts in
  match option_bind imagePart inlineData with
  | Some inlineData =>
    inl (js "data:image/png;base64," ++ interpolate (data inlineData))
  | None =>
    let textPart := find (fun p => truthyString (text p)) parts in
    match option_bind textPart text with
    | Some text =>
      if nonEmpty text
      then inr (newError (js "AI Refusal: " ++ substring0 text 100 ++ js "..."))
      else inr (newError (js "API returned empty data."))
    | None => inr (newError (js "API returned empty data."))
    end
  end.

(** The request of Tier 1; [contents] is the one text part. *)
Definition tier1Request (prompt : jsstr) (aspectRatio : AspectRatio)
  : ContentParameters.t :=
  ContentParameters.make (js "gemini-2.5-flash-image") prompt
    (ImageConfig aspectRatio).

Definition tier2Request (prompt : jsstr) (aspectRatio : AspectRatio)
  : ImagesParameters.t :=
  ImagesParameters.make (js "imagen-3.0-generate-001") prompt 1 aspectRatio
    (js "image/jpeg").

(** Lines 209-239 *)
Definition tier1 (ai : GoogleGenAI) (prompt : jsstr) (aspectRatio : AspectRatio)
  : M (jsstr + JsError) :=
  tryCatch
    (response <- withRetry (generateContent ai (tier1Request prompt aspectRatio))
                   retriesForImages delayDefault ;;
     ret (inspectParts response))
    (fun error => ret (inr error)).

(** [response.generatedImages?.[0]?.image?.imageBytes] *)
Definition firstImageBytes (response : GenerateImagesResponse) : option jsstr :=
  match generatedImages response with
  | Some (generated :: _) =>
    match image generated with
    | Some i => imageBytes i
    | None => None
    end
  | _ => None
  end.

(** Lines 242-259: the image of Tier 2, or nothing; its failure is only
    written to the console. *)
Definition tier2 (ai : GoogleGenAI) (prompt : jsstr) (aspectRatio : AspectRatio)
  : M (option jsstr) :=
  tryCatch
    (response <- withRetry (generateImages ai (tier2Request prompt aspectRatio))
                   retriesForImages delayDefault ;;
     let base64 := firstImageBytes response in
     if truthyString base64
     then ret (Some (js "data:image/jpeg;base64," ++ interpolate base64))
     else ret None)
    (fun error => ret None).

(** [generateImage(prompt, aspectRatio = "1:1")].  [lastError] starts as
    [new Error("Unknown error")] and is overwritten on every path through
    Tier 1 that does not return: with a diagnostic, or with whatever the
    call was rejected with.  Line 261 throws it unless it is falsy, and a
    new error then. *)
Definition generateImage (prompt : jsstr) (aspectRatio : AspectRatio)
  : M jsstr :=
  ai <- getAI ;;
  first <- tier1 ai prompt aspectRatio ;;
  match first with
  | inl uri => ret uri
  | inr lastError =>
    second <- tier2 ai prompt aspectRatio ;;
    match second with
    | Some uri => ret uri
    | None =>
      if to_boolean lastError then throw lastError
      else throw (newError
                    (js "Image generation failed. Please check your API Key."))
    end
  end.

(* ------------------------------------------------------------------ *)
(** ** Speech *)

Definition voiceNameDefault : jsstr := js "Kore".

(** [URL.createObjectURL(blob)] *)
Definition createObjectURL (blob : Blob) : M jsstr :=
  fun w =>
    (Resolved (objectURL (length (objectURLs w))),
     {| localStorage_gemini_api_key := localStorage_gemini_api_key w;
        process_env_API_KEY := process_env_API_KEY w;
        provider := provider w;
        objectURLs := objectURLs w ++ [blob] |},
     []).

(** The exception of a DataView or typed-array write out of bounds. *)
Definition RangeError : JsError :=
  {| message := Some (js "Offset is outside the bounds of the DataView");
     as_text := js "RangeError: Offset is outside the bounds of the DataView";
     status := None; response_status := None; error := None;
     to_boolean := true |}.

(** [function pcmBase64ToWavUrl(base64Pcm)] *)
Definition pcmBase64ToWavUrl (base64Pcm : jsstr) : M jsstr :=
  match atob base64Pcm with
  | Resolved binaryString =>
    let bytes := map (fun c => ToUint8 (Z.of_N c)) binaryString in
    match createWavHeader bytes sampleRate numChannels bitsPerSample with
    | Some wavBytes =>
      createObjectURL {| blobParts := wavBytes; type := js "audio/wav" |}
    | None => throw RangeError
    end
  | Rejected e => throw e
  end.

Definition speechRequest (text voiceName : jsstr) : ContentParameters.t :=
  ContentParameters.make (js "gemini-2.5-flash-preview-tts") text
    (SpeechConfig voiceName).

(** [response.candidates?.[0]?.content?.parts?.[0]?.inlineData?.data] *)
Definition firstInlineData (response : GenerateContentResponse)
  : option jsstr :=
  match firstParts response with
  | Some (part :: _) => option_bind (inlineData part) data
  | _ => None
  end.

(** [generateSpeech(text, voiceName = 'Kore')] *)
Definition generateSpeech (text voiceName : jsstr) : M jsstr :=
  ai <- getAI ;;
  response <- withRetry (generateContent ai (speechRequest text voiceName))
                2 delayDefault ;;
  let base64Audio := firstInlineData response in
  match base64Audio with
  | Some base64Audio =>
    if nonEmpty base64Audio then pcmBase64ToWavUrl base64Audio
    else throw (newError (js "AI did not return audio data."))
  | None => throw (newError (js "AI did not return audio data."))
  end.

End Service.

(* ================================================================== *)
(** * Reference descriptions used by the statements below *)
(* ================================================================== *)

Definition littleEndianBytes (width : nat) (v : Z) : list byte :=
  map (fun i => ToUint8 (Z.shiftr v (8 * Z.of_nat i))) (seq 0 width).

Definition asciiBytes (s : string) : list byte := list_byte_of_string s.
Arguments asciiBytes s%_string.

(** The canonical 44-byte RIFF/WAVE header for a payload of [dataSize]
    bytes. *)
Definition wavHeader (dataSize sr ch bps : Z) : list byte :=
  asciiBytes "RIFF"
  ++ littleEndianBytes 4 (ToUint32 (inject_Z (36 + dataSize)))
  ++ asciiBytes "WAVE"
  ++ asciiBytes "fmt "
  ++ littleEndianBytes 4 (ToUint32 16)
  ++ littleEndianBytes 2 (ToUint16 1)
  ++ littleEndianBytes 2 (ToUint16 (inject_Z ch))
  ++ littleEndianBytes 4 (ToUint32 (inject_Z sr))
  ++ littleEndianBytes 4
       (ToUint32 (inject_Z sr * inject_Z ch * (inject_Z bps / 8))%Q)
  ++ littleEndianBytes 2 (ToUint16 (inject_Z ch * (inject_Z bps / 8))%Q)
  ++ littleEndianBytes 2 (ToUint16 (inject_Z bps))
  ++ asciiBytes "data"
  ++ littleEndianBytes 4 (ToUint32 (inject_Z dataSize)).

(** The container layout as the specification words it, for a payload
    [pcm] encoded as [wav]. *)
Definition canonicalContainer (pcm wav : Uint8Array) : Prop :=
  let L := Z.of_nat (length pcm) in
  length wav = (length pcm + 44)%nat
  /\ firstn 4 wav = asciiBytes "RIFF"
  /\ getUint32 wav 4 true = Some (36 + L)
  /\ firstn 4 (skipn 8 wav) = asciiBytes "WAVE"
  /\ getUint32 wav 16 true = Some 16
  /\ getUint16 wav 20 true = Some 1
  /\ getUint16 wav 22 true = Some numChannels
  /\ getUint32 wav 24 true = Some sampleRate
  /\ getUint32 wav 28 true = Some (sampleRate * numChannels * (bitsPerSample / 8))
  /\ getUint16 wav 32 true = Some (numChannels * (bitsPerSample / 8))
  /\ firstn 4 (skipn 36 wav) = asciiBytes "data"
  /\ getUint32 wav 40 true = Some L
  /\ skipn 44 wav = pcm.

(** A payload of 2^32 - 36 zero bytes. *)
Definition hugePayload : Uint8Array := repeat x00 (Z.to_nat 4294967260).

(* ------------------------------------------------------------------ *)
(** ** Character resolution *)

(** [inner] occurs in [outer] as a contiguous run. *)
Definition contains (outer inner : jsstr) : Prop :=
  exists pre post, outer = pre ++ inner ++ post.

(** The panel name and the roster name are equal, or one contains the
    other. *)
Definition related (charName : jsstr) (c : Character.t) : Prop :=
  Character.name c = charName
  \/ contains charName (Character.name c)
  \/ contains (Character.name c) charName.

(** [found] is the first roster entry related to the name, if any. *)
Definition resolvesTo (roster : list Character.t) (charName : jsstr)
           (found : option Character.t) : Prop :=
  match found with
  | Some c =>
    exists before after,
      roster = before ++ c :: after
      /\ related charName c
      /\ Forall (fun c' => ~ related charName c') before
  | None => Forall (fun c => ~ related charName c) roster
  end.

(** The [CHARACTERS] section for a list of names, given a resolver. *)
Definition charactersSection (resolve : jsstr -> option Character.t)
           (names : list jsstr) : jsstr :=
  match names with
  | [] => []
  | _ =>
    LF ++ js "[CHARACTERS]:"
    ++ concat (map (fun n => characterLine n (resolve n)) names)
  end.

(** Resolution as the specification words it: an exact match anywhere in
    the roster first, else containment in either direction. *)
Definition resolveAsSpecified (roster : list Character.t) (charName : jsstr)
  : option Character.t :=
  match find (fun c => str_eqb (Character.name c) charName) roster with
  | Some c => Some c
  | None =>
    find (fun c => includes charName (Character.name c)
                   || includes (Character.name c) charName) roster
  end.

Definition resolvesExactMatchFirst : Prop :=
  forall (panel : DeclaredPanel) (roster : list Character.t)
         (scene : option Scene.t),
    constructPanelPrompt panel roster scene
    = promptHead panel scene
      ++ charactersSection (resolveAsSpecified roster)
           (ScriptPanel.charactersPresent panel).

Definition character (name visualPrompt : jsstr) : Character.t :=
  Character.make (js "c-" ++ name) name (js "") visualPrompt None None.

Definition al : Character.t := character (js "Al") (js "short, red scarf").
Definition alice : Character.t :=
  character (js "Alice") (js "tall, silver hair").

Definition panelWith (names : list jsstr) : DeclaredPanel :=
  ScriptPanel.make 1 (js "They meet on the pier") names None
    (Some (js "Wide")).

Section Observations.

Context {platform : Platform}.

(** How many times the wrapped operation was invoked. *)
Fixpoint attempts (evs : list Event) : nat :=
  match evs with
  | [] => O
  | Attempt :: rest => S (attempts rest)
  | _ :: rest => attempts rest
  end.

(** The waits of a run, in order. *)
Fixpoint delays (evs : list Event) : list Z :=
  match evs with
  | [] => []
  | Timeout d :: rest => d :: delays rest
  | _ :: rest => delays rest
  end.

(** The requests of a run, in order. *)
Fixpoint requests (evs : list Event) : list Call :=
  match evs with
  | [] => []
  | Request c :: rest => c :: requests rest
  | _ :: rest => requests rest
  end.

(** The wait that immediately precedes attempt number [i] (the first
    attempt is number 0), [last] being the wait seen since the previous
    attempt. *)
Fixpoint waitBefore (i : nat) (last : option Z) (evs : list Event)
  : option Z :=
  match evs with
  | [] => None
  | Attempt :: rest =>
    match i with
    | O => last
    | S i' => waitBefore i' None rest
    end
  | Timeout d :: rest => waitBefore i (Some d) rest
  | Request _ :: rest => waitBefore i last rest
  end.

(** A run without its requests: attempts and waits only. *)
Fixpoint timeline (evs : list Event) : list Event :=
  match evs with
  | [] => []
  | Request _ :: rest => timeline rest
  | e :: rest => e :: timeline rest
  end.

(** Exponential backoff spelled out: an attempt, then for each retry left
    a wait followed by the schedule at twice the delay. *)
Fixpoint backoffSchedule (retries : nat) (delay : Z) : list Event :=
  Attempt ::
  match retries with
  | O => []
  | S retries' => Timeout delay :: backoffSchedule retries' (delay * 2)
  end.

(** The first [n] invocations of [fn], starting from provider state [p],
    all fail, each with a failure classified as transient. *)
Fixpoint failsTransiently {T} (fn : Op T) (n : nat) (p : Provider) : Prop :=
  match n with
  | O => True
  | S n' =>
    match fn p with
    | (Rejected e, p', _) => isTransient e = true /\ failsTransiently fn n' p'
    | (Resolved _, _, _) => False
    end
  end.

(** The failure of invocation number [k] (from 0) when every invocation
    up to it fails. *)
Fixpoint failureOfAttempt {T} (fn : Op T) (k : nat) (p : Provider)
  : option JsError :=
  match fn p with
  | (Rejected e, p', _) =>
    match k with
    | O => Some e
    | S k' => failureOfAttempt fn k' p'
    end
  | (Resolved _, _, _) => None
  end.

Definition transientStatuses : list Z := [500; 502; 503; 504].

(** A failure outside the transient class, in the specification's terms. *)
Definition notTransient (e : JsError) : Prop :=
  (forall s, errorStatus e = Some s -> ~ In s transientStatuses)
  /\ (forall pat, In pat networkPatterns -> includes (errorText e) pat = false).

(** The dedicated failure of [getAI]. *)
Definition credentialMissing : JsError :=
  newError (js "API Key is missing. Please set it in Settings.").

(** A credential source holds a key when it holds a non-empty string. *)
Definition holdsKey (source : option jsstr) (k : jsstr) : Prop :=
  source = Some k /\ k <> [].

Definition holdsNoKey (source : option jsstr) : Prop :=
  source = None \/ source = Some [].

(** The operations the service exports that reach the provider. *)
Inductive NetworkOperation : Type :=
| ExtractWorldInfo (scriptText : jsstr)
| AnalyzeScript (scriptText : jsstr) (availableCharacters : list Character.t)
| GenerateImage (prompt : jsstr) (aspectRatio : AspectRatio)
| GenerateSpeech (text voiceName : jsstr).

Definition forget {A} (c : M A) : M unit :=
  fun w =>
    match c w with
    | (Resolved _, w', evs) => (Resolved tt, w', evs)
    | (Rejected e, w', evs) => (Rejected e, w', evs)
    end.

(** Running an operation, keeping only whether it succeeded. *)
Definition perform (op : NetworkOperation) : M unit :=
  match op with
  | ExtractWorldInfo scriptText => forget (extractWorldInfo scriptText)
  | AnalyzeScript scriptText roster => forget (analyzeScript scriptText roster)
  | GenerateImage prompt aspectRatio => forget (generateImage prompt aspectRatio)
  | GenerateSpeech text voiceName => forget (generateSpeech text voiceName)
  end.

(** Every request of a run carries the credential [k], and there is one. *)
Definition allRequestsCarry (k : jsstr) (evs : list Event) : Prop :=
  requests evs <> [] /\ Forall (fun c => callKey c = k) (requests evs).

(** The failures raised by the two analyses. *)
Definition failedEntities : JsError :=
  newError (js "Failed to analyze script entities").
Definition failedPanels : JsError := newError (js "Failed to analyze script").
Definition invalidJson : JsError := newError (js "Invalid JSON response from AI").

(** The body text of a response is absent ([undefined] or empty). *)
Definition bodyAbsent (response : GenerateContentResponse) : Prop :=
  response_text response = None \/ response_text response = Some [].

(** A field of a panel element, when it is a string. *)
Definition stringField (p : JsVal) (key : jsstr) : option jsstr :=
  match member p key with
  | Some (Some (JStr s)) => Some s
  | _ => None
  end.

(** The visual-action text is missing, empty, or the sentinel. *)
Definition unusableDescription (p : JsVal) : Prop :=
  stringField p (js "visual_action") = None
  \/ stringField p (js "visual_action") = Some []
  \/ stringField p (js "visual_action") = Some NO_DESCRIPTION.

(** A value that [join] can print: no object in it, however deep in
    nested arrays, has a key [toString]. *)
Fixpoint printable (v : JsVal) : bool :=
  match v with
  | JArr elements => forallb printable elements
  | JObj fields => negb (isPresent (lookup fields (js "toString")))
  | _ => true
  end.

(** The characters an element lists can be printed. *)
Definition printableNames (p : JsVal) : Prop :=
  forall l, member p (js "characters_in_shot") = Some (Some (JArr l)) ->
            forallb printable l = true.

(** An element from which a panel can be built. *)
Definition usable (p : JsVal) : Prop := p <> JNull /\ printableNames p.

(** The names an element lists, when they are strings as the panel
    schema asks; an element whose [characters_in_shot] is no array lists
    none. *)
Definition listedNames (p : JsVal) (names : list jsstr) : Prop :=
  match member p (js "characters_in_shot") with
  | Some (Some (JArr l)) => allStrings l = Some names
  | Some _ => names = []
  | None => False
  end.

(** The names separated by [&]: the first, then each further one after
    an ampersand. *)
Definition ampersandSeparated (names : list jsstr) : jsstr :=
  match names with
  | [] => []
  | first :: others => first ++ concat (map (fun n => js "&" ++ n) others)
  end.

(** Who speaks: the names joined, or "Character" when that leaves
    nothing (no name, or empty names only). *)
Definition speakers (names : list jsstr) : jsstr :=
  match ampersandSeparated names with
  | [] => js "Character"
  | joined => joined
  end.

Definition spokenLine (who dialogue : jsstr) : jsstr :=
  who ++ js " saying: " ++ DQUOTE ++ firstn 15 dialogue ++ js "..." ++ DQUOTE
  ++ js ". Cinematic lighting, detailed expression.".

Definition establishingShot : jsstr :=
  js "Cinematic establishing shot, detailed environment, 8k resolution.".

(** The recovery heuristic, relating a panel element of the response to
    the panel returned for it. *)
Definition recovered (p : JsVal) (r : ReturnedPanel) : Prop :=
  (unusableDescription p ->
     (forall d, stringField p (js "dialogue_text") = Some d -> d <> [] ->
        (exists who, ScriptPanel.description r = spokenLine who d)
        /\ (forall names, listedNames p names ->
              ScriptPanel.description r = spokenLine (speakers names) d)
        /\ includes (ScriptPanel.description r) (firstn 15 d) = true)
     /\ (stringField p (js "dialogue_text") = None
         \/ stringField p (js "dialogue_text") = Some [] ->
         ScriptPanel.description r = establishingShot))
  /\ ((forall n, member p (js "panel_id") <> Some (Some (JNum n))) ->
      ScriptPanel.panelNumber r = 0).

(** The normalization of the remaining fields. *)
Definition normalized (p : JsVal) (r : ReturnedPanel) : Prop :=
  (stringField p (js "shot_type") = None ->
     ScriptPanel.cameraAngle r = Some (js "Medium Shot"))
  /\ (stringField p (js "dialogue_text") = None ->
      ScriptPanel.dialogue r = Some [])
  /\ ((forall names,
         member p (js "characters_in_shot") <> Some (Some (JArr names))) ->
      ScriptPanel.charactersPresent r = []).

(** What holds of the fields of every returned panel: the optional strings
    are set, and an array of characters is the provider's, as sent. *)
Definition shaped (p : JsVal) (r : ReturnedPanel) : Prop :=
  ScriptPanel.dialogue r <> None
  /\ ScriptPanel.cameraAngle r <> None
  /\ (forall names,
        member p (js "characters_in_shot") = Some (Some (JArr names)) ->
        ScriptPanel.charactersPresent r = names).

(** The response that [analyzeScript] got through the invoker. *)
Definition panelsResponse (scriptText : jsstr) (roster : list Character.t)
           (w : World) (response : GenerateContentResponse) (w1 : World)
           (evs : list Event) : Prop :=
  exists ai,
    getAI w = (Resolved ai, w, [])
    /\ withRetry (generateContent ai (panelsRequest scriptText roster))
         retriesDefault delayDefault w = (Resolved response, w1, evs).

(** The response that [extractWorldInfo] got through the invoker. *)
Definition worldInfoResponse (scriptText : jsstr) (w : World)
           (response : GenerateContentResponse) (w1 : World)
           (evs : list Event) : Prop :=
  exists ai,
    getAI w = (Resolved ai, w, [])
    /\ withRetry (generateContent ai (worldInfoRequest scriptText))
         retriesDefault delayDefault w = (Resolved response, w1, evs).

(** The content parts of Tier 1's response. *)
Definition partsOf (response : GenerateContentResponse) : list Part :=
  match firstParts response with Some l => l | None => [] end.

Definition noInlineImage (response : GenerateContentResponse) : Prop :=
  Forall (fun p => inlineData p = None) (partsOf response).

Definition isTextPart (p : Part) : Prop :=
  exists t, text p = Some t /\ t <> [].

(** [t] is the text of the first text part of the response. *)
Definition firstTextPart (response : GenerateContentResponse) (t : jsstr)
  : Prop :=
  exists before p after,
    partsOf response = before ++ p :: after
    /\ Forall (fun q => ~ isTextPart q) before
    /\ text p = Some t /\ t <> [].

Definition noTextPart (response : GenerateContentResponse) : Prop :=
  Forall (fun q => ~ isTextPart q) (partsOf response).

(** The diagnostic Tier 1 leaves behind when its response has no image:
    the refusal quoting the leading text, or the empty-response message. *)
Definition tier1Diagnostic (response : GenerateContentResponse) (e : JsError)
  : Prop :=
  (exists t, firstTextPart response t
             /\ e = newError (js "AI Refusal: " ++ firstn 100 t ++ js "..."))
  \/ (noTextPart response /\ e = newError (js "API returned empty data.")).

(** Tier 2's run yields no image: it is rejected, or its response has no
    image bytes. *)
Definition yieldsNoImage (run : Outcome GenerateImagesResponse * World * list Event)
  : Prop :=
  match fst (fst run) with
  | Resolved r2 => firstImageBytes r2 = None \/ firstImageBytes r2 = Some []
  | Rejected _ => True
  end.

(** Tier 1's run yields no image: its call is rejected, or its response
    holds no inline image. *)
Definition leavesNoImage (first : Outcome GenerateContentResponse) : Prop :=
  match first with
  | Resolved response => noInlineImage response
  | Rejected _ => True
  end.

(** The error raised in place of a falsy [lastError]. *)
Definition generationFailed : JsError :=
  newError (js "Image generation failed. Please check your API Key.").

(** The failure kept from Tier 1's run for the case that Tier 2 yields no
    image either: the diagnostic of its response, or the value its call
    was rejected with, the fixed error standing in for a falsy one. *)
Definition keptFailure (first : Outcome GenerateContentResponse)
           (failure : JsError) : Prop :=
  match first with
  | Resolved response => tier1Diagnostic response failure
  | Rejected e1 => failure = if to_boolean e1 then e1 else generationFailed
  end.

(** Requests of a computation all carry the key [k]. *)
Definition carries (k : jsstr) {A} (c : M A) : Prop :=
  forall w, Forall (fun c => callKey c = k) (requests (snd (c w))).

End Observations.

(* ================================================================== *)
(** * A scripted platform, for running the service on concrete inputs *)
(* ================================================================== *)

(** The canned answer to one request. *)
Inductive Reply : Type :=
| ContentReply (r : Outcome GenerateContentResponse)
| ImagesReply (r : Outcome GenerateImagesResponse).

Definition unscripted : JsError := newError (js "unscripted request").

(** The decimal digits of a natural number. *)
Fixpoint digits (fuel : nat) (n : N) (acc : jsstr) : jsstr :=
  match fuel with
  | O => acc
  | S fuel' =>
    let acc' := (48 + n mod 10)%N :: acc in
    if (n <? 10)%N then acc' else digits fuel' (n / 10)%N acc'
  end.

Definition decimal (n : N) : jsstr :=
  digits (S (N.to_nat (N.log2 n))) n [].

(** Two doubles are the same datum. *)
Definition sameNumber (x y : JsNumber) : bool :=
  match x, y with
  | SpecFloat.S754_zero s, SpecFloat.S754_zero t => Bool.eqb s t
  | SpecFloat.S754_infinity s, SpecFloat.S754_infinity t => Bool.eqb s t
  | SpecFloat.S754_nan, SpecFloat.S754_nan => true
  | SpecFloat.S754_finite s m e, SpecFloat.S754_finite t n f =>
    Bool.eqb s t && Pos.eqb m n && Z.eqb e f
  | _, _ => false
  end.

(** The numbers the scripts below mention, each with its numeral. *)
Definition numerals : list (JsNumber * jsstr) :=
  [(integer 0, js "0"); (integer 3, js "3"); (integer 7, js "7");
   (integer 42, js "42")].

(** How the scripted host prints a number: by the table of numerals.  No
    script below has any other number printed, and the answer for those
    ([NaN]) stands for nothing. *)
Definition scriptedNumeral (x : JsNumber) : jsstr :=
  match find (fun entry => sameNumber (fst entry) x) numerals with
  | Some (_, numeral) => numeral
  | None => js "NaN"
  end.

(** A provider that answers the requests it receives with the replies of a
    script, in order, and a [JSON.parse] that knows the texts of [table]. *)
Definition scripted (table : list (jsstr * JsVal)) : Platform :=
  {| Provider := list Reply;
     serveContent := fun _ _ p =>
       match p with
       | ContentReply r :: rest => (r, rest)
       | _ :: rest => (Rejected unscripted, rest)
       | [] => (Rejected unscripted, [])
       end;
     serveImages := fun _ _ p =>
       match p with
       | ImagesReply r :: rest => (r, rest)
       | _ :: rest => (Rejected unscripted, rest)
       | [] => (Rejected unscripted, [])
       end;
     JSON_parse := fun text =>
       match text with
       | [] => None
       | _ => lookup table text
       end;
     JSON_parse_empty := eq_refl;
     atob := fun s => Resolved s;
     objectURL := fun n => js "blob:" ++ decimal (N.of_nat n);
     Number_toString := scriptedNumeral |}.

Definition world (table : list (jsstr * JsVal)) (localKey envKey : option jsstr)
           (script : list Reply) : @World (scripted table) :=
  {| localStorage_gemini_api_key := localKey;
     process_env_API_KEY := envKey;
     provider := (script : @Provider (scripted table));
     objectURLs := [] |}.

(** Two provider failures: an overloaded model (HTTP 503, nested body) and
    a rejected request (HTTP 400). *)
Definition overloaded : JsError :=
  {| message := Some (js "got status: 503 Service Unavailable");
     as_text := js "ApiError: got status: 503 Service Unavailable";
     status := None;
     response_status := None;
     error := Some {| code := Some 503;
                      body_message := Some (js "The model is overloaded.") |};
     to_boolean := true |}.

Definition connectionLost : JsError :=
  {| message := Some (js "TypeError: fetch failed");
     as_text := js "TypeError: fetch failed";
     status := None; response_status := None; error := None;
     to_boolean := true |}.

Definition badRequest : JsError :=
  {| message := Some (js "API key not valid. Please pass a valid API key.");
     as_text := js "ApiError: API key not valid. Please pass a valid API key.";
     status := Some 400;
     response_status := None;
     error := None;
     to_boolean := true |}.

(** A request turned down for quota (HTTP 429), and a rejection with the
    empty string, a value that has no field and is falsy. *)
Definition quotaExceeded : JsError :=
  {| message := Some (js "You exceeded your current quota.");
     as_text := js "ApiError: You exceeded your current quota.";
     status := Some 429;
     response_status := None;
     error := None;
     to_boolean := true |}.

Definition emptyString : JsError :=
  {| message := None; as_text := []; status := None; response_status := None;
     error := None; to_boolean := false |}.

Definition storedKey : jsstr := js "AIza-stored".
Definition builtInKey : jsstr := js "AIza-env".
Definition client : GoogleGenAI := {| apiKey := storedKey |}.

(** The normalization claim with the declared shapes as its conclusion:
    after the cast, every returned panel is a [ScriptPanel] as declared in
    types.ts, its [charactersPresent] a list of strings. *)
Definition returnsDeclaredPanels : Prop :=
  forall (platform : Platform) (scriptText : jsstr) (roster : list Character.t)
         (w w1 : World) (response : GenerateContentResponse)
         (evs : list Event) (text : jsstr) (elements : list JsVal)
         (panels : list ReturnedPanel),
    panelsResponse scriptText roster w response w1 evs ->
    response_text response = Some text ->
    JSON_parse text = Some (JArr elements) ->
    analyzeScript scriptText roster w = (Resolved panels, w1, evs) ->
    Forall2 normalized elements panels
    /\ Forall (fun r => declared r <> None) panels.

(** The last clause of the tiered fallback as the specification words it:
    when both tiers fail and Tier 1 left no diagnostic, its call having
    been rejected, the failure raised is Tier 2's. *)
Definition raisesTier2Error : Prop :=
  forall (platform : Platform) (prompt : jsstr) (aspectRatio : AspectRatio)
         (w w1 w2 : World) (ai : GoogleGenAI) (e1 e2 : JsError)
         (evs1 evs2 : list Event),
    getAI w = (Resolved ai, w, []) ->
    withRetry (generateContent ai (tier1Request prompt aspectRatio))
      retriesForImages delayDefault w = (Rejected e1, w1, evs1) ->
    withRetry (generateImages ai (tier2Request prompt aspectRatio))
      retriesForImages delayDefault w1 = (Rejected e2, w2, evs2) ->
    fst (fst (generateImage prompt aspectRatio w)) = Rejected e2.

(** A body in which a panel lists a number among its characters:
    [[{"characters_in_shot":[42]}]] *)
Definition numericNamesBody : jsstr :=
  js "[{" ++ DQUOTE ++ js "characters_in_shot" ++ DQUOTE ++ js ":[42]}]".

Definition numericNamesValue : JsVal :=
  JArr [JObj [(js "characters_in_shot", JArr [JNum 42])]].

Definition bodyOnly (text : jsstr) : GenerateContentResponse :=
  {| response_text := Some text; candidates := None |}.

(** A body with one panel that has dialogue and no visual action:
    [[{"dialogue_text":"…","shot_type":7}]] *)
Definition greeting : jsstr := js "你好吗最近怎么样".

Definition greetingBody : jsstr :=
  js "[{" ++ DQUOTE ++ js "dialogue_text" ++ DQUOTE ++ js ":" ++ DQUOTE
  ++ greeting ++ DQUOTE ++ js "," ++ DQUOTE ++ js "shot_type" ++ DQUOTE
  ++ js ":7}]".

Definition greetingValue : JsVal :=
  JArr [JObj [(js "dialogue_text", JStr greeting); (js "shot_type", JNum 7)]].

(** A body with one panel in which two characters speak and nothing is
    shown:
    [[{"characters_in_shot":["小明","小红"],"dialogue_text":"好久不见，…"}]] *)
Definition reunion : jsstr := js "好久不见，你这些年都去了哪里？我一直在找你。".

Definition reunionBody : jsstr :=
  js "[{" ++ DQUOTE ++ js "characters_in_shot" ++ DQUOTE ++ js ":[" ++ DQUOTE
  ++ js "小明" ++ DQUOTE ++ js "," ++ DQUOTE ++ js "小红" ++ DQUOTE ++ js "],"
  ++ DQUOTE ++ js "dialogue_text" ++ DQUOTE ++ js ":" ++ DQUOTE ++ reunion
  ++ DQUOTE ++ js "}]".

Definition reunionElements : list JsVal :=
  [JObj [(js "characters_in_shot", JArr [JStr (js "小明"); JStr (js "小红")]);
         (js "dialogue_text", JStr reunion)]].

(** A body whose one panel has dialogue and lists an object with a key
    [toString] as its character:
    [[{"characters_in_shot":[{"toString":"x"}],"dialogue_text":"hi"}]] *)
Definition maskedBody : jsstr :=
  js "[{" ++ DQUOTE ++ js "characters_in_shot" ++ DQUOTE ++ js ":[{" ++ DQUOTE
  ++ js "toString" ++ DQUOTE ++ js ":" ++ DQUOTE ++ js "x" ++ DQUOTE ++ js "}],"
  ++ DQUOTE ++ js "dialogue_text" ++ DQUOTE ++ js ":" ++ DQUOTE ++ js "hi"
  ++ DQUOTE ++ js "}]".

Definition maskedElements : list JsVal :=
  [JObj [(js "characters_in_shot", JArr [JObj [(js "toString", JStr (js "x"))]]);
         (js "dialogue_text", JStr (js "hi"))]].

(** A body that is an object without the two arrays: [{"title":"x"}] *)
Definition titleBody : jsstr :=
  js "{" ++ DQUOTE ++ js "title" ++ DQUOTE ++ js ":" ++ DQUOTE ++ js "x"
  ++ DQUOTE ++ js "}".

Definition titleValue : JsVal := JObj [(js "title", JStr (js "x"))].

Definition parses : list (jsstr * JsVal) :=
  [(numericNamesBody, numericNamesValue); (greetingBody, greetingValue);
   (titleBody, titleValue); (reunionBody, JArr reunionElements);
   (maskedBody, JArr maskedElements)].

Definition scriptLine : jsstr := js "INT. LAB - NIGHT".

(** A Tier 1 response that declines in words, and a Tier 2 response with
    one image. *)
Definition refusalResponse : GenerateContentResponse :=
  {| response_text := None;
     candidates :=
       Some [{| content :=
                  Some {| parts :=
                            Some [{| inlineData := None;
                                     text := Some (js "I can't draw that.") |}]
                       |} |}] |}.

Definition jpegResponse : GenerateImagesResponse :=
  {| generatedImages :=
       Some [{| image := Some {| imageBytes := Some (js "/9j/4AAQ") |} |}] |}.

Definition panelPromptText : jsstr := js "A lighthouse at dusk".

(* ================================================================== *)
(** * Further observations on the service *)
(* ================================================================== *)

Section MoreObservations.

Context {platform : Platform}.

(** The first [k] invocations of [fn] fail transiently and the next one
    resolves with [v]. *)
Fixpoint succeedsAfter {T} (fn : Op T) (k : nat) (p : Provider) (v : T)
  : Prop :=
  match k with
  | O => exists p' calls, fn p = (Resolved v, p', calls)
  | S k' =>
    match fn p with
    | (Rejected e, p', _) => isTransient e = true /\ succeedsAfter fn k' p' v
    | (Resolved _, _, _) => False
    end
  end.

(** Requests of each kind in a run. *)
Definition imagesRequests (evs : list Event) : list Call :=
  filter (fun c => match c with GenerateImages _ _ => true | _ => false end)
    (requests evs).

(** [p] is the first part of the response that carries inline data. *)
Definition firstInlinePart (response : GenerateContentResponse) (p : Part)
  : Prop :=
  exists before after,
    partsOf response = before ++ p :: after
    /\ Forall (fun q => inlineData q = None) before
    /\ inlineData p <> None.

End MoreObservations.

(** A Tier 1 response that captions its image: a text part, then a part
    with inline data. *)
Definition captionedImageResponse : GenerateContentResponse :=
  {| response_text := None;
     candidates :=
       Some [{| content :=
                  Some {| parts :=
                            Some [{| inlineData := None;
                                     text := Some (js "Here is your image.") |};
                                  {| inlineData := Some {| data := Some (js "iVBORw0KGgo") |};
                                     text := None |}]
                       |} |}] |}.

(** A rejected request (HTTP 400 at the top level) whose body nests the
    code of an overloaded backend. *)
Definition rejectedUpstream : JsError :=
  {| message := Some (js "Request rejected by upstream");
     as_text := js "ApiError: Request rejected by upstream";
     status := Some 400;
     response_status := Some 503;
     error := Some {| code := Some 503;
                      body_message := Some (js "backend unavailable") |};
     to_boolean := true |}.

Section SpeechObservations.

Context {platform : Platform}.

(** The first part of the response carries no audio: there is no part, or
    the first one has no inline data, or inline data without content. *)
Definition noLeadingAudio (response : GenerateContentResponse) : Prop :=
  match partsOf response with
  | [] => True
  | first :: _ =>
    match inlineData first with
    | Some audio => data audio = None \/ data audio = Some []
    | None => True
    end
  end.

Definition noAudio : JsError := newError (js "AI did not return audio data.").

(** The requests of a speech call: the same one, once per attempt. *)
Definition speechRequests (ai : GoogleGenAI) (text voiceName : jsstr)
           (evs : list Event) : Prop :=
  requests evs
  = repeat (GenerateContent (apiKey ai) (speechRequest text voiceName))
      (attempts evs)
  /\ (attempts evs <= 3)%nat.

End SpeechObservations.

(** A speech response whose audio comes second, after a text part, and one
    whose audio comes first. *)
Definition audioSecondResponse : GenerateContentResponse :=
  {| response_text := None;
     candidates :=
       Some [{| content :=
                  Some {| parts :=
                            Some [{| inlineData := None;
                                     text := Some (js "Reading aloud.") |};
                                  {| inlineData := Some {| data := Some (js "AQID") |};
                                     text := None |}]
                       |} |}] |}.

Definition audioResponse (base64 : jsstr) : GenerateContentResponse :=
  {| response_text := None;
     candidates :=
       Some [{| content :=
                  Some {| parts :=
                            Some [{| inlineData := Some {| data := Some base64 |};
                                     text := None |}]
                       |} |}] |}.

(** A platform whose [atob] raises on a character outside the base64
    alphabet, and decodes to three fixed bytes otherwise. *)
Definition isBase64Char (c : N) : bool :=
  ((65 <=? c) && (c <=? 90) || (97 <=? c) && (c <=? 122)
   || (48 <=? c) && (c <=? 57) || (c =? 43) || (c =? 47) || (c =? 61))%N.

Definition invalidCharacter : JsError :=
  {| message := Some (js "The string to be decoded is not correctly encoded.");
     as_text := js "InvalidCharacterError: The string to be decoded is not correctly encoded.";
     status := None; response_status := None; error := None;
     to_boolean := true |}.

Definition strictDecoder : Platform :=
  {| Provider := list Reply;
     serveContent := @serveContent (scripted []);
     serveImages := @serveImages (scripted []);
     JSON_parse := @JSON_parse (scripted []);
     JSON_parse_empty := eq_refl;
     atob := fun s => if forallb isBase64Char s then Resolved [1; 2; 3]%N
                      else Rejected invalidCharacter;
     objectURL := @objectURL (scripted []);
     Number_toString := @Number_toString (scripted []) |}.

Definition strictWorld (script : list Reply) : @World strictDecoder :=
  {| localStorage_gemini_api_key := Some storedKey;
     process_env_API_KEY := None;
     provider := (script : @Provider strictDecoder);
     objectURLs := [] |}.

(* ------------------------------------------------------------------ *)
(** ** What the analyses keep *)

(** Only white space and line terminators, which [trim] removes. *)
Definition blank (s : jsstr) : bool := forallb isWhiteSpace s.

(** The element takes its description from its dialogue: it has some, and
    its visual action is missing, blank or the sentinel. *)
Definition spokenFor (p : JsVal) : Prop :=
  (exists c d, stringField p (js "dialogue_text") = Some (c :: d))
  /\ match stringField p (js "visual_action") with
     | Some s => blank s = true \/ s = NO_DESCRIPTION
     | None => True
     end.

(** [description] is the one synthesized for a panel element: a line
    spoken by the characters it lists when it has dialogue, the
    establishing shot otherwise. *)
Definition synthesized (p : JsVal) (description : jsstr) : Prop :=
  match stringField p (js "dialogue_text") with
  | Some (c :: d) =>
    (exists who, description = spokenLine who (c :: d))
    /\ (forall names, listedNames p names ->
          description = spokenLine (speakers names) (c :: d))
  | _ => description = establishingShot
  end.

(** What a panel keeps of its element: a visual action with something to
    see in it, the dialogue, the shot type and the panel number, each as
    sent; a visual action of white space only is replaced. *)
Definition preserved (p : JsVal) (r : ReturnedPanel) : Prop :=
  (forall s, stringField p (js "visual_action") = Some s ->
     (blank s = false -> s <> NO_DESCRIPTION -> ScriptPanel.description r = s)
     /\ (blank s = true -> synthesized p (ScriptPanel.description r)))
  /\ (forall d, stringField p (js "dialogue_text") = Some d ->
        ScriptPanel.dialogue r = Some d)
  /\ (forall a, stringField p (js "shot_type") = Some a ->
        ScriptPanel.cameraAngle r = Some a)
  /\ (forall n, member p (js "panel_id") = Some (Some (JNum n)) ->
        ScriptPanel.panelNumber r = n).

(** How [extractWorldInfo] reads a field of the parsed body: a truthy
    value as it is, anything else as the empty array. *)
Definition fieldOrEmpty (result : JsVal) (key : jsstr) (v : JsVal) : Prop :=
  match member result key with
  | Some (Some sent) => if truthy (Some sent) then v = sent else v = JArr []
  | _ => v = JArr []
  end.

(** A body of three panels, the first with a visual action padded with
    spaces, the others with one of white space only, the last with
    dialogue and two characters:
    [[{"panel_id":3,"visual_action":"  Wide shot of the pier. ",
       "shot_type":"Wide"},{"visual_action":" \n"},
      {"visual_action":" ","dialogue_text":"Ahoy there!",
       "characters_in_shot":["Mia","Bob"]}]] *)
Definition pierBody : jsstr :=
  js "[{" ++ DQUOTE ++ js "panel_id" ++ DQUOTE ++ js ":3," ++ DQUOTE
  ++ js "visual_action" ++ DQUOTE ++ js ":" ++ DQUOTE
  ++ js "  Wide shot of the pier. " ++ DQUOTE ++ js "," ++ DQUOTE
  ++ js "shot_type" ++ DQUOTE ++ js ":" ++ DQUOTE ++ js "Wide" ++ DQUOTE
  ++ js "},{" ++ DQUOTE ++ js "visual_action" ++ DQUOTE ++ js ":" ++ DQUOTE
  ++ js " \n" ++ DQUOTE ++ js "},{" ++ DQUOTE ++ js "visual_action" ++ DQUOTE
  ++ js ":" ++ DQUOTE ++ js " " ++ DQUOTE ++ js "," ++ DQUOTE
  ++ js "dialogue_text" ++ DQUOTE ++ js ":" ++ DQUOTE ++ js "Ahoy there!"
  ++ DQUOTE ++ js "," ++ DQUOTE ++ js "characters_in_shot" ++ DQUOTE
  ++ js ":[" ++ DQUOTE ++ js "Mia" ++ DQUOTE ++ js "," ++ DQUOTE ++ js "Bob"
  ++ DQUOTE ++ js "]}]".

Definition pierElements : list JsVal :=
  [JObj [(js "panel_id", JNum 3);
         (js "visual_action", JStr (js "  Wide shot of the pier. "));
         (js "shot_type", JStr (js "Wide"))];
   JObj [(js "visual_action", JStr (32 :: LF)%N)];
   JObj [(js "visual_action", JStr (js " "));
         (js "dialogue_text", JStr (js "Ahoy there!"));
         (js "characters_in_shot", JArr [JStr (js "Mia"); JStr (js "Bob")])]].

(** A body whose scenes field is a string:
    [{"characters":[{"name":"Mia"}],"scenes":"none"}] *)
Definition miaBody : jsstr :=
  js "{" ++ DQUOTE ++ js "characters" ++ DQUOTE ++ js ":[{" ++ DQUOTE
  ++ js "name" ++ DQUOTE ++ js ":" ++ DQUOTE ++ js "Mia" ++ DQUOTE ++ js "}],"
  ++ DQUOTE ++ js "scenes" ++ DQUOTE ++ js ":" ++ DQUOTE ++ js "none"
  ++ DQUOTE ++ js "}".

Definition miaValue : JsVal :=
  JObj [(js "characters", JArr [JObj [(js "name", JStr (js "Mia"))]]);
        (js "scenes", JStr (js "none"))].

Definition moreParses : list (jsstr * JsVal) :=
  [(pierBody, JArr pierElements); (miaBody, miaValue);
   (maskedBody, JArr maskedElements)].

(* ------------------------------------------------------------------ *)
(** ** Rosters *)

(** Two roster entries carry the same name, or names neither of which
    contains the other. *)
Definition unrelatedNames (c1 c2 : Character.t) : Prop :=
  Character.name c1 = Character.name c2
  \/ (includes (Character.name c1) (Character.name c2) = false
      /\ includes (Character.name c2) (Character.name c1) = false).

Definition independentNames (roster : list Character.t) : Prop :=
  ForallOrdPairs unrelatedNames roster.

Definition bob : Character.t := character (js "Bob") (js "stocky, green coat").
Definition nameless : Character.t := character [] (js "a hooded figure").

(* ================================================================== *)
(** * The tabs *)
(* ================================================================== *)

(** The handlers of the tabs, as functions of the React state they read
    and set and of the world the service acts on.  Dialogs, console output
    and the progress indicators of a tab are left out; the answer to
    [confirm] is an argument.  A handler is run to its end with nothing
    else touching the state in between. *)

(** [enum AppTab] *)
Inductive AppTab : Type :=
| SCRIPT | CHARACTERS | SCENES | STORYBOARD | AUDIO | SETTINGS.

(** [interface StoryboardFrame extends ScriptPanel] *)
Module StoryboardFrame.
Inductive Status : Type := pending | generating | done | error.
Inductive AudioStatus : Type :=
| audio_idle | audio_generating | audio_done | audio_error.
Record t : Type := make {
  panel : DeclaredPanel;
  id : jsstr;
  generatedImageUrl : option jsstr;
  currentPrompt : jsstr;
  status : Status;
  assignedSceneId : option jsstr;
  audioUrl : option jsstr;
  audioStatus : option AudioStatus
}.

(** [{ ...f, status }] and the other spreads the handlers write *)
Definition withStatus (s : Status) (f : t) : t :=
  make (panel f) (id f) (generatedImageUrl f) (currentPrompt f) s
    (assignedSceneId f) (audioUrl f) (audioStatus f).

Definition withImage (imageUrl promptToUse : jsstr) (f : t) : t :=
  make (panel f) (id f) (Some imageUrl) promptToUse done
    (assignedSceneId f) (audioUrl f) (audioStatus f).

Definition withCurrentPrompt (prompt : jsstr) (f : t) : t :=
  make (panel f) (id f) (generatedImageUrl f) prompt (status f)
    (assignedSceneId f) (audioUrl f) (audioStatus f).

Definition withAssignedSceneId (sceneId : jsstr) (f : t) : t :=
  make (panel f) (id f) (generatedImageUrl f) (currentPrompt f) (status f)
    (Some sceneId) (audioUrl f) (audioStatus f).

Definition withCharactersPresent (names : list jsstr) (f : t) : t :=
  make (ScriptPanel.make (ScriptPanel.panelNumber (panel f))
          (ScriptPanel.description (panel f)) names
          (ScriptPanel.dialogue (panel f)) (ScriptPanel.cameraAngle (panel f)))
    (id f) (generatedImageUrl f) (currentPrompt f) (status f)
    (assignedSceneId f) (audioUrl f) (audioStatus f).

Definition withAudioUrl (wavUrl : jsstr) (f : t) : t :=
  make (panel f) (id f) (generatedImageUrl f) (currentPrompt f) (status f)
    (assignedSceneId f) (Some wavUrl) (audioStatus f).
End StoryboardFrame.

(** [prev.map(x => x.id === id ? g(x) : x)] *)
Definition mapWhere {A} (idOf : A -> jsstr) (target : jsstr) (g : A -> A)
           (l : list A) : list A :=
  map (fun x => if str_eqb (idOf x) target then g x else x) l.

(** [items.map(f)] where [f] draws identifiers: the element at position
    [i] gets the draw numbered [k + i]. *)
Fixpoint mapFrom {A B} (k : nat) (f : nat -> A -> B) (l : list A) : list B :=
  match l with
  | [] => []
  | a :: rest => f k a :: mapFrom (S k) f rest
  end.

(** [s.id === sceneId], where [sceneId] may be undefined *)
Definition sameId (a : jsstr) (b : option jsstr) : bool :=
  match b with Some b => str_eqb a b | None => false end.

(** The state [App] holds and hands to the tabs. *)
Module App.
Record state : Type := {
  activeTab : AppTab;
  characters : list Character.t;
  scenes : list Scene.t;
  script : jsstr;
  frames : list StoryboardFrame.t
}.

Definition initial : state :=
  {| activeTab := SCRIPT; characters := []; scenes := []; script := [];
     frames := [] |}.
End App.

(* ------------------------------------------------------------------ *)
(** ** SettingsTab *)

Module SettingsTab.
Section SettingsTab.
Context {platform : Platform}.

Inductive Status : Type := idle | success | deleted.

Record state : Type := {
  apiKey : jsstr;
  savedKey : jsstr;
  status : Status
}.

(** [localStorage.setItem('gemini_api_key', value)] *)
Definition setItem (value : jsstr) (w : World) : World :=
  {| localStorage_gemini_api_key := Some value;
     process_env_API_KEY := process_env_API_KEY w;
     provider := provider w;
     objectURLs := objectURLs w |}.

(** [localStorage.removeItem('gemini_api_key')] *)
Definition removeItem (w : World) : World :=
  {| localStorage_gemini_api_key := None;
     process_env_API_KEY := process_env_API_KEY w;
     provider := provider w;
     objectURLs := objectURLs w |}.

(** [handleSave]; the timer that sets the status back to idle three
    seconds later runs after the handler. *)
Definition handleSave (s : state) (w : World) : state * World :=
  if negb (nonEmpty (trim (apiKey s))) then (s, w)
  else
    ({| apiKey := apiKey s; savedKey := trim (apiKey s); status := success |},
     setItem (trim (apiKey s)) w).

(** [handleDelete] *)
Definition handleDelete (s : state) (w : World) : state * World :=
  ({| apiKey := []; savedKey := []; status := deleted |}, removeItem w).

End SettingsTab.
End SettingsTab.

(* ------------------------------------------------------------------ *)
(** ** ScriptTab *)

Module ScriptTab.

Section Analyze.
Context {platform : Platform}.

Inductive Status : Type := idle | extracting | storyboarding | done.

(** The [extractedData] state as [handleAnalyze] fills it: what the two
    analyses returned, before the casts to the declared types. *)
Record Returned : Type := {
  returnedCharacters : JsVal;
  returnedScenes : JsVal;
  returnedPanels : list ReturnedPanel
}.

Record state : Type := {
  status : Status;
  extractedData : option Returned
}.

(** ToString of a property as [join] applies it: [undefined] gives the
    empty string; [None] when it raises. *)
Definition propertyToString (p : Property) : option jsstr :=
  match p with
  | Some v => elementToString v
  | None => Some []
  end.

(** A character of which only the name is known; [analyzeScript] reads
    nothing else. *)
Definition characterNamed (name : jsstr) : Character.t :=
  Character.make [] name [] [] None None.

(** [c => c.name] on the elements, each name as [join] prints it; [None]
    when an element is null or a name cannot be printed. *)
Fixpoint namesOfElements (elements : list JsVal) : option (list Character.t) :=
  match elements with
  | [] => Some []
  | c :: rest =>
    match option_bind (member c (js "name")) propertyToString,
          namesOfElements rest with
    | Some name, Some names => Some (characterNamed name :: names)
    | _, _ => None
    end
  end.

(** [worldData.characters as Character[]] as [analyzeScript] can use it:
    [None] when [(availableCharacters || []).map(c => c.name).join(", ")]
    raises, on a truthy value that is no array, on a null element, or on a
    name that cannot be printed. *)
Definition rosterOf (v : JsVal) : option (list Character.t) :=
  match v with
  | JArr elements => namesOfElements elements
  | _ => if truthy (Some v) then None else Some []
  end.

(** [handleAnalyze]: the state and world it ends with. *)
Definition handleAnalyze (script : jsstr) (s : state) (w : World)
  : state * World * list Event :=
  if negb (nonEmpty (trim script)) then (s, w, [])
  else
    let failed := {| status := idle; extractedData := extractedData s |} in
    match extractWorldInfo script w with
    | (Resolved worldData, w1, evs1) =>
      match rosterOf (characters worldData) with
      | Some roster =>
        match analyzeScript script roster w1 with
        | (Resolved panels, w2, evs2) =>
          ({| status := done;
              extractedData :=
                Some {| returnedCharacters := characters worldData;
                        returnedScenes := scenes worldData;
                        returnedPanels := panels |} |},
           w2, evs1 ++ evs2)
        | (Rejected e, w2, evs2) => (failed, w2, evs1 ++ evs2)
        end
      | None => (failed, w1, evs1)
      end
    | (Rejected e, w1, evs1) => (failed, w1, evs1)
    end.

End Analyze.

(** The [extractedData] state at its declared type, as [handleApply]
    uses it. *)
Record ExtractedData : Type := {
  characters : list PartialCharacter.t;
  scenes : list PartialScene.t;
  panels : list DeclaredPanel
}.

Section Apply.

(** [crypto.randomUUID()]: the identifier of the k-th draw. *)
Variable randomUUID : nat -> jsstr.

(** Lines 61-67 *)
Definition newCharacter (k : nat) (c : PartialCharacter.t) : Character.t :=
  Character.make (randomUUID k)
    (orString (PartialCharacter.name c) (js "Unknown"))
    (orString (PartialCharacter.description c) [])
    (orString (PartialCharacter.visualPrompt c) [])
    (Some []) None.

(** Lines 70-76 *)
Definition newScene (k : nat) (s : PartialScene.t) : Scene.t :=
  Scene.make (randomUUID k)
    (orString (PartialScene.name s) (js "Unknown"))
    (orString (PartialScene.description s) [])
    (orString (PartialScene.visualPrompt s) [])
    (Some []) None.

(** The predicate of [newScenes.find] (lines 82-86) *)
Definition sceneMatches (description : jsstr) (s : Scene.t) : bool :=
  let sceneName := orString (Some (Scene.name s)) [] in
  if negb (nonEmpty sceneName) || negb (nonEmpty description) then false
  else includes description sceneName || includes sceneName description.

(** Lines 79-102 *)
Definition newFrame (newChars : list Character.t) (newScenes : list Scene.t)
           (k : nat) (p : DeclaredPanel) : StoryboardFrame.t :=
  let description := orString (Some (ScriptPanel.description p)) [] in
  let matchedScene := find (sceneMatches description) newScenes in
  let initialPrompt := constructPanelPrompt p newChars matchedScene in
  StoryboardFrame.make p (randomUUID k) None initialPrompt
    StoryboardFrame.pending (option_map Scene.id matchedScene) None None.

(** [handleApply], [drawn] identifiers having been drawn before. *)
Definition handleApply (drawn : nat) (extractedData : option ExtractedData)
           (st : App.state) : App.state :=
  match extractedData with
  | None => st
  | Some extractedData =>
    let newChars := mapFrom drawn newCharacter (characters extractedData) in
    let drawn := (drawn + length (characters extractedData))%nat in
    let newScenes := mapFrom drawn newScene (scenes extractedData) in
    let drawn := (drawn + length (scenes extractedData))%nat in
    let newFrames :=
      mapFrom drawn (newFrame newChars newScenes) (panels extractedData) in
    {| App.activeTab := CHARACTERS;
       App.characters := App.characters st ++ newChars;
       App.scenes := App.scenes st ++ newScenes;
       App.script := App.script st;
       App.frames := newFrames |}
  end.

End Apply.
End ScriptTab.

(* ------------------------------------------------------------------ *)
(** ** StoryboardTab *)

Module StoryboardTab.
Section StoryboardTab.
Context {platform : Platform}.

(** The props. *)
Variables (characters : list Character.t) (scenes : list Scene.t).

Definition Frames : Type := list StoryboardFrame.t.

(** What a handler leaves: the frames, the world, and what happened. *)
Definition Run : Type := Frames * World * list Event.

(** Lines 317-318: the prompt rebuilt from the frame and the props. *)
Definition promptToUse (frame : StoryboardFrame.t) : jsstr :=
  let assignedScene :=
    find (fun s => sameId (Scene.id s) (StoryboardFrame.assignedSceneId frame))
      scenes in
  constructPanelPrompt (StoryboardFrame.panel frame) characters assignedScene.

(** [generateFrame] *)
Definition generateFrame (frame : StoryboardFrame.t) (prev : Frames)
           (w : World) : Run :=
  let prev :=
    mapWhere StoryboardFrame.id (StoryboardFrame.id frame)
      (StoryboardFrame.withStatus StoryboardFrame.generating) prev in
  let promptToUse := promptToUse frame in
  match generateImage promptToUse Ratio_16_9 w with
  | (Resolved imageUrl, w1, evs) =>
    (mapWhere StoryboardFrame.id (StoryboardFrame.id frame)
       (StoryboardFrame.withImage imageUrl promptToUse) prev, w1, evs)
  | (Rejected e, w1, evs) =>
    (mapWhere StoryboardFrame.id (StoryboardFrame.id frame)
       (StoryboardFrame.withStatus StoryboardFrame.error) prev, w1, evs)
  end.

(** The test of line 342 *)
Definition unfinished (frame : StoryboardFrame.t) : bool :=
  negb (truthyString (StoryboardFrame.generatedImageUrl frame))
  || match StoryboardFrame.status frame with
     | StoryboardFrame.error => true
     | _ => false
     end.

(** The loop of [handleGenerateAll] over the frames it was rendered
    with. *)
Fixpoint generateEach (frames : Frames) (prev : Frames) (w : World) : Run :=
  match frames with
  | [] => (prev, w, [])
  | frame :: rest =>
    if unfinished frame then
      let '(prev1, w1, evs1) := generateFrame frame prev w in
      let '(prev2, w2, evs2) := generateEach rest prev1 w1 in
      (prev2, w2, evs1 ++ Timeout 2000 :: evs2)
    else generateEach rest prev w
  end.

(** [handleGenerateAll] *)
Definition handleGenerateAll (confirmed : bool) (frames : Frames)
           (prev : Frames) (w : World) : Run :=
  if confirmed then generateEach frames prev w else (prev, w, []).

(** [updateFrameData(frameId, updates)], [updates] being the spread
    [{ ...f, ...updates }] *)
Definition updateFrameData (frameId : jsstr)
           (updates : StoryboardFrame.t -> StoryboardFrame.t)
           (prev : Frames) : Frames :=
  map (fun f =>
         if negb (str_eqb (StoryboardFrame.id f) frameId) then f
         else
           let updatedFrame := updates f in
           let scene :=
             find (fun s => sameId (Scene.id s)
                              (StoryboardFrame.assignedSceneId updatedFrame))
               scenes in
           let newPrompt :=
             constructPanelPrompt (StoryboardFrame.panel updatedFrame)
               characters scene in
           StoryboardFrame.withCurrentPrompt newPrompt updatedFrame)
      prev.

(** [handleAssignScene] *)
Definition handleAssignScene (frameId sceneId : jsstr) (prev : Frames)
  : Frames :=
  updateFrameData frameId (StoryboardFrame.withAssignedSceneId sceneId) prev.

(** [updateFramePromptManual] *)
Definition updateFramePromptManual (frameId newPrompt : jsstr) (prev : Frames)
  : Frames :=
  mapWhere StoryboardFrame.id frameId
    (StoryboardFrame.withCurrentPrompt newPrompt) prev.

(** [toggleCharacterInFrame], [frames] being the frames it was rendered
    with *)
Definition toggleCharacterInFrame (frames : Frames) (frameId charName : jsstr)
           (prev : Frames) : Frames :=
  match find (fun f => str_eqb (StoryboardFrame.id f) frameId) frames with
  | None => prev
  | Some frame =>
    let currentList :=
      ScriptPanel.charactersPresent (StoryboardFrame.panel frame) in
    let newList :=
      if existsb (str_eqb charName) currentList
      then filter (fun c => negb (str_eqb c charName)) currentList
      else currentList ++ [charName] in
    updateFrameData frameId (StoryboardFrame.withCharactersPresent newList)
      prev
  end.

End StoryboardTab.
End StoryboardTab.

(* ------------------------------------------------------------------ *)
(** ** AudioTab *)

Module AudioTab.
Section AudioTab.
Context {platform : Platform}.

(** The props, and the voice chosen per character id ([charVoiceMap]). *)
Variables (characters : list Character.t) (charVoiceMap : jsstr -> option jsstr).

Definition Frames : Type := list StoryboardFrame.t.
Definition Run : Type := Frames * World * list Event.

(** The filter of line 28 *)
Definition hasDialogue (f : StoryboardFrame.t) : bool :=
  match ScriptPanel.dialogue (StoryboardFrame.panel f) with
  | Some dialogue =>
    nonEmpty dialogue && (0 <? length (trim dialogue))%nat
  | None => false
  end.

Definition dialogueFrames (frames : Frames) : Frames :=
  filter hasDialogue frames.

(** [getVoiceForFrame] *)
Definition getVoiceForFrame (frame : StoryboardFrame.t) : jsstr :=
  match ScriptPanel.charactersPresent (StoryboardFrame.panel frame) with
  | speakerName :: _ =>
    if negb (nonEmpty speakerName) then js "Kore"
    else
      match find (fun c => str_eqb (Character.name c) speakerName) characters with
      | Some char =>
        if truthyString (charVoiceMap (Character.id char))
        then interpolate (charVoiceMap (Character.id char))
        else js "Kore"
      | None => js "Kore"
      end
  | [] => js "Kore"
  end.

(** [frame.dialogue!] *)
Definition dialogueOf (frame : StoryboardFrame.t) : jsstr :=
  interpolate (ScriptPanel.dialogue (StoryboardFrame.panel frame)).

(** The loop of [handleGenerateAllAudio] over [dialogueFrames]. *)
Fixpoint speakEach (todo : Frames) (prev : Frames) (w : World) : Run :=
  match todo with
  | [] => (prev, w, [])
  | frame :: rest =>
    if truthyString (StoryboardFrame.audioUrl frame)
    then speakEach rest prev w
    else
      let voice := getVoiceForFrame frame in
      match generateSpeech (dialogueOf frame) voice w with
      | (Resolved wavUrl, w1, evs1) =>
        let prev1 :=
          mapWhere StoryboardFrame.id (StoryboardFrame.id frame)
            (StoryboardFrame.withAudioUrl wavUrl) prev in
        let '(prev2, w2, evs2) := speakEach rest prev1 w1 in
        (prev2, w2, evs1 ++ Timeout 500 :: evs2)
      | (Rejected e, w1, evs1) =>
        let '(prev2, w2, evs2) := speakEach rest prev w1 in
        (prev2, w2, evs1 ++ evs2)
      end
  end.

(** [handleGenerateAllAudio] *)
Definition handleGenerateAllAudio (frames : Frames) (prev : Frames)
           (w : World) : Run :=
  speakEach (dialogueFrames frames) prev w.

(** [handleGenerateAudio] *)
Definition handleGenerateAudio (frame : StoryboardFrame.t) (prev : Frames)
           (w : World) : Run :=
  if negb (truthyString (ScriptPanel.dialogue (StoryboardFrame.panel frame)))
  then (prev, w, [])
  else
    match generateSpeech (dialogueOf frame) (getVoiceForFrame frame) w with
    | (Resolved wavUrl, w1, evs) =>
      (mapWhere StoryboardFrame.id (StoryboardFrame.id frame)
         (StoryboardFrame.withAudioUrl wavUrl) prev, w1, evs)
    | (Rejected e, w1, evs) => (prev, w1, evs)
    end.

End AudioTab.
End AudioTab.

(* ------------------------------------------------------------------ *)
(** ** CharacterTab *)

Module CharacterTab.
Section CharacterTab.
Context {platform : Platform}.

Definition Run : Type := list Character.t * World * list Event.

(** A character passed where a [Partial<Character>] is expected. *)
Definition asPartial (c : Character.t) : PartialCharacter.t :=
  PartialCharacter.make (Some (Character.id c)) (Some (Character.name c))
    (Some (Character.description c)) (Some (Character.visualPrompt c))
    (Character.imageUrl c) (Character.defaultVoice c).

(** [{ ...c, imageUrl: base64Img }] *)
Definition withImageUrl (base64Img : jsstr) (c : Character.t) : Character.t :=
  Character.make (Character.id c) (Character.name c) (Character.description c)
    (Character.visualPrompt c) (Some base64Img) (Character.defaultVoice c).

(** The loop of [handleGenerateAll] over the characters it was rendered
    with. *)
Fixpoint designEach (characters : list Character.t)
         (prevChars : list Character.t) (w : World) : Run :=
  match characters with
  | [] => (prevChars, w, [])
  | char :: rest =>
    let promptToUse := constructCharacterPrompt (asPartial char) in
    match generateImage promptToUse Ratio_16_9 w with
    | (Resolved base64Img, w1, evs1) =>
      let prev1 :=
        mapWhere Character.id (Character.id char) (withImageUrl base64Img)
          prevChars in
      let '(prev2, w2, evs2) := designEach rest prev1 w1 in
      (prev2, w2, evs1 ++ Timeout 1500 :: evs2)
    | (Rejected e, w1, evs1) =>
      let '(prev2, w2, evs2) := designEach rest prevChars w1 in
      (prev2, w2, evs1 ++ evs2)
    end
  end.

(** [handleGenerateAll] *)
Definition handleGenerateAll (confirmed : bool) (characters : list Character.t)
           (prevChars : list Character.t) (w : World) : Run :=
  match characters with
  | [] => (prevChars, w, [])
  | _ => if confirmed then designEach characters prevChars w
         else (prevChars, w, [])
  end.

End CharacterTab.
End CharacterTab.

(* ------------------------------------------------------------------ *)
(** ** SceneTab *)

Module SceneTab.
Section SceneTab.
Context {platform : Platform}.

Definition Run : Type := list Scene.t * World * list Event.

(** A scene passed where a [Partial<Scene>] is expected. *)
Definition asPartial (s : Scene.t) : PartialScene.t :=
  PartialScene.make (Some (Scene.id s)) (Some (Scene.name s))
    (Some (Scene.description s)) (Some (Scene.visualPrompt s))
    (Scene.imageUrl s) (Scene.gridUrl s).

(** [{ ...s, imageUrl: panImg, gridUrl: gridImg }] *)
Definition withImages (panImg gridImg : jsstr) (s : Scene.t) : Scene.t :=
  Scene.make (Scene.id s) (Scene.name s) (Scene.description s)
    (Scene.visualPrompt s) (Some panImg) (Some gridImg).

(** The two images of lines 101-109: both, or the first failure. *)
Definition fullSet (scene : PartialScene.t) (between : Z)
  : M (jsstr * jsstr) :=
  bind (generateImage (constructScenePrompt scene) Ratio_16_9) (fun panImg =>
  bind (setTimeout between) (fun _ =>
  bind (generateImage (constructSceneGridPrompt scene) Ratio_1_1) (fun gridImg =>
  ret (panImg, gridImg)))).

(** The loop of [handleGenerateAll] over the scenes it was rendered
    with. *)
Fixpoint generateEach (scenes : list Scene.t) (prev : list Scene.t)
         (w : World) : Run :=
  match scenes with
  | [] => (prev, w, [])
  | scene :: rest =>
    match fullSet (asPartial scene) 1000 w with
    | (Resolved (panImg, gridImg), w1, evs1) =>
      let prev1 :=
        mapWhere Scene.id (Scene.id scene) (withImages panImg gridImg) prev in
      let '(prev2, w2, evs2) := generateEach rest prev1 w1 in
      (prev2, w2, evs1 ++ Timeout 1000 :: evs2)
    | (Rejected e, w1, evs1) =>
      let '(prev2, w2, evs2) := generateEach rest prev w1 in
      (prev2, w2, evs1 ++ evs2)
    end
  end.

(** [handleGenerateAll] *)
Definition handleGenerateAll (confirmed : bool) (scenes : list Scene.t)
           (prev : list Scene.t) (w : World) : Run :=
  match scenes with
  | [] => (prev, w, [])
  | _ => if confirmed then generateEach scenes prev w else (prev, w, [])
  end.

End SceneTab.
End SceneTab.

(* ------------------------------------------------------------------ *)
(** ** What the handlers leave behind *)

(** A series of updates by identifier, applied in order. *)
Definition applyAll {A} (idOf : A -> jsstr) (ups : list (jsstr * (A -> A)))
           (st : list A) : list A :=
  fold_left (fun st tu => mapWhere idOf (fst tu) (snd tu) st) ups st.

(** The update recorded for an identifier, if there is one. *)
Definition updateFor {A} (ups : list (jsstr * (A -> A))) (target : jsstr)
  : option (A -> A) :=
  option_map snd (find (fun tu => str_eqb target (fst tu)) ups).

(** The service leaves the stored and the built-in key alone. *)
Definition sameKeys {platform : Platform} (w w' : World) : Prop :=
  localStorage_gemini_api_key w' = localStorage_gemini_api_key w
  /\ process_env_API_KEY w' = process_env_API_KEY w.

(** A credential is in place: [getAI] returns a client. *)
Definition credentialed {platform : Platform} (w : World) : Prop :=
  exists ai, getAI w = (Resolved ai, w, []).

(** A frame after [generateFrame] was run for it: done, with an image
    and the prompt that was sent, or in error and otherwise as before. *)
Definition generated (characters : list Character.t)
           (scenes : list Scene.t) (frame f' : StoryboardFrame.t) : Prop :=
  (exists imageUrl,
      f' = StoryboardFrame.withImage imageUrl
             (StoryboardTab.promptToUse characters scenes frame) frame)
  \/ f' = StoryboardFrame.withStatus StoryboardFrame.error frame.

(** A frame after the batch of the storyboard tab. *)
Definition settled (characters : list Character.t)
           (scenes : list Scene.t) (f f' : StoryboardFrame.t) : Prop :=
  if StoryboardTab.unfinished f then generated characters scenes f f'
  else f' = f.

(** The requests one call of [generateImage] for [prompt] may send. *)
Definition imageRequests (prompt : jsstr)
           (ar : AspectRatio) (evs : list Event) : Prop :=
  exists (key : jsstr) (n1 n2 : nat),
    (n1 <= 3)%nat /\ (n2 <= 3)%nat
    /\ requests evs
       = repeat (GenerateContent key (tier1Request prompt ar)) n1
         ++ repeat (GenerateImages key (tier2Request prompt ar)) n2.

(** The updates [generateFrame] may end with for a frame. *)
Definition frameUpdate (characters : list Character.t) (scenes : list Scene.t)
           (frame : StoryboardFrame.t)
           (u : StoryboardFrame.t -> StoryboardFrame.t) : Prop :=
  (exists imageUrl,
      u = StoryboardFrame.withImage imageUrl
            (StoryboardTab.promptToUse characters scenes frame))
  \/ u = StoryboardFrame.withStatus StoryboardFrame.error.

(** The names listed on a frame. *)
Definition namesOf (f : StoryboardFrame.t) : list jsstr :=
  ScriptPanel.charactersPresent (StoryboardFrame.panel f).

(** A frame after an edit that lists [names] on it: its data with the new
    list, and the preview prompt rebuilt from them. *)
Definition relisted (characters : list Character.t) (scenes : list Scene.t)
           (names : list jsstr) (f : StoryboardFrame.t) : StoryboardFrame.t :=
  let edited := StoryboardFrame.withCharactersPresent names f in
  StoryboardFrame.withCurrentPrompt
    (StoryboardTab.promptToUse characters scenes edited) edited.

(** A frame after it was bound to the scene [sceneId]. *)
Definition rebound (characters : list Character.t) (scenes : list Scene.t)
           (sceneId : jsstr) (f : StoryboardFrame.t) : StoryboardFrame.t :=
  let edited := StoryboardFrame.withAssignedSceneId sceneId f in
  StoryboardFrame.withCurrentPrompt
    (StoryboardTab.promptToUse characters scenes edited) edited.

(** The frames the audio batch tries: with dialogue, without audio. *)
Definition awaitsVoice (f : StoryboardFrame.t) : bool :=
  AudioTab.hasDialogue f && negb (truthyString (StoryboardFrame.audioUrl f)).

(** An update that changes nothing, or sets one field. *)
Definition keepsOrSets {A B} (set : B -> A -> A) (u : A -> A) : Prop :=
  u = (fun x => x) \/ exists b, u = set b.

(** A frame after the audio batch. *)
Definition voiced (f f' : StoryboardFrame.t) : Prop :=
  if awaitsVoice f
  then f' = f \/ exists wavUrl, f' = StoryboardFrame.withAudioUrl wavUrl f
  else f' = f.

(** A character after the design batch, a scene after the scene batch. *)
Definition designed (c c' : Character.t) : Prop :=
  c' = c \/ exists base64Img, c' = CharacterTab.withImageUrl base64Img c.

Definition pictured (s s' : Scene.t) : Prop :=
  s' = s \/ exists panImg gridImg, s' = SceneTab.withImages panImg gridImg s.

(** A character or scene as [handleApply] adopts it: a name that is not
    empty (the one given, or Unknown), description and visual DNA as
    given or empty, an empty image. *)
Definition nameOrUnknown (name : option jsstr) : jsstr :=
  match name with
  | Some (c :: s) => c :: s
  | _ => js "Unknown"
  end.

Definition adoptedCharacter (c : PartialCharacter.t) (n : Character.t) : Prop :=
  Character.name n = nameOrUnknown (PartialCharacter.name c)
  /\ Character.name n <> []
  /\ Character.description n = orString (PartialCharacter.description c) []
  /\ Character.visualPrompt n = orString (PartialCharacter.visualPrompt c) []
  /\ Character.imageUrl n = Some [].

Definition adoptedScene (s : PartialScene.t) (n : Scene.t) : Prop :=
  Scene.name n = nameOrUnknown (PartialScene.name s)
  /\ Scene.name n <> []
  /\ Scene.description n = orString (PartialScene.description s) []
  /\ Scene.visualPrompt n = orString (PartialScene.visualPrompt s) []
  /\ Scene.imageUrl n = Some [].

(** A frame as [handleApply] creates it. *)
Definition fresh (f : StoryboardFrame.t) : Prop :=
  StoryboardFrame.status f = StoryboardFrame.pending
  /\ StoryboardFrame.generatedImageUrl f = None
  /\ StoryboardFrame.audioUrl f = None.

(** No character of the roster is related to a name listed on a panel. *)
Definition strangersTo (panels : list DeclaredPanel) (roster : list Character.t)
  : Prop :=
  forall c p n, In c roster -> In p panels ->
                In n (ScriptPanel.charactersPresent p) ->
                fuzzyMatch n c = false.

(* ------------------------------------------------------------------ *)
(** ** A small project, for running the handlers *)

Definition harbour : Scene.t :=
  Scene.make (js "s-harbour") (js "pier") (js "The old pier")
    (js "weathered planks, fog") None None.

Definition market : Scene.t :=
  Scene.make (js "s-market") (js "market") (js "The night market")
    (js "lanterns, crowded stalls") None None.

(** A pending frame without dialogue and a finished one with dialogue. *)
Definition pierFrame : StoryboardFrame.t :=
  StoryboardFrame.make (panelWith [js "Alice"]) (js "f-1") None
    (js "stale preview") StoryboardFrame.pending None None None.

Definition helloFrame : StoryboardFrame.t :=
  StoryboardFrame.make
    (ScriptPanel.make 2 (js "She waves") [js "Alice"] (Some (js "Hello there"))
       (Some (js "Close-up")))
    (js "f-2") (Some (js "data:image/png;base64,AAAA")) (js "sent before")
    StoryboardFrame.done None None None.

(** Identifiers drawn one after the other: id-, id-0, id-00, ... *)
Definition countingUUID (k : nat) : jsstr := js "id-" ++ repeat 48%N k.

(** An analysis with one character without a name, one scene and one
    panel set on the pier. *)
Definition pierAnalysis : ScriptTab.ExtractedData :=
  {| ScriptTab.characters :=
       [PartialCharacter.make None None None (Some (js "a hooded figure"))
          None None];
     ScriptTab.scenes :=
       [PartialScene.make None (Some (js "pier")) None
          (Some (js "weathered planks, fog")) None None];
     ScriptTab.panels := [panelWith [js "Alice"]] |}.

(** A request of [generateImage] for [prompt], to either tier, and a
    request of [generateSpeech] for a text and a voice. *)
Definition imageRequestFor (prompt : jsstr) (ar : AspectRatio) (c : Call)
  : Prop :=
  exists key, c = GenerateContent key (tier1Request prompt ar)
              \/ c = GenerateImages key (tier2Request prompt ar).

Definition speechRequestFor (text voiceName : jsstr) (c : Call) : Prop :=
  exists key, c = GenerateContent key (speechRequest text voiceName).

(** Every request of a run was sent for one of the items the batch
    selects. *)
Definition sentFor {A} (items : list A) (selected : A -> bool)
           (requestFor : A -> Call -> Prop) (evs : list Event) : Prop :=
  Forall (fun c => exists item, In item items /\ selected item = true
                                /\ requestFor item c)
    (requests evs).

(* ================================================================== *)
(** * Strings *)
(* ================================================================== *)

Lemma str_eqb_eq (s t : jsstr) : str_eqb s t = true <-> s = t.
Proof.
  revert t. induction s as [|a s IH]; intros [|b t]; cbn;
    try (split; congruence).
  rewrite andb_true_iff, N.eqb_eq, IH. split; [intros [-> ->]|intros [= -> ->]]; auto.
Qed.

Lemma str_eqb_refl (s : jsstr) : str_eqb s s = true.
Proof. now apply str_eqb_eq. Qed.

Lemma startsWith_prefix (s pat : jsstr) :
  startsWith s pat = true <-> exists post, s = pat ++ post.
Proof.
  revert s. induction pat as [|p pat IH]; intros s.
  - split; [intros _; now exists s|intros _; now destruct s].
  - destruct s as [|c s]; cbn [startsWith].
    + split; [discriminate|intros [post [=]]].
    + rewrite andb_true_iff, N.eqb_eq, IH. split.
      * intros [-> [post ->]]. now exists post.
      * intros [post [= -> ->]]. split; [reflexivity|now exists post].
Qed.

(** [includes] decides containment as a contiguous run of code units. *)
Lemma includes_infix (s pat : jsstr) :
  includes s pat = true <-> exists pre post, s = pre ++ pat ++ post.
Proof.
  induction s as [|c s IH]; cbn [includes]; rewrite orb_true_iff, startsWith_prefix.
  - split.
    + intros [[post E]|[=]]. now exists [], post.
    + intros (pre & post & E). left. destruct pre; [now exists post|discriminate].
  - rewrite IH. split.
    + intros [[post E]|(pre & post & ->)].
      * now exists [], post.
      * now exists (c :: pre), post.
    + intros ([|c' pre] & post & E).
      * left. now exists post.
      * right. injection E as -> ->. now exists pre, post.
Qed.

Lemma includes_self (s : jsstr) : includes s s = true.
Proof. apply includes_infix. exists [], []. now rewrite app_nil_r. Qed.

(* ================================================================== *)
(** * Prompt assembly *)
(* ================================================================== *)

Lemma fuzzyMatch_related (charName : jsstr) (c : Character.t) :
  fuzzyMatch charName c = true <-> related charName c.
Proof.
  unfold fuzzyMatch, related, contains.
  now rewrite !orb_true_iff, str_eqb_eq, !includes_infix, or_assoc.
Qed.

Lemma fuzzyMatch_unrelated (charName : jsstr) (c : Character.t) :
  fuzzyMatch charName c = false <-> ~ related charName c.
Proof.
  rewrite <- fuzzyMatch_related. now destruct (fuzzyMatch charName c).
Qed.

(** The [find] of line 428 returns the first related roster entry. *)
Lemma find_resolves (roster : list Character.t) (charName : jsstr) :
  resolvesTo roster charName (find (fuzzyMatch charName) roster).
Proof.
  induction roster as [|c roster IH]; cbn [find]; [constructor|].
  destruct (fuzzyMatch charName c) eqn:E.
  - exists [], roster. repeat split; [now apply fuzzyMatch_related|constructor].
  - apply fuzzyMatch_unrelated in E.
    destruct (find (fuzzyMatch charName) roster) as [c'|]; cbn in *.
    + destruct IH as (before & after & -> & Hrel & Hbefore).
      exists (c :: before), after. repeat split; auto.
    + now constructor.
Qed.

Lemma fold_left_append {A} (f : A -> jsstr) (l : list A) (init : jsstr) :
  fold_left (fun acc a => acc ++ f a) l init = init ++ concat (map f l).
Proof.
  revert init. induction l as [|a l IH]; intros init; cbn.
  - now rewrite app_nil_r.
  - now rewrite IH, app_assoc.
Qed.

Lemma constructPanelPrompt_sections (panel : DeclaredPanel)
      (roster : list Character.t) (scene : option Scene.t) :
  constructPanelPrompt panel roster scene
  = promptHead panel scene
    ++ charactersSection (fun n => find (fuzzyMatch n) roster)
         (ScriptPanel.charactersPresent panel).
Proof.
  unfold constructPanelPrompt, charactersSection.
  destruct (ScriptPanel.charactersPresent panel) as [|n names].
  - cbn. now rewrite app_nil_r.
  - cbn [length Nat.ltb Nat.leb].
    rewrite (fold_left_append
               (fun n => characterLine n (find (fuzzyMatch n) roster))).
    now rewrite <- !app_assoc.
Qed.

(** C4 (as amended).  [constructPanelPrompt] is the preamble, action and
    location followed, when the panel names characters, by the
    [CHARACTERS] section with one line per name, in order.  A name resolves
    to the first roster entry, in roster order, whose name equals it,
    is contained in it, or contains it, and the line then carries that
    entry's visual DNA; a name related to no entry gets the generic
    placeholder line.  So against a roster holding only "Alice", the name
    "AliceSmith" resolves to Alice and the name "Bob" to nothing. *)
Theorem constructPanelPrompt_resolution (panel : DeclaredPanel)
        (roster : list Character.t) (scene : option Scene.t) :
  let resolve := fun n => find (fuzzyMatch n) roster in
  constructPanelPrompt panel roster scene
  = promptHead panel scene
    ++ charactersSection resolve (ScriptPanel.charactersPresent panel)
  /\ (forall n, resolvesTo roster n (resolve n))
  /\ (forall n c, resolve n = Some c ->
        characterLine n (resolve n)
        = LF ++ js "- (" ++ n ++ js "): " ++ Character.visualPrompt c)
  /\ (forall n, resolve n = None ->
        characterLine n (resolve n)
        = LF ++ js "- (" ++ n ++ js "): Generic anime character.")
  /\ (roster = [alice] ->
      resolve (js "AliceSmith") = Some alice /\ resolve (js "Bob") = None).
Proof.
  intros resolve. split; [apply constructPanelPrompt_sections|].
  split; [intros n; apply find_resolves|].
  split; [now intros n c ->|]. split; [now intros n ->|].
  intros ->. subst resolve. split; vm_compute; reflexivity.
Qed.

(* ================================================================== *)
(** * The WAV container *)
(* ================================================================== *)

Lemma byteValue_ToUint8 (z : Z) : byteValue (ToUint8 z) = z mod 256.
Proof.
  unfold byteValue, ToUint8.
  assert (Hr : 0 <= z mod 256 < 256) by (apply Z.mod_pos_bound; lia).
  destruct (Byte.of_N (Z.to_N (z mod 256))) as [b|] eqn:E.
  - apply Byte.to_of_N in E. rewrite E. lia.
  - apply Byte.of_N_None_iff in E. lia.
Qed.

Lemma littleEndian32 (v : Z) :
  0 <= v < 2 ^ 32 ->
  fromLittleEndian
    [byteValue (ToUint8 v); byteValue (ToUint8 (Z.shiftr v 8));
     byteValue (ToUint8 (Z.shiftr v 16)); byteValue (ToUint8 (Z.shiftr v 24))]
  = v.
Proof.
  intros Hv. cbn [fromLittleEndian].
  rewrite !byteValue_ToUint8, !Z.shiftr_div_pow2 by lia.
  change (2 ^ 8) with 256. change (2 ^ 16) with 65536.
  change (2 ^ 24) with 16777216. change (2 ^ 32) with 4294967296 in Hv.
  Z.div_mod_to_equations. lia.
Qed.

Lemma littleEndian16 (v : Z) :
  0 <= v < 2 ^ 16 ->
  fromLittleEndian [byteValue (ToUint8 v); byteValue (ToUint8 (Z.shiftr v 8))]
  = v.
Proof.
  intros Hv. cbn [fromLittleEndian].
  rewrite !byteValue_ToUint8, !Z.shiftr_div_pow2 by lia.
  change (2 ^ 8) with 256. change (2 ^ 16) with 65536 in Hv.
  Z.div_mod_to_equations. lia.
Qed.

Lemma ToUint32_integer (z : Z) : ToUint32 (inject_Z z) = z mod 2 ^ 32.
Proof. unfold ToUint32, truncate. cbn [inject_Z Qnum Qden]. now rewrite Z.quot_1_r. Qed.

Lemma ToUint32_range (q : Q) : 0 <= ToUint32 q < 2 ^ 32.
Proof. unfold ToUint32. apply Z.mod_pos_bound. lia. Qed.

Lemma ToUint16_range (q : Q) : 0 <= ToUint16 q < 2 ^ 16.
Proof. unfold ToUint16. apply Z.mod_pos_bound. lia. Qed.

Lemma setArray_front (h : list byte) (n : nat) :
  setArray (repeat x00 (length h + n)) h 0 = Some (h ++ repeat x00 n).
Proof.
  unfold setArray. cbn [Nat.add firstn app].
  rewrite repeat_length.
  replace (length h <=? length h + n)%nat with true
    by (symmetry; apply Nat.leb_le; lia).
  f_equal. f_equal. rewrite repeat_app, skipn_app, repeat_length.
  rewrite skipn_all2 by (rewrite repeat_length; lia).
  now rewrite Nat.sub_diag.
Qed.

Lemma setArray_back (h src : list byte) :
  setArray (h ++ repeat x00 (length src)) src (length h) = Some (h ++ src).
Proof.
  unfold setArray. rewrite length_app, repeat_length, Nat.leb_refl.
  rewrite firstn_app, Nat.sub_diag, firstn_all. cbn [firstn].
  rewrite skipn_all2 by (rewrite length_app, repeat_length; lia).
  now rewrite !app_nil_r.
Qed.

Lemma createWavHeader_unfold (pcm : Uint8Array) (sr ch bps : Z) :
  createWavHeader pcm sr ch bps
  = match setArray (repeat x00 (44 + length pcm))
            (wavHeader (Z.of_nat (length pcm)) sr ch bps) 0 with
    | Some wavFile =>
      match setArray wavFile pcm 44 with
      | Some wavFile => Some wavFile
      | None => None
      end
    | None => None
    end.
Proof. reflexivity. Qed.

(** The container is the 44-byte header followed by the payload. *)
Lemma createWavHeader_closed (pcm : Uint8Array) (sr ch bps : Z) :
  createWavHeader pcm sr ch bps
  = Some (wavHeader (Z.of_nat (length pcm)) sr ch bps ++ pcm).
Proof.
  rewrite createWavHeader_unfold.
  change (44 + length pcm)%nat
    with (length (wavHeader (Z.of_nat (length pcm)) sr ch bps) + length pcm)%nat.
  rewrite setArray_front.
  change 44%nat with (length (wavHeader (Z.of_nat (length pcm)) sr ch bps)).
  now rewrite setArray_back.
Qed.

Lemma readBytes_skip (pre rest : list byte) (k n : nat) :
  readBytes (pre ++ rest) (length pre + k) n = readBytes rest k n.
Proof.
  revert k. induction n as [|n IH]; intros k; cbn [readBytes]; [reflexivity|].
  rewrite nth_error_app2 by lia.
  replace (length pre + k - length pre)%nat with k by lia.
  now rewrite <- (IH (S k)), Nat.add_succ_r.
Qed.

Lemma skipn_cons_nth {A} (l : list A) (k : nat) (a : A) :
  nth_error l k = Some a -> skipn k l = a :: skipn (S k) l.
Proof.
  revert k. induction l as [|x l IH]; intros [|k] H; try discriminate.
  - now injection H as ->.
  - cbn [nth_error] in H. now rewrite skipn_cons, (IH k H).
Qed.

Lemma readBytes_here (bs post : list byte) (k : nat) :
  readBytes (bs ++ post) k (length bs - k) = Some (map byteValue (skipn k bs)).
Proof.
  remember (length bs - k)%nat as n eqn:Hn. revert k Hn.
  induction n as [|n IH]; intros k Hn; cbn [readBytes].
  - now rewrite skipn_all2 by lia.
  - destruct (nth_error bs k) as [b|] eqn:Hb.
    2:{ apply nth_error_None in Hb. lia. }
    rewrite nth_error_app1, Hb by lia.
    rewrite (IH (S k)) by lia.
    now rewrite (skipn_cons_nth bs k b Hb).
Qed.

Lemma getUint_skip (width : nat) (pre rest : list byte) (n k : nat) (le : bool) :
  n = (length pre + k)%nat ->
  getUint width (pre ++ rest) n le = getUint width rest k le.
Proof. intros ->. unfold getUint. now rewrite readBytes_skip. Qed.

Lemma getUint_here (bs post : list byte) :
  getUint (length bs) (bs ++ post) 0 true
  = Some (fromLittleEndian (map byteValue bs)).
Proof.
  unfold getUint.
  rewrite <- (Nat.sub_0_r (length bs)) at 1. now rewrite readBytes_here.
Qed.

Lemma getUint32_field (v : Z) (post : list byte) :
  0 <= v < 2 ^ 32 ->
  getUint 4 (littleEndianBytes 4 v ++ post) 0 true = Some v.
Proof.
  intros Hv. change 4%nat with (length (littleEndianBytes 4 v)) at 1.
  rewrite getUint_here. f_equal. exact (littleEndian32 v Hv).
Qed.

Lemma getUint16_field (v : Z) (post : list byte) :
  0 <= v < 2 ^ 16 ->
  getUint 2 (littleEndianBytes 2 v ++ post) 0 true = Some v.
Proof.
  intros Hv. change 2%nat with (length (littleEndianBytes 2 v)) at 1.
  rewrite getUint_here. f_equal. exact (littleEndian16 v Hv).
Qed.

(** Walk to the field that starts at the given offset of the header. *)
Ltac locate_field :=
  unfold getUint32, getUint16, wavHeader; rewrite <- ?app_assoc;
  repeat
    match goal with
    | |- getUint ?w (?pre ++ ?rest) (S ?n) ?le = _ =>
      let k := eval vm_compute in (S n - length pre)%nat in
      rewrite (getUint_skip w pre rest (S n) k le eq_refl)
    end;
  first [ rewrite getUint32_field by apply ToUint32_range
        | rewrite getUint16_field by apply ToUint16_range ].

Section Fields.

Variables (pcm : Uint8Array) (sr ch bps : Z).
Let L := Z.of_nat (length pcm).
Let wav := wavHeader L sr ch bps ++ pcm.

Lemma field_fileSize : getUint32 wav 4 true = Some ((36 + L) mod 2 ^ 32).
Proof. subst wav. locate_field. now rewrite ToUint32_integer. Qed.

Lemma field_dataSize : getUint32 wav 40 true = Some (L mod 2 ^ 32).
Proof. subst wav. locate_field. now rewrite ToUint32_integer. Qed.

Lemma field_subchunk1Size : getUint32 wav 16 true = Some 16.
Proof. subst wav. now locate_field. Qed.

Lemma field_audioFormat : getUint16 wav 20 true = Some 1.
Proof. subst wav. now locate_field. Qed.

Lemma field_numChannels :
  getUint16 wav 22 true = Some (ToUint16 (inject_Z ch)).
Proof. subst wav. now locate_field. Qed.

Lemma field_sampleRate :
  getUint32 wav 24 true = Some (ToUint32 (inject_Z sr)).
Proof. subst wav. now locate_field. Qed.

Lemma field_byteRate :
  getUint32 wav 28 true
  = Some (ToUint32 (inject_Z sr * inject_Z ch * (inject_Z bps / 8))%Q).
Proof. subst wav. now locate_field. Qed.

Lemma field_blockAlign :
  getUint16 wav 32 true
  = Some (ToUint16 (inject_Z ch * (inject_Z bps / 8))%Q).
Proof. subst wav. now locate_field. Qed.

Lemma field_bitsPerSample :
  getUint16 wav 34 true = Some (ToUint16 (inject_Z bps)).
Proof. subst wav. now locate_field. Qed.

Lemma field_tags :
  firstn 4 wav = asciiBytes "RIFF"
  /\ firstn 4 (skipn 8 wav) = asciiBytes "WAVE"
  /\ firstn 4 (skipn 12 wav) = asciiBytes "fmt "
  /\ firstn 4 (skipn 36 wav) = asciiBytes "data".
Proof. subst wav. repeat split; reflexivity. Qed.

Lemma payload_after_header : skipn 44 wav = pcm.
Proof. reflexivity. Qed.

Lemma container_length : length wav = (length pcm + 44)%nat.
Proof. subst wav. rewrite length_app. change (length (wavHeader L sr ch bps)) with 44%nat. lia. Qed.

End Fields.

Lemma createWavHeader_fields (pcm : Uint8Array) :
  Z.of_nat (length pcm) + 36 < 2 ^ 32 ->
  exists wav,
    createWavHeader pcm sampleRate numChannels bitsPerSample = Some wav
    /\ canonicalContainer pcm wav.
Proof.
  intros Hlen. eexists. split; [apply createWavHeader_closed|].
  pose proof (field_tags pcm sampleRate numChannels bitsPerSample)
    as (Hriff & Hwave & _ & Hdata).
  unfold canonicalContainer. cbv zeta.
  repeat match goal with |- _ /\ _ => split end.
  - apply container_length.
  - exact Hriff.
  - rewrite field_fileSize. f_equal. apply Z.mod_small. lia.
  - exact Hwave.
  - apply field_subchunk1Size.
  - apply field_audioFormat.
  - now rewrite field_numChannels.
  - now rewrite field_sampleRate.
  - now rewrite field_byteRate.
  - now rewrite field_blockAlign.
  - exact Hdata.
  - rewrite field_dataSize. f_equal. apply Z.mod_small. lia.
  - reflexivity.
Qed.

(** C1 (as amended).  For every PCM payload of [L] bytes with
    [L + 36 < 2^32], [createWavHeader], with the sample rate, channel count
    and sample width that [pcmBase64ToWavUrl] passes, returns a byte array
    of length [L + 44] laid out as a canonical RIFF/WAVE file: the tags
    RIFF, WAVE and data at offsets 0, 8 and 36, the little-endian fields
    36 + L at 4, 16 at 16, 1 at 20, the channel count at 22, the sample rate
    at 24, the byte rate at 28, the block alignment at 32 and L at 40, and
    the payload unchanged from offset 44 on. *)
Theorem createWavHeader_canonical (pcm : Uint8Array) :
  Z.of_nat (length pcm) + 36 < 2 ^ 32 ->
  exists wav,
    createWavHeader pcm sampleRate numChannels bitsPerSample = Some wav
    /\ length wav = (length pcm + 44)%nat
    /\ firstn 4 wav = asciiBytes "RIFF"
    /\ getUint32 wav 4 true = Some (36 + Z.of_nat (length pcm))
    /\ firstn 4 (skipn 8 wav) = asciiBytes "WAVE"
    /\ getUint32 wav 16 true = Some 16
    /\ getUint16 wav 20 true = Some 1
    /\ getUint16 wav 22 true = Some numChannels
    /\ getUint32 wav 24 true = Some sampleRate
    /\ getUint32 wav 28 true
       = Some (sampleRate * numChannels * (bitsPerSample / 8))
    /\ getUint16 wav 32 true = Some (numChannels * (bitsPerSample / 8))
    /\ firstn 4 (skipn 36 wav) = asciiBytes "data"
    /\ getUint32 wav 40 true = Some (Z.of_nat (length pcm))
    /\ skipn 44 wav = pcm.
Proof.
  intros Hlen. destruct (createWavHeader_fields pcm Hlen) as (wav & Hwav & Hc).
  exists wav. split; [exact Hwav|exact Hc].
Qed.

Lemma createWavHeader_canonical_witness :
  Z.of_nat (length [x01; x02; xff]) + 36 < 2 ^ 32
  /\ exists wav,
       createWavHeader [x01; x02; xff] sampleRate numChannels bitsPerSample
       = Some wav
       /\ length wav = 47%nat
       /\ getUint32 wav 4 true = Some 39
       /\ getUint32 wav 40 true = Some 3
       /\ skipn 44 wav = [x01; x02; xff].
Proof.
  split; [reflexivity|].
  destruct (createWavHeader_canonical [x01; x02; xff] eq_refl)
    as (wav & Hwav & Hlen & _ & H4 & _ & _ & _ & _ & _ & _ & _ & _ & H40 & Hpcm).
  exists wav. repeat split; assumption.
Defined.

Lemma some_eq {A} (a b : A) : Some a = Some b -> a = b.
Proof. congruence. Qed.

Lemma canonical_fileSize_fits (pcm wav : Uint8Array) :
  createWavHeader pcm sampleRate numChannels bitsPerSample = Some wav ->
  canonicalContainer pcm wav ->
  (36 + Z.of_nat (length pcm)) mod 2 ^ 32 = 36 + Z.of_nat (length pcm).
Proof.
  rewrite createWavHeader_closed. intros E (_ & _ & H4 & _).
  apply some_eq in E. subst wav.
  rewrite field_fileSize in H4. now apply some_eq in H4.
Qed.

Lemma hugePayload_length : Z.of_nat (length hugePayload) = 4294967260.
Proof. unfold hugePayload. rewrite repeat_length. apply Z2Nat.id. lia. Qed.

(** C1 as stated fails: the size fields are 32 bits wide, so for a payload
    of 2^32 - 36 bytes the field at offset 4 holds 0, not 36 + L. *)
Lemma createWavHeader_size_field_wraps :
  ~ (forall pcm : Uint8Array,
        exists wav,
          createWavHeader pcm sampleRate numChannels bitsPerSample = Some wav
          /\ canonicalContainer pcm wav).
Proof.
  intros H. destruct (H hugePayload) as (wav & Hwav & Hc).
  pose proof (canonical_fileSize_fits _ _ Hwav Hc) as E.
  rewrite hugePayload_length in E. discriminate E.
Qed.

(* ================================================================== *)
(** * The resilient invoker *)
(* ================================================================== *)

Section Invoker.

Context {platform : Platform}.

Lemma withRetry_unfold {T} (fn : Op T) (retries : nat) (delay : Z) (w : World) :
  withRetry fn retries delay w =
  match fn (provider w) with
  | (Resolved a, p, calls) =>
    (Resolved a, withProvider w p, Attempt :: map Request calls)
  | (Rejected e, p, calls) =>
    match retries with
    | S retries' =>
      if isTransient e then
        let '(r, w', evs) := withRetry fn retries' (delay * 2) (withProvider w p) in
        (r, w', (Attempt :: map Request calls) ++ Timeout delay :: evs)
      else (Rejected e, withProvider w p, Attempt :: map Request calls)
    | O => (Rejected e, withProvider w p, Attempt :: map Request calls)
    end
  end.
Proof.
  destruct retries as [|retries']; cbn [withRetry]; unfold tryCatch, invoke;
    destruct (fn (provider w)) as [[[a|e] p] calls]; try reflexivity.
  - unfold throw. now rewrite app_nil_r.
  - destruct (isTransient e).
    + unfold bind, setTimeout. cbn.
      now destruct (withRetry fn retries' (delay * 2) (withProvider w p)) as [[r w'] evs].
    + unfold throw. now rewrite app_nil_r.
Qed.

Lemma timeline_requests (calls : list Call) (evs : list Event) :
  timeline (map Request calls ++ evs) = timeline evs.
Proof. induction calls; cbn; auto. Qed.

Lemma attempts_timeline (evs : list Event) : attempts (timeline evs) = attempts evs.
Proof. induction evs as [|[| |] evs IH]; cbn; auto. Qed.

Lemma delays_timeline (evs : list Event) : delays (timeline evs) = delays evs.
Proof. induction evs as [|[| |] evs IH]; cbn; congruence. Qed.

Lemma waitBefore_timeline (i : nat) (last : option Z) (evs : list Event) :
  waitBefore i last (timeline evs) = waitBefore i last evs.
Proof.
  revert i last. induction evs as [|[| |] evs IH]; intros i last; cbn; auto.
  destruct i; auto.
Qed.

Lemma attempts_backoffSchedule (n : nat) (d : Z) :
  attempts (backoffSchedule n d) = S n.
Proof. revert d. induction n as [|n IH]; intros d; cbn; auto. Qed.

Lemma delays_backoffSchedule (n : nat) (d : Z) :
  delays (backoffSchedule n d) = map (fun k => d * 2 ^ Z.of_nat k) (seq 0 n).
Proof.
  revert d. induction n as [|n IH]; intros d; [reflexivity|].
  cbn [backoffSchedule delays seq map]. rewrite IH, <- seq_shift, map_map.
  f_equal; [cbn; lia|].
  apply map_ext. intros k. rewrite Nat2Z.inj_succ, Z.pow_succ_r by lia. lia.
Qed.

Lemma waitBefore_backoffSchedule (n k : nat) (d : Z) (last : option Z) :
  (k < n)%nat ->
  waitBefore (S k) last (backoffSchedule n d) = Some (d * 2 ^ Z.of_nat k).
Proof.
  revert k d last. induction n as [|n IH]; intros k d last Hk; [lia|].
  cbn [backoffSchedule waitBefore]. destruct k as [|k].
  - destruct n; cbn; f_equal; lia.
  - change (Attempt :: match n with
                       | O => []
                       | S r => Timeout (d * 2) :: backoffSchedule r (d * 2 * 2)
                       end)
      with (backoffSchedule n (d * 2)).
    rewrite IH by lia. f_equal.
    rewrite Nat2Z.inj_succ, Z.pow_succ_r by lia. lia.
Qed.

(** However the operation behaves, it is invoked at most [retries + 1]
    times. *)
Lemma withRetry_attempts_bound {T} (fn : Op T) (retries : nat) (delay : Z)
      (w : World) :
  (attempts (snd (withRetry fn retries delay w)) <= retries + 1)%nat.
Proof.
  revert delay w. induction retries as [|n IH]; intros delay w;
    rewrite withRetry_unfold;
    destruct (fn (provider w)) as [[[a|e] p] calls];
    rewrite <- attempts_timeline; cbn [snd timeline];
    rewrite ?timeline_requests; cbn; try lia.
  - induction calls; cbn; lia.
  - induction calls; cbn; lia.
  - induction calls; cbn; lia.
  - destruct (isTransient e).
    + specialize (IH (delay * 2) (withProvider w p)).
      destruct (withRetry fn n (delay * 2) (withProvider w p)) as [[r w'] evs].
      cbn [snd timeline] in *. rewrite timeline_requests. cbn.
      rewrite attempts_timeline. lia.
    + cbn [snd timeline]. rewrite <- (app_nil_r (map Request calls)), timeline_requests.
      cbn. lia.
Qed.

(** When the first [retries + 1] invocations all fail transiently, the run
    follows the backoff schedule and ends with the last failure. *)
Lemma withRetry_exhausted {T} (fn : Op T) (retries : nat) (delay : Z)
      (w : World) :
  failsTransiently fn (S retries) (provider w) ->
  exists e w',
    failureOfAttempt fn retries (provider w) = Some e
    /\ fst (withRetry fn retries delay w) = (Rejected e, w')
    /\ timeline (snd (withRetry fn retries delay w))
       = backoffSchedule retries delay.
Proof.
  revert delay w. induction retries as [|n IH]; intros delay w Hfail;
    rewrite withRetry_unfold; cbn [failsTransiently failureOfAttempt] in *;
    destruct (fn (provider w)) as [[[a|e] p] calls]; try contradiction.
  - exists e, (withProvider w p). repeat split.
    cbn [snd timeline backoffSchedule].
    now rewrite <- (app_nil_r (map Request calls)), timeline_requests.
  - destruct Hfail as [He Hrest]. rewrite He.
    destruct (IH (delay * 2) (withProvider w p) Hrest) as (e' & w' & Hlast & Hres & Htl).
    destruct (withRetry fn n (delay * 2) (withProvider w p)) as [[r w''] evs].
    cbn [fst snd] in *. exists e', w'. repeat split; auto.
    cbn [timeline app backoffSchedule]. rewrite timeline_requests.
    cbn [timeline]. now rewrite Htl.
Qed.

Lemma isStatus_false (s : option Z) (n : Z) :
  isStatus s n = false <-> s <> Some n.
Proof.
  destruct s as [v|]; cbn; [|split; [discriminate|reflexivity]].
  rewrite Z.eqb_neq. split; congruence.
Qed.

(** [isTransient] is exactly the classification of the specification. *)
Lemma isTransient_false_iff (e : JsError) :
  isTransient e = false <-> notTransient e.
Proof.
  unfold isTransient, notTransient, transientStatuses, networkPatterns.
  rewrite !orb_false_iff, !isStatus_false. split.
  - intros (((((((((H500 & H503) & H502) & H504) & P1) & P2) & P3) & P4) & P5) & P6).
    split.
    + intros s Hs [<-|[<-|[<-|[<-|[]]]]]; congruence.
    + intros pat [<-|[<-|[<-|[<-|[<-|[<-|[]]]]]]]; assumption.
  - intros [Hs Hp].
    repeat split;
      try (intros E; apply (Hs _ E); cbn; tauto);
      apply Hp; cbn; tauto.
Qed.

(** C2.  When every attempt fails with a transient failure, [withRetry]
    with retry count [N] and base delay [d] invokes the operation at most
    [N + 1] times, one after the other, and the wait before attempt
    [k + 1] (attempts counted from 0) is [d * 2^k]; the default retry count
    is 3 and the default base delay 2000 ms, and image calls pass a retry
    count of 2. *)
Theorem withRetry_exponential_backoff {T} (fn : Op T) (N : nat) (d : Z)
        (w : World) :
  failsTransiently fn (S N) (provider w) ->
  let evs := snd (withRetry fn N d w) in
  (attempts evs <= N + 1)%nat
  /\ timeline evs = backoffSchedule N d
  /\ (forall k, (k < N)%nat ->
        waitBefore (S k) None evs = Some (d * 2 ^ Z.of_nat k))
  /\ retriesDefault = 3%nat /\ delayDefault = 2000
  /\ retriesForImages = 2%nat.
Proof.
  intros Hfail evs. subst evs.
  destruct (withRetry_exhausted fn N d w Hfail) as (e & w' & _ & _ & Htl).
  repeat match goal with |- _ /\ _ => split end; auto.
  - apply withRetry_attempts_bound.
  - intros k Hk. rewrite <- waitBefore_timeline, Htl.
    now apply waitBefore_backoffSchedule.
Qed.

(** C6.  A failure that is not transient (its status is none of 500, 502,
    503, 504 and its text contains none of the network-failure patterns)
    ends the run at once: one attempt, no wait, and the rejection is the
    very value the operation failed with.  When instead all [N + 1]
    attempts fail transiently, the rejection is the failure of the last
    attempt, again as it was raised. *)
Theorem withRetry_propagates_unaltered {T} (fn : Op T) (N : nat) (d : Z)
        (w : World) (e : JsError) (p : Provider) (calls : list Call) :
  fn (provider w) = (Rejected e, p, calls) ->
  (notTransient e ->
     withRetry fn N d w
     = (Rejected e, withProvider w p, Attempt :: map Request calls)
     /\ attempts (snd (withRetry fn N d w)) = 1%nat
     /\ delays (snd (withRetry fn N d w)) = [])
  /\ (failsTransiently fn (S N) (provider w) ->
      exists last w',
        failureOfAttempt fn N (provider w) = Some last
        /\ fst (withRetry fn N d w) = (Rejected last, w')).
Proof.
  intros Hfn. split.
  - intros Hnt. apply isTransient_false_iff in Hnt.
    assert (E : withRetry fn N d w
                = (Rejected e, withProvider w p, Attempt :: map Request calls)).
    { rewrite withRetry_unfold, Hfn, Hnt. now destruct N. }
    rewrite E. cbn [snd]. repeat split.
    + rewrite <- attempts_timeline. cbn [timeline].
      now rewrite <- (app_nil_r (map Request calls)), timeline_requests.
    + rewrite <- delays_timeline. cbn [timeline].
      now rewrite <- (app_nil_r (map Request calls)), timeline_requests.
  - intros Hfail.
    destruct (withRetry_exhausted fn N d w Hfail) as (last & w' & Hl & Hr & _).
    now exists last, w'.
Qed.

End Invoker.

(* ================================================================== *)
(** * Credentials *)
(* ================================================================== *)

Section Credentials.

Context {platform : Platform}.

Lemma nonEmpty_true (s : jsstr) : nonEmpty s = true <-> s <> [].
Proof. destruct s; cbn; split; congruence. Qed.

Lemma getAI_stored (w : World) (k : jsstr) :
  holdsKey (localStorage_gemini_api_key w) k ->
  getAI w = (Resolved {| apiKey := k |}, w, []).
Proof.
  intros [E Hk]. destruct k as [|c k]; [congruence|].
  unfold getAI, resolveKey. now rewrite E.
Qed.

Lemma getAI_default (w : World) (k : jsstr) :
  holdsNoKey (localStorage_gemini_api_key w) ->
  holdsKey (process_env_API_KEY w) k ->
  getAI w = (Resolved {| apiKey := k |}, w, []).
Proof.
  intros Hno [E Hk]. destruct k as [|c k]; [congruence|].
  unfold getAI, resolveKey. destruct Hno as [-> | ->]; now rewrite E.
Qed.

Lemma getAI_missing (w : World) :
  holdsNoKey (localStorage_gemini_api_key w) ->
  holdsNoKey (process_env_API_KEY w) ->
  getAI w = (Rejected credentialMissing, w, []).
Proof.
  intros Hl He. unfold getAI, resolveKey.
  destruct Hl as [-> | ->], He as [-> | ->]; reflexivity.
Qed.

Lemma bind_after_getAI {A} (body : GoogleGenAI -> M A) (w : World)
      (ai : GoogleGenAI) :
  getAI w = (Resolved ai, w, []) ->
  bind getAI body w = body ai w.
Proof. intros E. unfold bind. rewrite E. now destruct (body ai w) as [[r w'] evs]. Qed.

Lemma bind_getAI_rejected {A} (body : GoogleGenAI -> M A) (w : World)
      (e : JsError) :
  getAI w = (Rejected e, w, []) ->
  bind getAI body w = (Rejected e, w, []).
Proof. intros E. unfold bind. now rewrite E. Qed.

Lemma requests_app (evs1 evs2 : list Event) :
  requests (evs1 ++ evs2) = requests evs1 ++ requests evs2.
Proof. induction evs1 as [|[| |] evs1 IH]; cbn; congruence. Qed.

Lemma carries_ret {A} (k : jsstr) (a : A) : carries k (ret a).
Proof. intros w. constructor. Qed.

Lemma carries_throw {A} (k : jsstr) (e : JsError) : carries k (@throw _ A e).
Proof. intros w. constructor. Qed.

Lemma carries_bind {A B} (k : jsstr) (c : M A) (f : A -> M B) :
  carries k c -> (forall a, carries k (f a)) -> carries k (bind c f).
Proof.
  intros Hc Hf w. unfold bind. specialize (Hc w).
  destruct (c w) as [[[a|e] w1] evs1]; cbn [snd] in *; auto.
  specialize (Hf a w1). destruct (f a w1) as [[r w2] evs2]. cbn [snd] in *.
  rewrite requests_app. apply Forall_app. now split.
Qed.

Lemma carries_tryCatch {A} (k : jsstr) (c : M A) (h : JsError -> M A) :
  carries k c -> (forall e, carries k (h e)) -> carries k (tryCatch c h).
Proof.
  intros Hc Hh w. unfold tryCatch. specialize (Hc w).
  destruct (c w) as [[[a|e] w1] evs1]; cbn [snd] in *; auto.
  specialize (Hh e w1). destruct (h e w1) as [[r w2] evs2]. cbn [snd] in *.
  rewrite requests_app. apply Forall_app. now split.
Qed.

Lemma carries_invoke {T} (k : jsstr) (fn : Op T) :
  (forall p, Forall (fun c => callKey c = k) (snd (fn p))) ->
  carries k (invoke fn).
Proof.
  intros Hfn w. unfold invoke. specialize (Hfn (provider w)).
  destruct (fn (provider w)) as [[r p] calls]. cbn [snd requests] in *.
  induction Hfn; cbn; auto.
Qed.

Lemma carries_setTimeout (k : jsstr) (d : Z) : carries k (setTimeout d).
Proof. intros w. constructor. Qed.

Lemma carries_withRetry {T} (k : jsstr) (fn : Op T) (retries : nat) (delay : Z) :
  (forall p, Forall (fun c => callKey c = k) (snd (fn p))) ->
  carries k (withRetry fn retries delay).
Proof.
  intros Hfn. revert delay. induction retries as [|n IH]; intros delay;
    cbn [withRetry]; apply carries_tryCatch; try apply carries_invoke; auto;
    intros e; try apply carries_throw.
  destruct (isTransient e); [|apply carries_throw].
  apply carries_bind; [apply carries_setTimeout|]. intros _. apply IH.
Qed.

Lemma generateContent_key (ai : GoogleGenAI) (params : ContentParameters.t)
      (p : Provider) :
  Forall (fun c => callKey c = apiKey ai) (snd (generateContent ai params p)).
Proof.
  unfold generateContent. destruct (serveContent _ _ _). cbn. auto.
Qed.

Lemma generateImages_key (ai : GoogleGenAI) (params : ImagesParameters.t)
      (p : Provider) :
  Forall (fun c => callKey c = apiKey ai) (snd (generateImages ai params p)).
Proof.
  unfold generateImages. destruct (serveImages _ _ _). cbn. auto.
Qed.

(** The first thing [withRetry] does is to send the request. *)
Lemma withRetry_sends {T} (fn : Op T) (retries : nat) (delay : Z) (w : World) :
  snd (fn (provider w)) <> [] ->
  requests (snd (withRetry fn retries delay w)) <> [].
Proof.
  intros Hcalls. rewrite withRetry_unfold.
  destruct (fn (provider w)) as [[[a|e] p] calls]; cbn [snd] in *.
  - destruct calls; [congruence|discriminate].
  - destruct calls as [|c calls]; [congruence|].
    destruct retries as [|n]; [discriminate|].
    destruct (isTransient e); [|discriminate].
    now destruct (withRetry fn n (delay * 2) (withProvider w p)) as [[r w'] evs].
Qed.

Lemma bind_events_prefix {A B} (c : M A) (f : A -> M B) (w : World) :
  exists rest, snd (bind c f w) = snd (c w) ++ rest.
Proof.
  unfold bind. destruct (c w) as [[[a|e] w1] evs1]; cbn [snd].
  - destruct (f a w1) as [[r w2] evs2]. now exists evs2.
  - exists []. now rewrite app_nil_r.
Qed.

Lemma tryCatch_events_prefix {A} (c : M A) (h : JsError -> M A) (w : World) :
  exists rest, snd (tryCatch c h w) = snd (c w) ++ rest.
Proof.
  unfold tryCatch. destruct (c w) as [[[a|e] w1] evs1]; cbn [snd].
  - exists []. now rewrite app_nil_r.
  - destruct (h e w1) as [[r w2] evs2]. now exists evs2.
Qed.

Lemma forget_events {A} (c : M A) (w : World) : snd (forget c w) = snd (c w).
Proof. unfold forget. now destruct (c w) as [[[a|e] w'] evs]. Qed.

Lemma requests_prefix_nonempty (evs rest : list Event) :
  requests evs <> [] -> requests (evs ++ rest) <> [].
Proof.
  rewrite requests_app. destruct (requests evs); [congruence|discriminate].
Qed.

Lemma generateContent_sends (ai : GoogleGenAI) (params : ContentParameters.t)
      (p : Provider) :
  snd (generateContent ai params p) <> [].
Proof. unfold generateContent. now destruct (serveContent _ _ _). Qed.

Lemma carries_parseThen {A} (k : jsstr) (text : jsstr) (body : JsVal -> option A) :
  carries k (parseThen text body).
Proof.
  unfold parseThen. destruct (JSON_parse text) as [v|]; [|apply carries_throw].
  destruct (body v); [apply carries_ret|apply carries_throw].
Qed.

Lemma carries_pcmBase64ToWavUrl (k : jsstr) (base64Pcm : jsstr) :
  carries k (pcmBase64ToWavUrl base64Pcm).
Proof.
  unfold pcmBase64ToWavUrl. destruct (atob base64Pcm); [|apply carries_throw].
  destruct (createWavHeader _ _ _ _); [|apply carries_throw].
  intros w. constructor.
Qed.

Lemma carries_tier1 (ai : GoogleGenAI) (prompt : jsstr) (ar : AspectRatio) :
  carries (apiKey ai) (tier1 ai prompt ar).
Proof.
  apply carries_tryCatch; [|intros e; apply carries_ret].
  apply carries_bind; [|intros r; apply carries_ret].
  apply carries_withRetry, generateContent_key.
Qed.

Lemma carries_tier2 (ai : GoogleGenAI) (prompt : jsstr) (ar : AspectRatio) :
  carries (apiKey ai) (tier2 ai prompt ar).
Proof.
  apply carries_tryCatch; [|intros e; apply carries_ret].
  apply carries_bind; [apply carries_withRetry, generateImages_key|].
  intros r. cbv zeta. destruct (truthyString (firstImageBytes r)); apply carries_ret.
Qed.

(** Once [getAI] has produced a client, every request of the operation
    carries that client's key, and at least one request is sent. *)
Lemma perform_with_client (op : NetworkOperation) (w : World) (ai : GoogleGenAI) :
  getAI w = (Resolved ai, w, []) ->
  allRequestsCarry (apiKey ai) (snd (perform op w)).
Proof.
  intros Hai. unfold allRequestsCarry.
  destruct op as [script|script roster|prompt ar|text voice];
    cbn [perform]; rewrite forget_events;
    [unfold extractWorldInfo|unfold analyzeScript|unfold generateImage
    |unfold generateSpeech];
    rewrite (bind_after_getAI _ w ai Hai); split.
  - destruct (bind_events_prefix
                (withRetry (generateContent ai (worldInfoRequest script))
                   retriesDefault delayDefault)
                (fun response =>
                   match response_text response with
                   | Some text =>
                     if nonEmpty text then parseThen text worldInfoOf
                     else throw (newError (js "Failed to analyze script entities"))
                   | None => throw (newError (js "Failed to analyze script entities"))
                   end) w) as [rest ->].
    apply requests_prefix_nonempty, withRetry_sends, generateContent_sends.
  - apply carries_bind; [apply carries_withRetry, generateContent_key|].
    intros r. destruct (response_text r) as [text|]; [|apply carries_throw].
    destruct (nonEmpty text); [apply carries_parseThen|apply carries_throw].
  - destruct (bind_events_prefix
                (withRetry (generateContent ai (panelsRequest script roster))
                   retriesDefault delayDefault)
                (fun response =>
                   match response_text response with
                   | Some text =>
                     if nonEmpty text then parseThen text panelsOf
                     else throw (newError (js "Failed to analyze script"))
                   | None => throw (newError (js "Failed to analyze script"))
                   end) w) as [rest ->].
    apply requests_prefix_nonempty, withRetry_sends, generateContent_sends.
  - apply carries_bind; [apply carries_withRetry, generateContent_key|].
    intros r. destruct (response_text r) as [text|]; [|apply carries_throw].
    destruct (nonEmpty text); [apply carries_parseThen|apply carries_throw].
  - match goal with |- requests (snd (bind ?c ?f w)) <> [] =>
      destruct (bind_events_prefix c f w) as [rest ->] end.
    apply requests_prefix_nonempty. unfold tier1.
    match goal with |- requests (snd (tryCatch ?c ?h w)) <> [] =>
      destruct (tryCatch_events_prefix c h w) as [rest' ->] end.
    apply requests_prefix_nonempty.
    match goal with |- requests (snd (bind ?c ?f w)) <> [] =>
      destruct (bind_events_prefix c f w) as [rest'' ->] end.
    apply requests_prefix_nonempty, withRetry_sends, generateContent_sends.
  - apply carries_bind; [apply carries_tier1|].
    intros [uri|lastError]; [apply carries_ret|].
    apply carries_bind; [apply carries_tier2|].
    intros [uri|]; [apply carries_ret|].
    destruct (to_boolean lastError); apply carries_throw.
  - match goal with |- requests (snd (bind ?c ?f w)) <> [] =>
      destruct (bind_events_prefix c f w) as [rest ->] end.
    apply requests_prefix_nonempty, withRetry_sends, generateContent_sends.
  - apply carries_bind; [apply carries_withRetry, generateContent_key|].
    intros r. destruct (firstInlineData r) as [b|]; [|apply carries_throw].
    destruct (nonEmpty b); [apply carries_pcmBase64ToWavUrl|apply carries_throw].
Qed.

Lemma perform_without_client (op : NetworkOperation) (w : World) (e : JsError) :
  getAI w = (Rejected e, w, []) ->
  perform op w = (Rejected e, w, []).
Proof.
  intros Hai.
  destruct op; cbn [perform]; unfold forget;
    [unfold extractWorldInfo|unfold analyzeScript|unfold generateImage
    |unfold generateSpeech];
    now rewrite (bind_getAI_rejected _ w e Hai).
Qed.

(** C9.  Each of the four network-bound operations takes its credential
    from the stored key when there is one, and from the process-level
    default only when there is none: every request it sends carries that
    key.  When neither holds a key the operation fails with the
    missing-credential error, the world unchanged and no request sent. *)
Theorem credential_resolution (op : NetworkOperation) (w : World) :
  (forall k, holdsKey (localStorage_gemini_api_key w) k ->
     allRequestsCarry k (snd (perform op w)))
  /\ (forall k, holdsNoKey (localStorage_gemini_api_key w) ->
        holdsKey (process_env_API_KEY w) k ->
        allRequestsCarry k (snd (perform op w)))
  /\ (holdsNoKey (localStorage_gemini_api_key w) ->
      holdsNoKey (process_env_API_KEY w) ->
      perform op w = (Rejected credentialMissing, w, [])).
Proof.
  split; [|split].
  - intros k Hk. apply (perform_with_client op w {| apiKey := k |}).
    now apply getAI_stored.
  - intros k Hno Hk. apply (perform_with_client op w {| apiKey := k |}).
    now apply getAI_default.
  - intros Hl He. apply perform_without_client. now apply getAI_missing.
Qed.

End Credentials.

(* ================================================================== *)
(** * Entity extraction *)
(* ================================================================== *)

Section Extraction.

Context {platform : Platform}.

Lemma JSON_parse_nonempty (text : jsstr) (v : JsVal) :
  JSON_parse text = Some v -> nonEmpty text = true.
Proof.
  intros E. destruct text; [|reflexivity]. now rewrite JSON_parse_empty in E.
Qed.

Lemma bind_resolved {A B} (c : M A) (f : A -> M B) (w w1 : World) (a : A)
      (evs : list Event) :
  c w = (Resolved a, w1, evs) ->
  bind c f w = (fst (fst (f a w1)), snd (fst (f a w1)), evs ++ snd (f a w1)).
Proof. intros E. unfold bind. rewrite E. now destruct (f a w1) as [[r w2] evs2]. Qed.

Lemma member_defined (p : JsVal) (key : jsstr) :
  p <> JNull -> exists v, member p key = Some v.
Proof. intros Hp. destruct p; cbn; eauto. congruence. Qed.

Lemma extractWorldInfo_run (scriptText : jsstr) (w w1 : World)
      (response : GenerateContentResponse) (evs : list Event) :
  worldInfoResponse scriptText w response w1 evs ->
  extractWorldInfo scriptText w =
  match response_text response with
  | Some (c :: text) =>
    match JSON_parse (c :: text) with
    | Some result =>
      match worldInfoOf result with
      | Some info => (Resolved info, w1, evs)
      | None => (Rejected invalidJson, w1, evs)
      end
    | None => (Rejected invalidJson, w1, evs)
    end
  | _ => (Rejected failedEntities, w1, evs)
  end.
Proof.
  intros (ai & Hai & Hrun). unfold extractWorldInfo.
  rewrite (bind_after_getAI _ w ai Hai), (bind_resolved _ _ _ _ _ _ Hrun).
  destruct (response_text response) as [[|c text]|]; cbn;
    rewrite ?app_nil_r; try reflexivity.
  unfold parseThen. destruct (JSON_parse (c :: text)) as [result|]; cbn;
    rewrite ?app_nil_r; try reflexivity.
  destruct (worldInfoOf result); cbn; now rewrite app_nil_r.
Qed.

(** C8.  When the body of the response is absent, or is not valid JSON,
    [extractWorldInfo] fails with a parse error and sends nothing more: the
    events of the run are those of the one call through the invoker.  When
    the body parses, a field [characters] or [scenes] that is missing from
    the parsed value comes back as the empty array in a successful
    result. *)
Theorem extractWorldInfo_contract (scriptText : jsstr) (w w1 : World)
        (response : GenerateContentResponse) (evs : list Event) :
  worldInfoResponse scriptText w response w1 evs ->
  (bodyAbsent response ->
     extractWorldInfo scriptText w = (Rejected failedEntities, w1, evs))
  /\ (forall text,
        response_text response = Some text -> text <> [] ->
        JSON_parse text = None ->
        extractWorldInfo scriptText w = (Rejected invalidJson, w1, evs))
  /\ (forall text result,
        response_text response = Some text ->
        JSON_parse text = Some result ->
        (member result (js "characters") = Some None ->
         exists info,
           extractWorldInfo scriptText w = (Resolved info, w1, evs)
           /\ characters info = JArr [])
        /\ (member result (js "scenes") = Some None ->
            exists info,
              extractWorldInfo scriptText w = (Resolved info, w1, evs)
              /\ scenes info = JArr [])).
Proof.
  intros Hresp. rewrite (extractWorldInfo_run _ _ _ _ _ Hresp).
  split; [|split].
  - now intros [-> | ->].
  - intros [|c text] -> Hne Hparse; [congruence|]. now rewrite Hparse.
  - intros text result -> Hparse.
    pose proof (JSON_parse_nonempty _ _ Hparse) as Hne.
    destruct text as [|c text]; [discriminate|]. rewrite Hparse.
    unfold worldInfoOf. split; intros Hmiss.
    + assert (Hnn : result <> JNull) by (intros ->; discriminate Hmiss).
      destruct (member_defined result (js "scenes") Hnn) as [ss Hss].
      rewrite Hmiss, Hss. eexists. split; reflexivity.
    + assert (Hnn : result <> JNull) by (intros ->; discriminate Hmiss).
      destruct (member_defined result (js "characters") Hnn) as [cs Hcs].
      rewrite Hmiss, Hcs. eexists. split; reflexivity.
Qed.

(** A body that parses to [null] makes the property reads fail; the call
    ends with the invalid-JSON error. *)
Lemma extractWorldInfo_null_body (scriptText : jsstr) (w w1 : World)
      (response : GenerateContentResponse) (evs : list Event) (text : jsstr) :
  worldInfoResponse scriptText w response w1 evs ->
  response_text response = Some text ->
  JSON_parse text = Some JNull ->
  extractWorldInfo scriptText w = (Rejected invalidJson, w1, evs).
Proof.
  intros Hresp Ht Hparse. rewrite (extractWorldInfo_run _ _ _ _ _ Hresp), Ht.
  pose proof (JSON_parse_nonempty _ _ Hparse) as Hne.
  destruct text as [|c text]; [discriminate|]. now rewrite Hparse.
Qed.

Lemma analyzeScript_run (scriptText : jsstr) (roster : list Character.t)
      (w w1 : World) (response : GenerateContentResponse) (evs : list Event) :
  panelsResponse scriptText roster w response w1 evs ->
  analyzeScript scriptText roster w =
  match response_text response with
  | Some (c :: text) =>
    match JSON_parse (c :: text) with
    | Some result =>
      match panelsOf result with
      | Some panels => (Resolved panels, w1, evs)
      | None => (Rejected invalidJson, w1, evs)
      end
    | None => (Rejected invalidJson, w1, evs)
    end
  | _ => (Rejected failedPanels, w1, evs)
  end.
Proof.
  intros (ai & Hai & Hrun). unfold analyzeScript.
  rewrite (bind_after_getAI _ w ai Hai), (bind_resolved _ _ _ _ _ _ Hrun).
  destruct (response_text response) as [[|c text]|]; cbn;
    rewrite ?app_nil_r; try reflexivity.
  unfold parseThen. destruct (JSON_parse (c :: text)) as [result|]; cbn;
    rewrite ?app_nil_r; try reflexivity.
  destruct (panelsOf result); cbn; now rewrite app_nil_r.
Qed.

(** The panel built for an element that is not [null], when joining its
    characters does not raise. *)
Lemma panelOf_defined (p : JsVal) :
  p <> JNull ->
  exists va dt cs pid st,
    member p (js "visual_action") = Some va
    /\ member p (js "dialogue_text") = Some dt
    /\ member p (js "characters_in_shot") = Some cs
    /\ member p (js "panel_id") = Some pid
    /\ member p (js "shot_type") = Some st
    /\ panelOf p =
       option_map
         (fun desc =>
            ScriptPanel.make (numberOr 0 pid) desc (arrayOr [] cs)
              (Some (stringOr [] dt)) (Some (stringOr (js "Medium Shot") st)))
         (recoverDescription (stringOr [] va) (stringOr [] dt) (arrayOr [] cs)).
Proof.
  intros Hp.
  destruct (member_defined p (js "visual_action") Hp) as [va Hva].
  destruct (member_defined p (js "dialogue_text") Hp) as [dt Hdt].
  destruct (member_defined p (js "characters_in_shot") Hp) as [cs Hcs].
  destruct (member_defined p (js "panel_id") Hp) as [pid Hpid].
  destruct (member_defined p (js "shot_type") Hp) as [st Hst].
  exists va, dt, cs, pid, st. unfold panelOf.
  rewrite Hva, Hdt, Hcs, Hpid, Hst. repeat split.
Qed.

Lemma panelOf_null : panelOf JNull = None.
Proof. reflexivity. Qed.

Lemma panelOf_not_null (p : JsVal) (r : ReturnedPanel) :
  panelOf p = Some r -> p <> JNull.
Proof. intros E ->. discriminate E. Qed.

(** [result.map] keeps the order and builds each panel from its element. *)
Lemma mapPanels_some (elements : list JsVal) (panels : list ReturnedPanel) :
  mapPanels elements = Some panels ->
  Forall2 (fun p r => p <> JNull /\ panelOf p = Some r) elements panels.
Proof.
  revert panels. induction elements as [|p elements IH]; intros panels;
    cbn [mapPanels].
  - intros [= <-]. constructor.
  - destruct (panelOf p) as [r|] eqn:Hr; [|discriminate].
    destruct (mapPanels elements) as [rs|]; [|discriminate].
    intros [= <-]. constructor; [|now apply IH].
    split; [now apply (panelOf_not_null p r)|exact Hr].
Qed.

(** Strings are joined as they are. *)
Lemma traverse_strings (l : list JsVal) (names : list jsstr) :
  allStrings l = Some names -> traverse elementToString l = Some names.
Proof.
  revert names. induction l as [|v l IH]; intros names; cbn [allStrings traverse].
  - now intros [= <-].
  - destruct v; cbn [asString]; try discriminate.
    destruct (allStrings l) as [ss|]; [|discriminate].
    intros [= <-]. cbn [elementToString]. now rewrite (IH ss eq_refl).
Qed.

Lemma join_cons (sep first : jsstr) (others : list jsstr) :
  join sep (first :: others) = first ++ concat (map (fun n => sep ++ n) others).
Proof.
  revert first. induction others as [|n others IH]; intros first.
  - cbn. now rewrite app_nil_r.
  - change (join sep (first :: n :: others))
      with (first ++ sep ++ join sep (n :: others)).
    rewrite IH. cbn [map concat]. now rewrite <- !app_assoc.
Qed.

Lemma join_ampersandSeparated (names : list jsstr) :
  join (js "&") names = ampersandSeparated names.
Proof. destruct names as [|first others]; [reflexivity|apply join_cons]. Qed.

Lemma joinValues_strings (l : list JsVal) (names : list jsstr) :
  allStrings l = Some names ->
  joinValues (js "&") l = Some (ampersandSeparated names).
Proof.
  intros H. unfold joinValues. rewrite (traverse_strings l names H).
  cbn [option_map]. now rewrite join_ampersandSeparated.
Qed.

(** A printable value is printed. *)
Lemma elementToString_printable :
  forall v, printable v = true -> exists s, elementToString v = Some s.
Proof.
  fix IH 1. intros [| [|] | n | s | elements | fields];
    cbn [printable elementToString]; eauto.
  - intros H.
    assert (Hall : exists ss, traverse elementToString elements = Some ss).
    { induction elements as [|e rest IHrest]; cbn [traverse]; [eauto|].
      cbn [forallb] in H. apply andb_true_iff in H. destruct H as [He Hrest].
      destruct (IH e He) as [s ->]. destruct (IHrest Hrest) as [ss ->]. eauto. }
    destruct Hall as [ss ->]. cbn [option_map]. eauto.
  - destruct (lookup fields (js "toString")); cbn [isPresent negb];
      [discriminate|eauto].
Qed.

(** A value that is not printable raises. *)
Lemma elementToString_unprintable :
  forall v, printable v = false -> elementToString v = None.
Proof.
  fix IH 1. intros [| [|] | n | s | elements | fields];
    cbn [printable elementToString]; try discriminate.
  - intros H.
    assert (Hall : traverse elementToString elements = None).
    { induction elements as [|e rest IHrest]; cbn [forallb] in H;
        [discriminate|]. cbn [traverse].
      destruct (printable e) eqn:He.
      - cbn [andb] in H. rewrite (IHrest H).
        now destruct (elementToString e).
      - now rewrite (IH e He). }
    now rewrite Hall.
  - destruct (lookup fields (js "toString")); cbn [isPresent negb];
      [reflexivity|discriminate].
Qed.

Lemma joinValues_not_printable (sep : jsstr) (l : list JsVal) :
  forallb printable l = false -> joinValues sep l = None.
Proof.
  intros H. unfold joinValues.
  assert (Hall : traverse elementToString l = None).
  { induction l as [|e rest IH]; cbn [forallb] in H; [discriminate|].
    cbn [traverse]. destruct (printable e) eqn:He.
    - cbn [andb] in H. rewrite (IH H). now destruct (elementToString e).
    - now rewrite (elementToString_unprintable e He). }
  now rewrite Hall.
Qed.

Lemma joinValues_printable (sep : jsstr) (l : list JsVal) :
  forallb printable l = true -> exists s, joinValues sep l = Some s.
Proof.
  intros H. unfold joinValues.
  assert (Hall : exists ss, traverse elementToString l = Some ss).
  { induction l as [|e rest IH]; cbn [traverse]; [eauto|].
    cbn [forallb] in H. apply andb_true_iff in H. destruct H as [He Hrest].
    destruct (elementToString_printable e He) as [s ->].
    destruct (IH Hrest) as [ss ->]. eauto. }
  destruct Hall as [ss ->]. cbn [option_map]. eauto.
Qed.

Lemma recoverDescription_defined (desc dialogue : jsstr) (chars : list JsVal) :
  forallb printable chars = true ->
  exists d, recoverDescription desc dialogue chars = Some d.
Proof.
  intros H. unfold recoverDescription.
  destruct (joinValues_printable (js "&") chars H) as [joined ->].
  destruct (_ || _); [|eauto]. destruct (nonEmpty dialogue); eauto.
Qed.

Lemma panelOf_usable (p : JsVal) : usable p -> exists r, panelOf p = Some r.
Proof.
  intros [Hp Hnames].
  destruct (panelOf_defined p Hp)
    as (va & dt & cs & pid & st & _ & _ & Hcs & _ & _ & ->).
  assert (Hprint : forallb printable (arrayOr [] cs) = true).
  { destruct cs as [[]|]; try reflexivity. cbn [arrayOr].
    now apply Hnames. }
  destruct (recoverDescription_defined (stringOr [] va) (stringOr [] dt)
              _ Hprint) as [d ->].
  cbn [option_map]. eauto.
Qed.

Lemma mapPanels_defined (elements : list JsVal) :
  Forall usable elements -> exists panels, mapPanels elements = Some panels.
Proof.
  induction 1 as [|p elements Hp _ (panels & E)]; cbn [mapPanels].
  - now exists [].
  - destruct (panelOf_usable p Hp) as [r ->]. rewrite E. eauto.
Qed.

Lemma stringField_stringOr (p : JsVal) (key : jsstr) (v : Property)
      (fallback : jsstr) :
  member p key = Some v ->
  stringOr fallback v
  = match stringField p key with Some s => s | None => fallback end.
Proof.
  intros E. unfold stringField. rewrite E. now destruct v as [[]|].
Qed.

Lemma recoverDescription_unusable (desc dialogue : jsstr) (chars : list JsVal) :
  desc = [] \/ desc = NO_DESCRIPTION ->
  recoverDescription desc dialogue chars =
  if nonEmpty dialogue then
    option_map
      (fun joined => spokenLine (orString (Some joined) (js "Character")) dialogue)
      (joinValues (js "&") chars)
  else Some establishingShot.
Proof.
  intros [-> | ->]; unfold recoverDescription, establishingShot, spokenLine,
    substring0.
  - now destruct (joinValues _ _).
  - rewrite str_eqb_refl, orb_true_r. now destruct (joinValues _ _).
Qed.

Lemma orString_cases (s fallback : jsstr) :
  orString (Some s) fallback = match s with [] => fallback | _ => s end.
Proof. now destruct s. Qed.

(** The names of an element as the code joins them, seen as the names it
    lists. *)
Lemma joinValues_listed (p : JsVal) (cs : Property) (names : list jsstr)
      (joined : jsstr) :
  member p (js "characters_in_shot") = Some cs ->
  listedNames p names ->
  joinValues (js "&") (arrayOr [] cs) = Some joined ->
  orString (Some joined) (js "Character") = speakers names.
Proof.
  unfold listedNames. intros -> Hnames Hjoin. rewrite orString_cases.
  unfold speakers.
  assert (E : joined = ampersandSeparated names).
  { destruct cs as [v|].
    - destruct v; cbn [arrayOr] in Hjoin; subst;
        try (apply some_eq in Hjoin; now rewrite <- Hjoin).
      rewrite (joinValues_strings _ _ Hnames) in Hjoin. now apply some_eq in Hjoin.
    - subst names. apply some_eq in Hjoin. now rewrite <- Hjoin. }
  rewrite E. now destruct (ampersandSeparated names).
Qed.

Lemma spokenLine_quotes (who d : jsstr) :
  includes (spokenLine who d) (firstn 15 d) = true.
Proof.
  apply includes_infix.
  exists (who ++ js " saying: " ++ DQUOTE),
    (js "..." ++ DQUOTE ++ js ". Cinematic lighting, detailed expression.").
  unfold spokenLine. now rewrite <- !app_assoc.
Qed.

Lemma panelOf_recovered (p : JsVal) (r : ReturnedPanel) :
  p <> JNull -> panelOf p = Some r -> recovered p r.
Proof.
  intros Hp Hr.
  destruct (panelOf_defined p Hp)
    as (va & dt & cs & pid & st & Hva & Hdt & Hcs & Hpid & Hst & E).
  rewrite E in Hr.
  destruct (recoverDescription _ _ _) as [desc|] eqn:Hdesc; [|discriminate].
  cbn [option_map] in Hr. apply some_eq in Hr. subst r.
  unfold recovered. cbn [ScriptPanel.description ScriptPanel.panelNumber].
  split.
  - intros Hbad.
    assert (Hva' : stringOr [] va = [] \/ stringOr [] va = NO_DESCRIPTION).
    { rewrite (stringField_stringOr p _ va [] Hva).
      destruct Hbad as [-> | [-> | ->]]; auto. }
    rewrite (recoverDescription_unusable _ _ _ Hva') in Hdesc.
    rewrite (stringField_stringOr p _ dt [] Hdt) in Hdesc.
    split.
    + intros d Hd Hne. rewrite Hd in Hdesc.
      rewrite (proj2 (nonEmpty_true d) Hne) in Hdesc.
      destruct (joinValues (js "&") (arrayOr [] cs)) as [joined|] eqn:Hjoin;
        [|discriminate].
      cbn [option_map] in Hdesc. apply some_eq in Hdesc. subst desc.
      split; [eauto|]. split; [|apply spokenLine_quotes].
      intros names Hnames.
      now rewrite (joinValues_listed p cs names joined Hcs Hnames Hjoin).
    + intros [Hd | Hd]; rewrite Hd in Hdesc; cbn in Hdesc;
        now apply some_eq in Hdesc.
  - intros Hnum. destruct pid as [[]|]; try reflexivity.
    now destruct (Hnum n).
Qed.

Lemma panelOf_normalized (p : JsVal) (r : ReturnedPanel) :
  p <> JNull -> panelOf p = Some r -> normalized p r /\ shaped p r.
Proof.
  intros Hp Hr.
  destruct (panelOf_defined p Hp)
    as (va & dt & cs & pid & st & Hva & Hdt & Hcs & Hpid & Hst & E).
  rewrite E in Hr.
  destruct (recoverDescription _ _ _) as [desc|]; [|discriminate].
  cbn [option_map] in Hr. apply some_eq in Hr. subst r.
  unfold normalized, shaped.
  cbn [ScriptPanel.cameraAngle ScriptPanel.dialogue ScriptPanel.charactersPresent].
  rewrite (stringField_stringOr p _ st _ Hst), (stringField_stringOr p _ dt _ Hdt).
  repeat split; try discriminate.
  - now intros ->.
  - now intros ->.
  - intros Harr. rewrite Hcs in Harr. destruct cs as [[]|]; try reflexivity.
    now destruct (Harr elements).
  - intros names. rewrite Hcs. now intros [= ->].
Qed.

(** C5.  For a response whose body parses to an array, the panels that
    [analyzeScript] returns correspond to the elements one to one, in
    order, and each is recovered from its element.  When the visual-action
    text is missing, empty or the sentinel and there is dialogue, the
    description is a line of the form [who saying: "first 15 code units of
    the dialogue...". Cinematic lighting, detailed expression.], which
    therefore contains those code units; for an element that lists strings
    as its characters, [who] is those names separated by [&], or
    "Character" when that is empty.  Without dialogue the description is
    the establishing-shot text.  The panel number is 0 when the element
    carries no numeric [panel_id].  Panels are returned whenever no element
    is [null] and no listed character is, or holds inside nested arrays,
    an object with a [toString] key, which [join] cannot print. *)
Theorem analyzeScript_recovers_panels (scriptText : jsstr)
        (roster : list Character.t) (w w1 : World)
        (response : GenerateContentResponse) (evs : list Event)
        (text : jsstr) (elements : list JsVal) :
  panelsResponse scriptText roster w response w1 evs ->
  response_text response = Some text ->
  JSON_parse text = Some (JArr elements) ->
  (forall panels,
      analyzeScript scriptText roster w = (Resolved panels, w1, evs) ->
      Forall2 recovered elements panels)
  /\ (Forall usable elements ->
      exists panels,
        analyzeScript scriptText roster w = (Resolved panels, w1, evs)).
Proof.
  intros Hresp Ht Hparse.
  rewrite (analyzeScript_run _ _ _ _ _ _ Hresp), Ht.
  pose proof (JSON_parse_nonempty _ _ Hparse) as Hne.
  destruct text as [|c text]; [discriminate|]. rewrite Hparse. cbn [panelsOf].
  split.
  - intros panels Hrun.
    destruct (mapPanels elements) as [rs|] eqn:Hmap; [|discriminate].
    assert (rs = panels) by congruence. subst rs.
    apply mapPanels_some in Hmap. revert Hmap. apply Forall2_impl.
    intros p r [Hp Hr]. now apply panelOf_recovered.
  - intros Hnn. destruct (mapPanels_defined elements Hnn) as (panels & ->).
    now exists panels.
Qed.

(** C10 (as amended).  When the body of the response parses to a value
    that is not an array, [analyzeScript] returns the empty list.  When it
    parses to an array, the panels returned correspond to the elements one
    to one, in order: a [shot_type] that is not a string gives the camera
    angle "Medium Shot", a [dialogue_text] that is not a string the empty
    dialogue, a [characters_in_shot] that is not an array the empty list;
    and in every returned panel the dialogue and the camera angle are set,
    while an array of characters is passed on as the provider sent it.
    Panels are returned whenever no element is [null] and no listed
    character is, or holds inside nested arrays, an object with a
    [toString] key, which [join] cannot print. *)
Theorem analyzeScript_normalizes (scriptText : jsstr)
        (roster : list Character.t) (w w1 : World)
        (response : GenerateContentResponse) (evs : list Event)
        (text : jsstr) (result : JsVal) :
  panelsResponse scriptText roster w response w1 evs ->
  response_text response = Some text ->
  JSON_parse text = Some result ->
  match result with
  | JArr elements =>
    (forall panels,
        analyzeScript scriptText roster w = (Resolved panels, w1, evs) ->
        Forall2 (fun p r => normalized p r /\ shaped p r) elements panels)
    /\ (Forall usable elements ->
        exists panels,
          analyzeScript scriptText roster w = (Resolved panels, w1, evs))
  | _ => analyzeScript scriptText roster w = (Resolved [], w1, evs)
  end.
Proof.
  intros Hresp Ht Hparse.
  rewrite (analyzeScript_run _ _ _ _ _ _ Hresp), Ht.
  pose proof (JSON_parse_nonempty _ _ Hparse) as Hne.
  destruct text as [|c text]; [discriminate|]. rewrite Hparse.
  destruct result as [| | | |elements|]; try reflexivity.
  cbn [panelsOf]. split.
  - intros panels Hrun.
    destruct (mapPanels elements) as [rs|] eqn:Hmap; [|discriminate].
    assert (rs = panels) by congruence. subst rs.
    apply mapPanels_some in Hmap. revert Hmap. apply Forall2_impl.
    intros p r [Hp Hr]. now apply panelOf_normalized.
  - intros Hnn. destruct (mapPanels_defined elements Hnn) as (panels & ->).
    now exists panels.
Qed.

Lemma mapPanels_none (elements : list JsVal) (p : JsVal) :
  In p elements -> panelOf p = None -> mapPanels elements = None.
Proof.
  intros Hin Hp. induction elements as [|q elements IH]; [destruct Hin|].
  cbn [mapPanels]. destruct Hin as [-> | Hin].
  - now rewrite Hp.
  - rewrite (IH Hin). now destruct (panelOf q).
Qed.

Lemma mapPanels_null (before after : list JsVal) :
  mapPanels (before ++ JNull :: after) = None.
Proof.
  induction before as [|p before IH]; cbn [mapPanels app].
  - reflexivity.
  - rewrite IH. now destruct (panelOf p).
Qed.

(** An element that is [null] makes the whole call fail. *)
Lemma analyzeScript_null_element (scriptText : jsstr)
      (roster : list Character.t) (w w1 : World)
      (response : GenerateContentResponse) (evs : list Event)
      (text : jsstr) (before after : list JsVal) :
  panelsResponse scriptText roster w response w1 evs ->
  response_text response = Some text ->
  JSON_parse text = Some (JArr (before ++ JNull :: after)) ->
  analyzeScript scriptText roster w = (Rejected invalidJson, w1, evs).
Proof.
  intros Hresp Ht Hparse.
  rewrite (analyzeScript_run _ _ _ _ _ _ Hresp), Ht.
  pose proof (JSON_parse_nonempty _ _ Hparse) as Hne.
  destruct text as [|c text]; [discriminate|]. rewrite Hparse. cbn [panelsOf].
  now rewrite mapPanels_null.
Qed.

End Extraction.

(* ================================================================== *)
(** * Tiered image generation *)
(* ================================================================== *)

Section Images.

Context {platform : Platform}.

Lemma find_none_forall {A} (f : A -> bool) (l : list A) :
  Forall (fun a => f a = false) l -> find f l = None.
Proof. induction 1 as [|a l Ha _ IH]; cbn; [reflexivity|now rewrite Ha]. Qed.

Lemma find_first {A} (f : A -> bool) (before after : list A) (a : A) :
  Forall (fun b => f b = false) before -> f a = true ->
  find f (before ++ a :: after) = Some a.
Proof.
  induction 1 as [|b before Hb _ IH]; intros Ha; cbn; [now rewrite Ha|].
  rewrite Hb. now apply IH.
Qed.

Lemma truthyString_false (s : option jsstr) :
  truthyString s = false <-> s = None \/ s = Some [].
Proof.
  destruct s as [[|c s]|]; cbn; split; auto; try discriminate.
  intros [|]; discriminate.
Qed.

Lemma not_textPart (p : Part) :
  ~ isTextPart p -> truthyString (text p) = false.
Proof.
  intros Hn. apply truthyString_false.
  destruct (text p) as [[|c t]|] eqn:E; auto.
  destruct Hn. exists (c :: t). split; [exact E|discriminate].
Qed.

(** What [inspectParts] makes of a response without an inline image. *)
Lemma inspectParts_diagnostic (response : GenerateContentResponse) (e : JsError) :
  noInlineImage response -> tier1Diagnostic response e ->
  inspectParts response = inr e.
Proof.
  unfold noInlineImage, tier1Diagnostic, firstTextPart, noTextPart, inspectParts.
  fold (partsOf response). intros Hno Hdiag.
  rewrite (find_none_forall _ (partsOf response)).
  2:{ revert Hno. apply Forall_impl. now intros p ->. }
  cbn [option_bind].
  destruct Hdiag as [(t & (before & p & after & -> & Hbefore & Ht & Hne) & ->)
                    |[Hnone ->]].
  - rewrite (find_first _ before after p).
    + cbn [option_bind]. rewrite Ht. now destruct t.
    + revert Hbefore. apply Forall_impl. apply not_textPart.
    + rewrite Ht. now destruct t.
  - rewrite (find_none_forall _ (partsOf response)); [reflexivity|].
    revert Hnone. apply Forall_impl. apply not_textPart.
Qed.

Lemma tryCatch_resolved {A} (c : M A) (h : JsError -> M A) (w w1 : World)
      (a : A) (evs : list Event) :
  c w = (Resolved a, w1, evs) -> tryCatch c h w = (Resolved a, w1, evs).
Proof. intros E. unfold tryCatch. now rewrite E. Qed.

Lemma tier1_run (ai : GoogleGenAI) (prompt : jsstr) (ar : AspectRatio)
      (w w1 : World) (response : GenerateContentResponse) (evs : list Event) :
  withRetry (generateContent ai (tier1Request prompt ar))
    retriesForImages delayDefault w = (Resolved response, w1, evs) ->
  tier1 ai prompt ar w = (Resolved (inspectParts response), w1, evs).
Proof.
  intros Hrun. unfold tier1. apply tryCatch_resolved.
  rewrite (bind_resolved _ _ _ _ _ _ Hrun). cbn. now rewrite app_nil_r.
Qed.

Lemma tier2_run (ai : GoogleGenAI) (prompt : jsstr) (ar : AspectRatio)
      (w : World) :
  tier2 ai prompt ar w =
  match withRetry (generateImages ai (tier2Request prompt ar))
          retriesForImages delayDefault w with
  | (Resolved r2, w2, evs2) =>
    match firstImageBytes r2 with
    | Some (c :: b) =>
      (Resolved (Some (js "data:image/jpeg;base64," ++ c :: b)), w2, evs2)
    | _ => (Resolved None, w2, evs2)
    end
  | (Rejected _, w2, evs2) => (Resolved None, w2, evs2)
  end.
Proof.
  unfold tier2, tryCatch, bind.
  destruct (withRetry _ _ _ w) as [[[r2|e2] w2] evs2]; cbn.
  - destruct (firstImageBytes r2) as [[|c b]|]; cbn; now rewrite !app_nil_r.
  - now rewrite app_nil_r.
Qed.

(** The invoker starts by sending the request it was given. *)
Lemma withRetry_generateImages_first (ai : GoogleGenAI)
      (params : ImagesParameters.t) (retries : nat) (delay : Z) (w : World) :
  exists rest,
    snd (withRetry (generateImages ai params) retries delay w)
    = Attempt :: Request (GenerateImages (apiKey ai) params) :: rest.
Proof.
  rewrite withRetry_unfold. unfold generateImages.
  destruct (serveImages (apiKey ai) params (provider w)) as [[r2|e2] p].
  - now exists [].
  - destruct retries as [|n]; [now exists []|].
    destruct (isTransient e2); [|now exists []].
    destruct (withRetry _ n (delay * 2) (withProvider w p)) as [[r w'] evs].
    cbn. eauto.
Qed.

(** What Tier 1 hands on when it yields no image, and what is raised for
    it in the end. *)
Lemma tier1_leaves (ai : GoogleGenAI) (prompt : jsstr) (ar : AspectRatio)
      (w w1 : World) (first : Outcome GenerateContentResponse)
      (evs1 : list Event) (failure : JsError) :
  withRetry (generateContent ai (tier1Request prompt ar))
    retriesForImages delayDefault w = (first, w1, evs1) ->
  leavesNoImage first -> keptFailure first failure ->
  exists lastError,
    tier1 ai prompt ar w = (Resolved (inr lastError), w1, evs1)
    /\ failure = if to_boolean lastError then lastError else generationFailed.
Proof.
  intros Hrun Hno Hkept. destruct first as [response|e1];
    cbn [leavesNoImage keptFailure] in *.
  - exists failure. split.
    + rewrite (tier1_run _ _ _ _ _ _ _ Hrun).
      now rewrite (inspectParts_diagnostic _ _ Hno Hkept).
    + now destruct Hkept as [(t & _ & ->)|[_ ->]].
  - exists e1. split; [|exact Hkept].
    unfold tier1, tryCatch, bind. rewrite Hrun. cbn. now rewrite app_nil_r.
Qed.

(** C3 (as amended).  When Tier 1 yields no image, [generateImage] goes on
    to Tier 2: it sends the dedicated image model a request for one JPEG
    image at the given aspect ratio.  This is so when the response of
    Tier 1 holds no inline image, whether it holds a text part (a refusal)
    or nothing at all, and also when the call of Tier 1 is rejected.  If
    Tier 2 returns image bytes the result is their JPEG data URI and
    nothing is raised.  If Tier 2 yields no image, whatever it failed
    with, [generateImage] fails with what Tier 1 left: the diagnostic of
    its response (the refusal quoting the first 100 code units of the
    text, or the empty-response message), or the value its call was
    rejected with, or, when that value is falsy, the fixed error "Image
    generation failed. Please check your API Key.".  The failure of Tier 2
    is never the one raised. *)
Theorem generateImage_fallback (prompt : jsstr) (ar : AspectRatio)
        (w w1 : World) (ai : GoogleGenAI)
        (first : Outcome GenerateContentResponse) (evs1 : list Event)
        (failure : JsError) :
  getAI w = (Resolved ai, w, []) ->
  withRetry (generateContent ai (tier1Request prompt ar))
    retriesForImages delayDefault w = (first, w1, evs1) ->
  leavesNoImage first ->
  keptFailure first failure ->
  let request :=
    ImagesParameters.make (js "imagen-3.0-generate-001") prompt 1 ar
      (js "image/jpeg") in
  let second := withRetry (generateImages ai request)
                  retriesForImages delayDefault w1 in
  (exists rest,
      snd (generateImage prompt ar w)
      = evs1 ++ Attempt :: Request (GenerateImages (apiKey ai) request) :: rest)
  /\ (forall r2 w2 evs2 b,
        second = (Resolved r2, w2, evs2) ->
        firstImageBytes r2 = Some b -> b <> [] ->
        generateImage prompt ar w
        = (Resolved (js "data:image/jpeg;base64," ++ b), w2, evs1 ++ evs2))
  /\ (yieldsNoImage second ->
      generateImage prompt ar w
      = (Rejected failure, snd (fst second), evs1 ++ snd second)).
Proof.
  intros Hai Hrun Hno Hkept request second.
  destruct (tier1_leaves _ _ _ _ _ _ _ _ Hrun Hno Hkept)
    as (lastError & H1 & Hfailure).
  assert (Hgen : generateImage prompt ar w =
                 match tier2 ai prompt ar w1 with
                 | (Resolved (Some uri), w2, evs2) => (Resolved uri, w2, evs1 ++ evs2)
                 | (Resolved None, w2, evs2) => (Rejected failure, w2, evs1 ++ evs2)
                 | (Rejected e, w2, evs2) => (Rejected e, w2, evs1 ++ evs2)
                 end).
  { unfold generateImage. rewrite (bind_after_getAI _ w ai Hai).
    rewrite (bind_resolved _ _ _ _ _ _ H1). rewrite Hfailure.
    unfold bind. destruct (tier2 ai prompt ar w1) as [[[[uri|]|e] w2] evs2];
      cbn; rewrite ?app_nil_r; try reflexivity.
    destruct (to_boolean lastError); cbn; now rewrite ?app_nil_r. }
  rewrite Hgen, tier2_run. change (tier2Request prompt ar) with request.
  fold second.
  destruct (withRetry_generateImages_first ai request retriesForImages
              delayDefault w1) as [rest Hrest].
  fold second in Hrest. clearbody second. clear Hgen.
  split; [|split].
  - exists rest.
    destruct second as [[[r2|e2] w2] evs2]; cbn [snd] in *.
    + rewrite Hrest. now destruct (firstImageBytes r2) as [[|c b]|].
    + now rewrite Hrest.
  - intros r2 w2 evs2 b -> Hb Hne. rewrite Hb.
    destruct b as [|c b]; [congruence|reflexivity].
  - unfold yieldsNoImage. destruct second as [[[r2|e2] w2] evs2]; cbn [fst snd].
    + now intros [-> | ->].
    + reflexivity.
Qed.

End Images.

(* ================================================================== *)
(** * The invoker at its call sites *)
(* ================================================================== *)

Section CallSites.

Context {platform : Platform}.

(** A general call that keeps failing transiently is tried four times,
    after waits of 2, 4 and 8 seconds. *)
Lemma extractWorldInfo_backoff (scriptText : jsstr) (w : World)
      (ai : GoogleGenAI) :
  getAI w = (Resolved ai, w, []) ->
  failsTransiently (generateContent ai (worldInfoRequest scriptText)) 4
    (provider w) ->
  attempts (snd (extractWorldInfo scriptText w)) = 4%nat
  /\ delays (snd (extractWorldInfo scriptText w)) = [2000; 4000; 8000].
Proof.
  intros Hai Hfail. unfold extractWorldInfo.
  rewrite (bind_after_getAI _ w ai Hai).
  destruct (withRetry_exhausted _ retriesDefault delayDefault w Hfail)
    as (e & w' & _ & Hres & Htl).
  unfold bind.
  destruct (withRetry (generateContent ai (worldInfoRequest scriptText))
              retriesDefault delayDefault w) as [[r w1] evs].
  cbn [fst snd] in *. injection Hres as -> ->. cbn [snd].
  rewrite <- attempts_timeline, <- delays_timeline, Htl. split; reflexivity.
Qed.

(** An image call that keeps failing transiently is tried three times,
    after waits of 2 and 4 seconds, before Tier 2 takes over. *)
Lemma tier1_backoff (prompt : jsstr) (ar : AspectRatio) (w : World)
      (ai : GoogleGenAI) :
  failsTransiently (generateContent ai (tier1Request prompt ar)) 3
    (provider w) ->
  attempts (snd (tier1 ai prompt ar w)) = 3%nat
  /\ delays (snd (tier1 ai prompt ar w)) = [2000; 4000].
Proof.
  intros Hfail. unfold tier1, tryCatch, bind.
  destruct (withRetry_exhausted _ retriesForImages delayDefault w Hfail)
    as (e & w' & _ & Hres & Htl).
  destruct (withRetry (generateContent ai (tier1Request prompt ar))
              retriesForImages delayDefault w) as [[r w1] evs].
  cbn [fst snd] in *. injection Hres as -> ->. cbn [snd ret].
  rewrite app_nil_r, <- attempts_timeline, <- delays_timeline, Htl.
  split; reflexivity.
Qed.

(** The blob registered by [pcmBase64ToWavUrl] is the canonical container
    of the decoded payload. *)
Lemma pcmBase64ToWavUrl_registers (base64Pcm binaryString : jsstr) (w : World) :
  atob base64Pcm = Resolved binaryString ->
  Z.of_nat (length binaryString) + 36 < 2 ^ 32 ->
  exists wav,
    pcmBase64ToWavUrl base64Pcm w
    = (Resolved (objectURL (length (objectURLs w))),
       {| localStorage_gemini_api_key := localStorage_gemini_api_key w;
          process_env_API_KEY := process_env_API_KEY w;
          provider := provider w;
          objectURLs :=
            objectURLs w ++ [{| blobParts := wav; type := js "audio/wav" |}] |},
       [])
    /\ canonicalContainer (map (fun c => ToUint8 (Z.of_N c)) binaryString) wav.
Proof.
  intros Hatob Hlen. unfold pcmBase64ToWavUrl. rewrite Hatob.
  rewrite createWavHeader_closed. eexists. split; [reflexivity|].
  destruct (createWavHeader_fields (map (fun c => ToUint8 (Z.of_N c)) binaryString))
    as (wav & Hwav & Hc).
  - now rewrite length_map.
  - rewrite createWavHeader_closed in Hwav. apply some_eq in Hwav. now subst wav.
Qed.

End CallSites.

(* ================================================================== *)
(** * Concrete runs of the invoker *)
(* ================================================================== *)

Lemma withRetry_exponential_backoff_witness :
  let fn := @generateContent (scripted []) client (speechRequest (js "hi") (js "Kore")) in
  let w := world [] (Some storedKey) None
             [ContentReply (Rejected overloaded);
              ContentReply (Rejected connectionLost);
              ContentReply (Rejected overloaded)] in
  failsTransiently fn 3 (provider w)
  /\ (attempts (snd (withRetry fn 2 2000 w)) <= 2 + 1)%nat
  /\ timeline (snd (withRetry fn 2 2000 w)) = backoffSchedule 2 2000
  /\ waitBefore 1 None (snd (withRetry fn 2 2000 w)) = Some 2000
  /\ waitBefore 2 None (snd (withRetry fn 2 2000 w)) = Some 4000.
Proof.
  intros fn w.
  assert (Hfail : failsTransiently fn 3 (provider w))
    by (vm_compute; repeat split).
  destruct (withRetry_exponential_backoff fn 2 2000 w Hfail)
    as (Hle & Htl & Hwait & _).
  repeat match goal with |- _ /\ _ => split end;
    first [assumption | apply Hwait; lia].
Defined.

Lemma withRetry_propagates_unaltered_witness :
  let fn := @generateContent (scripted []) client (speechRequest (js "hi") (js "Kore")) in
  let w := world [] (Some storedKey) None [ContentReply (Rejected badRequest)] in
  let w' := world [] (Some storedKey) None
              [ContentReply (Rejected overloaded);
               ContentReply (Rejected connectionLost)] in
  fn (provider w)
  = (Rejected badRequest, [], [GenerateContent storedKey (speechRequest (js "hi") (js "Kore"))])
  /\ notTransient badRequest
  /\ attempts (snd (withRetry fn 3 2000 w)) = 1%nat
  /\ fst (fst (withRetry fn 3 2000 w)) = Rejected badRequest
  /\ failsTransiently fn 2 (provider w')
  /\ fst (fst (withRetry fn 1 2000 w')) = Rejected connectionLost.
Proof.
  intros fn w w'.
  assert (Hfn : fn (provider w)
                = (Rejected badRequest, [],
                   [GenerateContent storedKey (speechRequest (js "hi") (js "Kore"))]))
    by reflexivity.
  assert (Hnt : notTransient badRequest)
    by (apply isTransient_false_iff; reflexivity).
  assert (Hfail : failsTransiently fn 2 (provider w'))
    by (vm_compute; repeat split).
  destruct (withRetry_propagates_unaltered fn 3 2000 w _ _ _ Hfn) as [Hone _].
  destruct (Hone Hnt) as (Hrun & Hatt & _).
  destruct (withRetry_propagates_unaltered fn 1 2000 w' overloaded
              [ContentReply (Rejected connectionLost)]
              [GenerateContent storedKey (speechRequest (js "hi") (js "Kore"))]
              eq_refl) as [_ Hlast].
  destruct (Hlast Hfail) as (last & wl & Hl & Hr).
  split; [exact Hfn|]. split; [exact Hnt|]. split; [exact Hatt|].
  split; [now rewrite Hrun|]. split; [exact Hfail|].
  rewrite Hr. cbn [fst]. f_equal.
  assert (Hl' : failureOfAttempt fn 1 (provider w') = Some connectionLost)
    by reflexivity.
  congruence.
Defined.

(* ================================================================== *)
(** * Concrete runs of the analyses *)
(* ================================================================== *)

Lemma scripted_panelsResponse (text : jsstr) :
  @panelsResponse (scripted parses) scriptLine []
    (world parses (Some storedKey) None [ContentReply (Resolved (bodyOnly text))])
    (bodyOnly text)
    (world parses (Some storedKey) None [])
    [Attempt; Request (GenerateContent storedKey (panelsRequest scriptLine []))].
Proof. exists client. split; vm_compute; reflexivity. Qed.

Lemma scripted_worldInfoResponse (text : jsstr) :
  @worldInfoResponse (scripted parses) scriptLine
    (world parses (Some storedKey) None [ContentReply (Resolved (bodyOnly text))])
    (bodyOnly text)
    (world parses (Some storedKey) None [])
    [Attempt; Request (GenerateContent storedKey (worldInfoRequest scriptLine))].
Proof. exists client. split; vm_compute; reflexivity. Qed.

Lemma scripted_parse_numericNames :
  @JSON_parse (scripted parses) numericNamesBody = Some numericNamesValue.
Proof. vm_compute. reflexivity. Qed.

(** C10 as stated fails: a panel whose [characters_in_shot] is the array
    [[42]] is returned with that array as its [charactersPresent], which is
    no list of strings. *)
Lemma analyzeScript_passes_numbers_on : ~ returnsDeclaredPanels.
Proof.
  intros H.
  destruct (H (scripted parses) scriptLine [] _ _ _ _ numericNamesBody
              [JObj [(js "characters_in_shot", JArr [JNum 42])]]
              [ScriptPanel.make 0 establishingShot [JNum 42] (Some [])
                 (Some (js "Medium Shot"))]
              (scripted_panelsResponse numericNamesBody) eq_refl
              scripted_parse_numericNames)
    as [_ Hshape].
  - vm_compute. reflexivity.
  - inversion Hshape as [|r rs Hr _]. now apply Hr.
Qed.

Lemma scripted_parse_greeting :
  @JSON_parse (scripted parses) greetingBody = Some greetingValue.
Proof. vm_compute. reflexivity. Qed.

Lemma scripted_parse_title :
  @JSON_parse (scripted parses) titleBody = Some titleValue.
Proof. vm_compute. reflexivity. Qed.

Lemma Forall2_singleton {A B} (R : A -> B -> Prop) (a : A) (l : list B) :
  Forall2 R [a] l -> exists b, l = [b] /\ R a b.
Proof.
  intros H. inversion H as [|a' b l1 l2 Hab Hrest]; subst.
  inversion Hrest; subst. now exists b.
Qed.

(** Closed elements are shown usable by evaluation. *)
Ltac usable_elements :=
  repeat (constructor;
          [split; [discriminate|];
           let l := fresh "l" in
           let H := fresh "H" in
           intros l H; vm_compute in H;
           try discriminate H;
           apply some_eq in H; apply some_eq in H;
           injection H as <-; vm_compute; reflexivity|]);
  try constructor.

Lemma scripted_parse_reunion :
  @JSON_parse (scripted parses) reunionBody = Some (JArr reunionElements).
Proof. vm_compute. reflexivity. Qed.

Lemma scripted_parse_masked :
  @JSON_parse (scripted parses) maskedBody = Some (JArr maskedElements).
Proof. vm_compute. reflexivity. Qed.

Lemma analyzeScript_recovers_panels_witness :
  let w := world parses (Some storedKey) None
             [ContentReply (Resolved (bodyOnly reunionBody))] in
  let w1 := world parses (Some storedKey) None [] in
  let evs := [Attempt;
              Request (GenerateContent storedKey (panelsRequest scriptLine []))] in
  @panelsResponse (scripted parses) scriptLine [] w (bodyOnly reunionBody) w1 evs
  /\ response_text (bodyOnly reunionBody) = Some reunionBody
  /\ @JSON_parse (scripted parses) reunionBody = Some (JArr reunionElements)
  /\ Forall usable reunionElements
  /\ exists panels,
       @analyzeScript (scripted parses) scriptLine [] w = (Resolved panels, w1, evs)
       /\ Forall2 recovered reunionElements panels
       /\ map ScriptPanel.description panels
          = [js "小明&小红 saying: " ++ DQUOTE ++ js "好久不见，你这些年都去了哪里？"
             ++ js "..." ++ DQUOTE
             ++ js ". Cinematic lighting, detailed expression."]
       /\ map ScriptPanel.panelNumber panels = [integer 0].
Proof.
  intros w w1 evs.
  assert (Hok : Forall usable reunionElements)
    by (unfold reunionElements; usable_elements).
  split; [apply scripted_panelsResponse|].
  split; [reflexivity|]. split; [apply scripted_parse_reunion|].
  split; [exact Hok|].
  destruct (analyzeScript_recovers_panels scriptLine [] w w1
              (bodyOnly reunionBody) evs reunionBody reunionElements
              (scripted_panelsResponse reunionBody) eq_refl
              scripted_parse_reunion) as [Hall Hsome].
  destruct (Hsome Hok) as [panels Hrun].
  exists panels. split; [exact Hrun|]. pose proof (Hall panels Hrun) as Hrec.
  split; [exact Hrec|].
  destruct (Forall2_singleton _ _ _ Hrec) as (r & -> & Hdesc & Hnum).
  cbn [map]. split.
  - assert (Hbad : unusableDescription
                     (JObj [(js "characters_in_shot",
                             JArr [JStr (js "小明"); JStr (js "小红")]);
                            (js "dialogue_text", JStr reunion)]))
      by (left; vm_compute; reflexivity).
    destruct (Hdesc Hbad) as [Hspoken _].
    destruct (Hspoken reunion) as (_ & Hnames & _);
      [vm_compute; reflexivity|discriminate|].
    rewrite (Hnames [js "小明"; js "小红"]); vm_compute; reflexivity.
  - rewrite Hnum; [reflexivity|].
    intros n H. vm_compute in H. discriminate H.
Defined.

(** The panel returned for the greeting: its description quotes the whole
    dialogue, which is shorter than 15 code units. *)
Example analyzeScript_greeting :
  fst (fst (@analyzeScript (scripted parses) scriptLine []
              (world parses (Some storedKey) None
                 [ContentReply (Resolved (bodyOnly greetingBody))])))
  = Resolved
      [ScriptPanel.make 0
         (js "Character saying: " ++ DQUOTE ++ greeting ++ js "..." ++ DQUOTE
          ++ js ". Cinematic lighting, detailed expression.")
         [] (Some greeting) (Some (js "Medium Shot"))].
Proof. vm_compute. reflexivity. Qed.

(** [join] on mixed elements: [null] prints as nothing, a nested array
    with commas, an object without a [toString] key by the inherited
    method; an object with such a key, however deep, stops the join. *)
Example joinValues_mixed :
  @joinValues (scripted []) (js "&")
    [JStr (js "Mia"); JNull; JArr [JStr (js "Bob"); JBool true; JNull];
     JNum 42; JObj [(js "name", JStr (js "Al"))]]
  = Some (js "Mia&&Bob,true,&42&[object Object]")
  /\ @joinValues (scripted []) (js "&")
       [JStr (js "Mia"); JArr [JObj [(js "toString", JNull)]]]
     = None.
Proof. split; vm_compute; reflexivity. Qed.

(** A listed character that [join] cannot print makes the whole call fail,
    the TypeError being caught with the parse errors. *)
Example analyzeScript_masked :
  fst (fst (@analyzeScript (scripted parses) scriptLine []
              (world parses (Some storedKey) None
                 [ContentReply (Resolved (bodyOnly maskedBody))])))
  = Rejected invalidJson.
Proof. vm_compute. reflexivity. Qed.

Lemma analyzeScript_normalizes_witness :
  let w := world parses (Some storedKey) None
             [ContentReply (Resolved (bodyOnly numericNamesBody))] in
  let w1 := world parses (Some storedKey) None [] in
  let evs := [Attempt;
              Request (GenerateContent storedKey (panelsRequest scriptLine []))] in
  let elements := [JObj [(js "characters_in_shot", JArr [JNum 42])]] in
  @panelsResponse (scripted parses) scriptLine [] w (bodyOnly numericNamesBody) w1 evs
  /\ response_text (bodyOnly numericNamesBody) = Some numericNamesBody
  /\ @JSON_parse (scripted parses) numericNamesBody = Some (JArr elements)
  /\ Forall usable elements
  /\ exists panels,
       @analyzeScript (scripted parses) scriptLine [] w = (Resolved panels, w1, evs)
       /\ Forall2 (fun p r => normalized p r /\ shaped p r) elements panels.
Proof.
  intros w w1 evs elements.
  assert (Hok : Forall usable elements)
    by (unfold elements; usable_elements).
  split; [apply scripted_panelsResponse|].
  split; [reflexivity|]. split; [apply scripted_parse_numericNames|].
  split; [exact Hok|].
  destruct (analyzeScript_normalizes scriptLine [] w w1
              (bodyOnly numericNamesBody) evs numericNamesBody (JArr elements)
              (scripted_panelsResponse numericNamesBody) eq_refl
              scripted_parse_numericNames) as [Hall Hsome].
  destruct (Hsome Hok) as [panels Hrun].
  exists panels. split; [exact Hrun|exact (Hall panels Hrun)].
Defined.

Lemma extractWorldInfo_contract_witness :
  let w := world parses (Some storedKey) None
             [ContentReply (Resolved (bodyOnly titleBody))] in
  let w1 := world parses (Some storedKey) None [] in
  let evs := [Attempt;
              Request (GenerateContent storedKey (worldInfoRequest scriptLine))] in
  @worldInfoResponse (scripted parses) scriptLine w (bodyOnly titleBody) w1 evs
  /\ (exists info,
        @extractWorldInfo (scripted parses) scriptLine w = (Resolved info, w1, evs)
        /\ characters info = JArr [])
  /\ (exists info,
        @extractWorldInfo (scripted parses) scriptLine w = (Resolved info, w1, evs)
        /\ scenes info = JArr []).
Proof.
  intros w w1 evs.
  split; [apply scripted_worldInfoResponse|].
  destruct (extractWorldInfo_contract scriptLine w w1 (bodyOnly titleBody) evs
              (scripted_worldInfoResponse titleBody)) as (_ & _ & Hok).
  destruct (Hok titleBody titleValue eq_refl scripted_parse_title) as [Hc Hs].
  split; [apply Hc|apply Hs]; reflexivity.
Defined.

Lemma credential_resolution_witness :
  let op := GenerateSpeech (js "hi") voiceNameDefault in
  let stored := world [] (Some storedKey) (Some builtInKey)
                  [ContentReply (Rejected badRequest)] in
  let fallback := world [] None (Some builtInKey)
                    [ContentReply (Rejected badRequest)] in
  let none := world [] (Some []) None [ContentReply (Rejected badRequest)] in
  allRequestsCarry storedKey (snd (@perform (scripted []) op stored))
  /\ allRequestsCarry builtInKey (snd (@perform (scripted []) op fallback))
  /\ @perform (scripted []) op none = (Rejected credentialMissing, none, []).
Proof.
  intros op stored fallback none.
  destruct (credential_resolution op stored) as (Hstored & _ & _).
  destruct (credential_resolution op fallback) as (_ & Hfallback & _).
  destruct (credential_resolution op none) as (_ & _ & Hnone).
  split; [|split].
  - apply Hstored. split; [reflexivity|discriminate].
  - apply Hfallback; [now left|]. split; [reflexivity|discriminate].
  - apply Hnone; [now right|now left].
Defined.

(* ================================================================== *)
(** * Concrete prompts *)
(* ================================================================== *)

(** C4 as stated fails: with "Al" before "Alice" in the roster, the panel
    name "Alice" gets Al's visual DNA although Alice matches exactly. *)
Lemma constructPanelPrompt_first_related_wins : ~ resolvesExactMatchFirst.
Proof.
  intros H. specialize (H (panelWith [js "Alice"]) [al; alice] None).
  apply (f_equal (fun prompt => includes prompt (js "tall, silver hair"))) in H.
  vm_compute in H. discriminate H.
Qed.

Lemma constructPanelPrompt_resolution_witness :
  constructPanelPrompt (panelWith [js "AliceSmith"; js "Bob"]) [alice] None
  = promptHead (panelWith [js "AliceSmith"; js "Bob"]) None
    ++ LF ++ js "[CHARACTERS]:"
    ++ (LF ++ js "- (AliceSmith): " ++ Character.visualPrompt alice)
    ++ (LF ++ js "- (Bob): Generic anime character.").
Proof.
  destruct (constructPanelPrompt_resolution
              (panelWith [js "AliceSmith"; js "Bob"]) [alice] None)
    as (Hprompt & _ & Hsome & Hnone & Hex).
  destruct (Hex eq_refl) as [Ha Hb].
  rewrite Hprompt. unfold charactersSection.
  cbn [ScriptPanel.charactersPresent panelWith map concat].
  rewrite (Hsome _ _ Ha), (Hnone _ Hb). now rewrite app_nil_r, <- !app_assoc.
Defined.


(* ================================================================== *)
(** * Concrete runs of image generation *)
(* ================================================================== *)

Lemma scripted_tier1_rejected (e1 : JsError) (script : list Reply) :
  isTransient e1 = false ->
  @withRetry (scripted []) _
    (generateContent client (tier1Request panelPromptText Ratio_16_9))
    retriesForImages delayDefault
    (world [] (Some storedKey) None (ContentReply (Rejected e1) :: script))
  = (Rejected e1, world [] (Some storedKey) None script,
     [Attempt;
      Request (GenerateContent storedKey
                 (tier1Request panelPromptText Ratio_16_9))]).
Proof.
  intros He. rewrite withRetry_unfold.
  cbn [invoke generateContent provider world serveContent scripted map
       retriesForImages apiKey client]. now rewrite He.
Qed.

(** C3 as stated fails: with Tier 1's call rejected (HTTP 400) and Tier 2's
    call rejected for quota (HTTP 429), the failure raised is Tier 1's. *)
Lemma generateImage_keeps_tier1_error : ~ raisesTier2Error.
Proof.
  intros H.
  specialize (H (scripted []) panelPromptText Ratio_16_9
                (world [] (Some storedKey) None
                   [ContentReply (Rejected badRequest);
                    ImagesReply (Rejected quotaExceeded)])
                (world [] (Some storedKey) None
                   [ImagesReply (Rejected quotaExceeded)])
                (world [] (Some storedKey) None [])
                client badRequest quotaExceeded
                [Attempt;
                 Request (GenerateContent storedKey
                            (tier1Request panelPromptText Ratio_16_9))]
                [Attempt;
                 Request (GenerateImages storedKey
                            (tier2Request panelPromptText Ratio_16_9))]
                eq_refl).
  assert (Hraised :
            fst (fst (@generateImage (scripted []) panelPromptText Ratio_16_9
                        (world [] (Some storedKey) None
                           [ContentReply (Rejected badRequest);
                            ImagesReply (Rejected quotaExceeded)])))
            = Rejected badRequest) by (vm_compute; reflexivity).
  rewrite H in Hraised.
  - assert (Hstatus : status quotaExceeded = status badRequest) by congruence.
    discriminate Hstatus.
  - apply scripted_tier1_rejected. vm_compute. reflexivity.
  - vm_compute. reflexivity.
Qed.

Lemma generateImage_fallback_witness :
  let w := world [] (Some storedKey) None
             [ContentReply (Resolved refusalResponse);
              ImagesReply (Resolved jpegResponse)] in
  let w' := world [] (Some storedKey) None
              [ContentReply (Resolved refusalResponse);
               ImagesReply (Rejected badRequest)] in
  let w'' := world [] (Some storedKey) None
               [ContentReply (Rejected badRequest);
                ImagesReply (Rejected quotaExceeded)] in
  let w''' := world [] (Some storedKey) None
                [ContentReply (Rejected emptyString);
                 ImagesReply (Rejected quotaExceeded)] in
  fst (fst (@generateImage (scripted []) panelPromptText Ratio_16_9 w))
  = Resolved (js "data:image/jpeg;base64," ++ js "/9j/4AAQ")
  /\ fst (fst (@generateImage (scripted []) panelPromptText Ratio_16_9 w'))
     = Rejected (newError (js "AI Refusal: " ++ js "I can't draw that."
                           ++ js "..."))
  /\ fst (fst (@generateImage (scripted []) panelPromptText Ratio_16_9 w''))
     = Rejected badRequest
  /\ fst (fst (@generateImage (scripted []) panelPromptText Ratio_16_9 w'''))
     = Rejected (newError
                   (js "Image generation failed. Please check your API Key.")).
Proof.
  intros w w' w'' w'''.
  set (w1 := world [] (Some storedKey) None [ImagesReply (Resolved jpegResponse)]).
  set (w1' := world [] (Some storedKey) None [ImagesReply (Rejected badRequest)]).
  set (w1'' := world [] (Some storedKey) None [ImagesReply (Rejected quotaExceeded)]).
  set (evs1 := [Attempt;
                Request (GenerateContent storedKey
                           (tier1Request panelPromptText Ratio_16_9))]).
  set (diagnostic := newError (js "AI Refusal: " ++ js "I can't draw that."
                               ++ js "...")).
  assert (Hno : leavesNoImage (Resolved refusalResponse)) by (repeat constructor).
  assert (Hdiag : keptFailure (Resolved refusalResponse) diagnostic).
  { left. exists (js "I can't draw that."). split; [|reflexivity].
    exists [], {| inlineData := None; text := Some (js "I can't draw that.") |}, [].
    repeat split; [constructor|discriminate]. }
  assert (Hrun : @withRetry (scripted []) _
                   (generateContent client (tier1Request panelPromptText Ratio_16_9))
                   retriesForImages delayDefault w
                 = (Resolved refusalResponse, w1, evs1))
    by (vm_compute; reflexivity).
  assert (Hrun' : @withRetry (scripted []) _
                    (generateContent client (tier1Request panelPromptText Ratio_16_9))
                    retriesForImages delayDefault w'
                  = (Resolved refusalResponse, w1', evs1))
    by (vm_compute; reflexivity).
  assert (Hrun'' : @withRetry (scripted []) _
                     (generateContent client (tier1Request panelPromptText Ratio_16_9))
                     retriesForImages delayDefault w''
                   = (Rejected badRequest, w1'', evs1))
    by (apply scripted_tier1_rejected; vm_compute; reflexivity).
  assert (Hrun''' : @withRetry (scripted []) _
                      (generateContent client (tier1Request panelPromptText Ratio_16_9))
                      retriesForImages delayDefault w'''
                    = (Rejected emptyString, w1'', evs1))
    by (apply scripted_tier1_rejected; vm_compute; reflexivity).
  destruct (generateImage_fallback panelPromptText Ratio_16_9 w w1 client
              (Resolved refusalResponse) evs1 diagnostic eq_refl Hrun Hno Hdiag)
    as (_ & Himage & _).
  destruct (generateImage_fallback panelPromptText Ratio_16_9 w' w1' client
              (Resolved refusalResponse) evs1 diagnostic eq_refl Hrun' Hno Hdiag)
    as (_ & _ & Hfail).
  destruct (generateImage_fallback panelPromptText Ratio_16_9 w'' w1'' client
              (Rejected badRequest) evs1 badRequest eq_refl Hrun'' I eq_refl)
    as (_ & _ & Hfail'').
  destruct (generateImage_fallback panelPromptText Ratio_16_9 w''' w1'' client
              (Rejected emptyString) evs1 generationFailed eq_refl Hrun''' I
              eq_refl)
    as (_ & _ & Hfail''').
  split; [|split; [|split]].
  - erewrite Himage; [reflexivity|vm_compute; reflexivity|reflexivity|discriminate].
  - rewrite Hfail; [reflexivity|exact I].
  - rewrite Hfail''; [reflexivity|exact I].
  - rewrite Hfail'''; [reflexivity|exact I].
Defined.

(* ================================================================== *)
(** * More on the resilient invoker *)
(* ================================================================== *)

Section InvokerMore.

Context {platform : Platform}.

(** X1.  When the operation fails transiently [k] times, [k] not above the
    retry count, and then succeeds, [withRetry] resolves with the value of
    that success after exactly [k + 1] attempts, having waited [d], [2d],
    ..., [d * 2^(k-1)] in between. *)
Theorem withRetry_recovers {T} (fn : Op T) (N k : nat) (d : Z) (w : World)
        (v : T) :
  (k <= N)%nat ->
  succeedsAfter fn k (provider w) v ->
  fst (fst (withRetry fn N d w)) = Resolved v
  /\ timeline (snd (withRetry fn N d w)) = backoffSchedule k d
  /\ attempts (snd (withRetry fn N d w)) = S k
  /\ delays (snd (withRetry fn N d w))
     = map (fun i => d * 2 ^ Z.of_nat i) (seq 0 k).
Proof.
  intros Hk Hs.
  assert (H : fst (fst (withRetry fn N d w)) = Resolved v
              /\ timeline (snd (withRetry fn N d w)) = backoffSchedule k d).
  { revert N d w Hk Hs. induction k as [|k IH]; intros N d w Hk Hs;
      rewrite withRetry_unfold; cbn [succeedsAfter] in Hs.
    - destruct Hs as (p' & calls & ->). cbn [fst snd timeline backoffSchedule].
      split; [reflexivity|].
      now rewrite <- (app_nil_r (map Request calls)), timeline_requests.
    - destruct (fn (provider w)) as [[[a|e] p] calls]; [contradiction|].
      destruct Hs as [He Hs]. destruct N as [|N]; [lia|]. rewrite He.
      destruct (IH N (d * 2) (withProvider w p) ltac:(lia) Hs) as [Hr Ht].
      destruct (withRetry fn N (d * 2) (withProvider w p)) as [[r w'] evs].
      cbn [fst snd] in *. split; [exact Hr|].
      cbn [timeline app backoffSchedule]. rewrite timeline_requests.
      cbn [timeline]. now rewrite Ht. }
  destruct H as [Hr Ht]. repeat split; auto.
  - now rewrite <- attempts_timeline, Ht, attempts_backoffSchedule.
  - now rewrite <- delays_timeline, Ht, delays_backoffSchedule.
Qed.

(** X2.  Whatever the operation does, a run of [withRetry] with retry
    count [N] and base delay [d] is a backoff schedule cut short: for some
    [k <= N] it consists of [k + 1] attempts separated by the waits [d],
    [2d], ..., [d * 2^(k-1)].  So there are never more than [N + 1]
    attempts, never more than [N] waits, and always one attempt more than
    waits. *)
Theorem withRetry_follows_schedule {T} (fn : Op T) (N : nat) (d : Z)
        (w : World) :
  exists k,
    (k <= N)%nat
    /\ timeline (snd (withRetry fn N d w)) = backoffSchedule k d
    /\ attempts (snd (withRetry fn N d w)) = S k
    /\ delays (snd (withRetry fn N d w))
       = map (fun i => d * 2 ^ Z.of_nat i) (seq 0 k).
Proof.
  assert (H : exists k, (k <= N)%nat
                        /\ timeline (snd (withRetry fn N d w)) = backoffSchedule k d).
  { revert d w. induction N as [|N IH]; intros d w; rewrite withRetry_unfold;
      destruct (fn (provider w)) as [[[a|e] p] calls].
    - exists 0%nat. split; [lia|]. cbn [snd timeline backoffSchedule].
      now rewrite <- (app_nil_r (map Request calls)), timeline_requests.
    - exists 0%nat. split; [lia|]. cbn [snd timeline backoffSchedule].
      now rewrite <- (app_nil_r (map Request calls)), timeline_requests.
    - exists 0%nat. split; [lia|]. cbn [snd timeline backoffSchedule].
      now rewrite <- (app_nil_r (map Request calls)), timeline_requests.
    - destruct (isTransient e).
      + destruct (IH (d * 2) (withProvider w p)) as (k & Hk & Ht).
        destruct (withRetry fn N (d * 2) (withProvider w p)) as [[r w'] evs].
        exists (S k). split; [lia|]. cbn [snd] in *.
        cbn [timeline app backoffSchedule]. rewrite timeline_requests.
        cbn [timeline]. now rewrite Ht.
      + exists 0%nat. split; [lia|]. cbn [snd timeline backoffSchedule].
        now rewrite <- (app_nil_r (map Request calls)), timeline_requests. }
  destruct H as (k & Hk & Ht). exists k. repeat split; auto.
  - now rewrite <- attempts_timeline, Ht, attempts_backoffSchedule.
  - now rewrite <- delays_timeline, Ht, delays_backoffSchedule.
Qed.

(** X3.  The status of a failure is its own [status] when that is a
    non-zero number, and the nested codes are then not looked at: a failure
    whose status is such a number outside 500, 502, 503, 504, and whose
    text holds no network pattern, ends the run after one attempt even when
    the nested error body carries a retryable code. *)
Theorem withRetry_top_status_decides {T} (fn : Op T) (N : nat) (d : Z)
        (w : World) (e : JsError) (p : Provider) (calls : list Call) (s : Z) :
  fn (provider w) = (Rejected e, p, calls) ->
  status e = Some s -> s <> 0 -> ~ In s transientStatuses ->
  (forall pat, In pat networkPatterns -> includes (errorText e) pat = false) ->
  errorStatus e = Some s
  /\ withRetry fn N d w
     = (Rejected e, withProvider w p, Attempt :: map Request calls).
Proof.
  intros Hfn Hs Hnz Hnt Hpat.
  assert (Hst : errorStatus e = Some s).
  { unfold errorStatus, orNumber. rewrite Hs. cbn [truthyNumber].
    now destruct (Z.eqb_spec s 0). }
  split; [exact Hst|].
  assert (Hfalse : isTransient e = false).
  { apply isTransient_false_iff. split; [|exact Hpat].
    intros s' Hs'. rewrite Hst in Hs'. now injection Hs' as <-. }
  rewrite withRetry_unfold, Hfn, Hfalse. now destruct N.
Qed.

End InvokerMore.

Lemma withRetry_recovers_witness :
  let fn := @generateContent (scripted []) client (speechRequest (js "hi") (js "Kore")) in
  let w := world [] (Some storedKey) None
             [ContentReply (Rejected overloaded);
              ContentReply (Rejected connectionLost);
              ContentReply (Resolved refusalResponse)] in
  succeedsAfter fn 2 (provider w) refusalResponse
  /\ fst (fst (withRetry fn 3 2000 w)) = Resolved refusalResponse
  /\ attempts (snd (withRetry fn 3 2000 w)) = 3%nat
  /\ delays (snd (withRetry fn 3 2000 w)) = [2000; 4000].
Proof.
  intros fn w.
  assert (Hs : succeedsAfter fn 2 (provider w) refusalResponse).
  { vm_compute. split; [reflexivity|]. split; [reflexivity|].
    eexists. eexists. reflexivity. }
  destruct (withRetry_recovers fn 3 2 2000 w refusalResponse ltac:(lia) Hs)
    as (Hr & _ & Ha & Hd).
  split; [exact Hs|]. split; [exact Hr|]. split; [exact Ha|exact Hd].
Defined.

Lemma withRetry_top_status_decides_witness :
  let fn := @generateContent (scripted []) client (speechRequest (js "hi") (js "Kore")) in
  let w := world [] (Some storedKey) None
             [ContentReply (Rejected rejectedUpstream);
              ContentReply (Resolved refusalResponse)] in
  status rejectedUpstream = Some 400
  /\ option_bind (error rejectedUpstream) code = Some 503
  /\ errorStatus rejectedUpstream = Some 400
  /\ fst (fst (withRetry fn 3 2000 w)) = Rejected rejectedUpstream
  /\ snd (withRetry fn 3 2000 w)
     = [Attempt; Request (GenerateContent storedKey (speechRequest (js "hi") (js "Kore")))].
Proof.
  intros fn w.
  assert (Hpat : forall pat, In pat networkPatterns ->
                             includes (errorText rejectedUpstream) pat = false).
  { intros pat Hin. unfold networkPatterns in Hin. cbn [In] in Hin.
    repeat (destruct Hin as [<-|Hin]; [vm_compute; reflexivity|]).
    contradiction. }
  assert (Hnt : ~ In 400 transientStatuses).
  { unfold transientStatuses. cbn [In]. lia. }
  destruct (withRetry_top_status_decides fn 3 2000 w rejectedUpstream
              [ContentReply (Resolved refusalResponse)]
              [GenerateContent storedKey (speechRequest (js "hi") (js "Kore"))]
              400 eq_refl eq_refl ltac:(lia) Hnt Hpat) as [Hst Hrun].
  split; [reflexivity|]. split; [reflexivity|]. split; [exact Hst|].
  rewrite Hrun. split; reflexivity.
Defined.

(* ================================================================== *)
(** * More on image generation *)
(* ================================================================== *)

Section ImagesMore.

Context {platform : Platform}.

Lemma withRetry_world {T} (fn : Op T) (N : nat) (d : Z) (w : World) :
  exists p, snd (fst (withRetry fn N d w)) = withProvider w p.
Proof.
  revert d w. induction N as [|N IH]; intros d w; rewrite withRetry_unfold;
    destruct (fn (provider w)) as [[[a|e] p] calls]; cbn [fst snd]; eauto.
  destruct (isTransient e); cbn [fst snd]; eauto.
  destruct (IH (d * 2) (withProvider w p)) as [p' Hp'].
  destruct (withRetry fn N (d * 2) (withProvider w p)) as [[r w'] evs].
  cbn [fst snd] in *. exists p'. now rewrite Hp'.
Qed.

(** With a call that sends one request per invocation, a run sends that
    request once per attempt. *)
Lemma withRetry_requests_repeat {T} (fn : Op T) (c : Call) (N : nat) (d : Z)
      (w : World) :
  (forall p, snd (fn p) = [c]) ->
  requests (snd (withRetry fn N d w))
  = repeat c (attempts (snd (withRetry fn N d w))).
Proof.
  intros Hc. revert d w. induction N as [|N IH]; intros d w;
    rewrite withRetry_unfold; specialize (Hc (provider w)) as Hcw;
    destruct (fn (provider w)) as [[[a|e] p] calls]; cbn [snd] in Hcw;
    subst calls; try reflexivity.
  destruct (isTransient e); [|reflexivity].
  specialize (IH (d * 2) (withProvider w p)).
  destruct (withRetry fn N (d * 2) (withProvider w p)) as [[r w'] evs].
  cbn [snd] in *. cbn. now rewrite IH.
Qed.

Lemma generateContent_one_request (ai : GoogleGenAI)
      (params : ContentParameters.t) (p : Provider) :
  snd (generateContent ai params p) = [GenerateContent (apiKey ai) params].
Proof. unfold generateContent. now destruct (serveContent _ _ _). Qed.

Lemma generateImages_one_request (ai : GoogleGenAI)
      (params : ImagesParameters.t) (p : Provider) :
  snd (generateImages ai params p) = [GenerateImages (apiKey ai) params].
Proof. unfold generateImages. now destruct (serveImages _ _ _). Qed.

Lemma find_split {A} (f : A -> bool) (l : list A) (a : A) :
  find f l = Some a ->
  exists before after,
    l = before ++ a :: after
    /\ Forall (fun b => f b = false) before /\ f a = true.
Proof.
  induction l as [|b l IH]; cbn [find]; [discriminate|].
  destruct (f b) eqn:Hb.
  - intros [= <-]. exists [], l. repeat split; auto.
  - intros H. destruct (IH H) as (before & after & -> & Hbefore & Ha).
    exists (b :: before), after. repeat split; auto.
Qed.

Lemma find_none_all {A} (f : A -> bool) (l : list A) :
  find f l = None -> Forall (fun b => f b = false) l.
Proof.
  induction l as [|b l IH]; cbn [find]; [constructor|].
  destruct (f b) eqn:Hb; [discriminate|]. intros H. constructor; auto.
Qed.

Lemma isPresent_false {A} (o : option A) : isPresent o = false <-> o = None.
Proof. destruct o; cbn; split; congruence. Qed.

(** X4.  When a part of Tier 1's response carries inline data, the first
    such part is the image: [generateImage] returns its data as a PNG data
    URI, text parts or not, and the run ends there: its events are those of
    the Tier 1 call and no request goes to the Tier 2 model. *)
Theorem generateImage_primary_image (prompt : jsstr) (ar : AspectRatio)
        (w w1 : World) (ai : GoogleGenAI)
        (response : GenerateContentResponse) (evs1 : list Event)
        (p : Part) (image : InlineData) :
  getAI w = (Resolved ai, w, []) ->
  withRetry (generateContent ai (tier1Request prompt ar))
    retriesForImages delayDefault w = (Resolved response, w1, evs1) ->
  firstInlinePart response p ->
  inlineData p = Some image ->
  generateImage prompt ar w
  = (Resolved (js "data:image/png;base64," ++ interpolate (data image)), w1, evs1)
  /\ imagesRequests (snd (generateImage prompt ar w)) = [].
Proof.
  intros Hai Hrun (before & after & Hparts & Hbefore & _) Himage.
  assert (Hinspect : inspectParts response
                     = inl (js "data:image/png;base64," ++ interpolate (data image))).
  { unfold inspectParts. fold (partsOf response). rewrite Hparts.
    rewrite (find_first _ before after p).
    - cbn [option_bind]. now rewrite Himage.
    - revert Hbefore. apply Forall_impl. now intros q ->.
    - now rewrite Himage. }
  assert (Hgen : generateImage prompt ar w
                 = (Resolved (js "data:image/png;base64," ++ interpolate (data image)),
                    w1, evs1)).
  { unfold generateImage. rewrite (bind_after_getAI _ w ai Hai).
    rewrite (bind_resolved _ _ _ _ _ _ (tier1_run _ _ _ _ _ _ _ Hrun)).
    rewrite Hinspect. cbn. now rewrite app_nil_r. }
  split; [exact Hgen|]. rewrite Hgen. cbn [snd].
  pose proof (withRetry_requests_repeat
                (generateContent ai (tier1Request prompt ar))
                (GenerateContent (apiKey ai) (tier1Request prompt ar))
                retriesForImages delayDefault w
                (generateContent_one_request ai _)) as Hreq.
  rewrite Hrun in Hreq. cbn [snd] in Hreq. unfold imagesRequests.
  rewrite Hreq. clear. induction (attempts evs1) as [|n IH]; [reflexivity|exact IH].
Qed.

(** What [inspectParts] read when it left a diagnostic. *)
Lemma inspectParts_inr (response : GenerateContentResponse) (e : JsError) :
  inspectParts response = inr e ->
  noInlineImage response /\ tier1Diagnostic response e.
Proof.
  unfold inspectParts, noInlineImage, tier1Diagnostic, firstTextPart, noTextPart.
  fold (partsOf response).
  destruct (find (fun p => isPresent (inlineData p)) (partsOf response))
    as [ip|] eqn:Hfind.
  - destruct (find_split _ _ _ Hfind) as (_ & _ & _ & _ & Hip).
    cbn [option_bind]. destruct (inlineData ip); [discriminate|discriminate].
  - cbn [option_bind]. intros H. split.
    + apply find_none_all in Hfind. revert Hfind. apply Forall_impl.
      intros q. apply isPresent_false.
    + destruct (find (fun p => truthyString (text p)) (partsOf response))
        as [tp|] eqn:Htext.
      * destruct (find_split _ _ _ Htext) as (before & after & Hparts & Hb & Htp).
        cbn [option_bind] in H. destruct (text tp) as [t|] eqn:Ht; [|discriminate].
        cbn [truthyString] in Htp. rewrite Htp in H. left. exists t.
        split; [|unfold substring0 in H; congruence].
        exists before, tp, after. repeat split; auto.
        -- revert Hb. apply Forall_impl. intros q Hq (t' & Ht' & Hne).
           rewrite Ht' in Hq. cbn in Hq. now destruct t'.
        -- now apply nonEmpty_true.
      * cbn [option_bind] in H. right. split; [|congruence].
        apply find_none_all in Htext. revert Htext. apply Forall_impl.
        intros q Hq (t' & Ht' & Hne). rewrite Ht' in Hq. cbn in Hq.
        now destruct t'.
Qed.

Lemma getAI_cases (w : World) :
  (exists ai, getAI w = (Resolved ai, w, []))
  \/ getAI w = (Rejected credentialMissing, w, []).
Proof.
  unfold getAI. destruct (resolveKey _ _) as [k|]; [destruct (nonEmpty k)|];
    unfold ret, throw; eauto.
Qed.

Lemma tier1_unfold (ai : GoogleGenAI) (prompt : jsstr) (ar : AspectRatio)
      (w : World) :
  tier1 ai prompt ar w =
  match withRetry (generateContent ai (tier1Request prompt ar))
          retriesForImages delayDefault w with
  | (Resolved response, w1, evs1) => (Resolved (inspectParts response), w1, evs1)
  | (Rejected e1, w1, evs1) => (Resolved (inr e1), w1, evs1)
  end.
Proof.
  unfold tier1, tryCatch, bind.
  destruct (withRetry _ _ _ w) as [[[r|e] w1] evs]; cbn; now rewrite !app_nil_r.
Qed.

(** Tier 2 never rejects: its failure is caught. *)
Lemma tier2_resolves (ai : GoogleGenAI) (prompt : jsstr) (ar : AspectRatio)
      (w : World) :
  exists second, fst (fst (tier2 ai prompt ar w)) = Resolved second.
Proof.
  rewrite tier2_run.
  destruct (withRetry _ _ _ w) as [[[r2|e3] w3] evs3]; cbn; eauto.
  destruct (firstImageBytes r2) as [[|c b]|]; cbn; eauto.
Qed.

Lemma generateImage_unfold (prompt : jsstr) (ar : AspectRatio) (w : World)
      (ai : GoogleGenAI) :
  getAI w = (Resolved ai, w, []) ->
  generateImage prompt ar w =
  match tier1 ai prompt ar w with
  | (Resolved (inl uri), w1, evs1) => (Resolved uri, w1, evs1)
  | (Resolved (inr lastError), w1, evs1) =>
    match tier2 ai prompt ar w1 with
    | (Resolved (Some uri), w2, evs2) => (Resolved uri, w2, evs1 ++ evs2)
    | (Resolved None, w2, evs2) =>
      (Rejected (if to_boolean lastError then lastError else generationFailed),
       w2, evs1 ++ evs2)
    | (Rejected e2, w2, evs2) => (Rejected e2, w2, evs1 ++ evs2)
    end
  | (Rejected e1, w1, evs1) => (Rejected e1, w1, evs1)
  end.
Proof.
  intros Hai. unfold generateImage. rewrite (bind_after_getAI _ w ai Hai).
  unfold bind at 1.
  destruct (tier1 ai prompt ar w) as [[[[uri|lastError]|e1] w1] evs1];
    cbn [ret]; rewrite ?app_nil_r; try reflexivity.
  unfold bind.
  destruct (tier2 ai prompt ar w1) as [[[[uri|]|e2] w2] evs2];
    cbn [ret throw]; rewrite ?app_nil_r; try reflexivity.
  unfold generationFailed.
  destruct (to_boolean lastError); cbn [throw]; now rewrite ?app_nil_r.
Qed.

(** X5.  Every failure of [generateImage] is one of four: the
    missing-credential error; the value the Tier 1 call was rejected with
    after its retries, when that value is truthy; the fixed error "Image
    generation failed. Please check your API Key." when the Tier 1 call
    was rejected with a falsy value; or the diagnostic read off Tier 1's
    response (the refusal quoting its text, or the empty-response
    message).  The error that Tier 2 ends with is only logged. *)
Theorem generateImage_failure_origin (prompt : jsstr) (ar : AspectRatio)
        (w w' : World) (e : JsError) (evs : list Event) :
  generateImage prompt ar w = (Rejected e, w', evs) ->
  (getAI w = (Rejected e, w, []) /\ e = credentialMissing /\ evs = [])
  \/ exists ai,
       getAI w = (Resolved ai, w, [])
       /\ let first := withRetry (generateContent ai (tier1Request prompt ar))
                         retriesForImages delayDefault w in
          (fst (fst first) = Rejected e /\ to_boolean e = true)
          \/ (exists e1,
                 fst (fst first) = Rejected e1 /\ to_boolean e1 = false
                 /\ e = generationFailed)
          \/ exists response,
               fst (fst first) = Resolved response
               /\ noInlineImage response /\ tier1Diagnostic response e.
Proof.
  intros Hgen. destruct (getAI_cases w) as [[ai Hai]|Hai].
  - right. exists ai. split; [exact Hai|]. cbv zeta.
    rewrite (generateImage_unfold _ _ _ _ Hai), tier1_unfold in Hgen.
    destruct (withRetry (generateContent ai (tier1Request prompt ar))
                retriesForImages delayDefault w) as [[[response|e1] w1] evs1];
      cbn [fst].
    + right. right. exists response. split; [reflexivity|].
      destruct (inspectParts response) as [uri|lastError] eqn:Hparts;
        [discriminate|].
      destruct (inspectParts_inr _ _ Hparts) as [Hno Hdiag].
      assert (Htrue : to_boolean lastError = true)
        by now destruct Hdiag as [(t & _ & ->)|[_ ->]].
      rewrite Htrue in Hgen.
      destruct (tier2_resolves ai prompt ar w1) as [second H2].
      destruct (tier2 ai prompt ar w1) as [[[[uri|]|e2] w2] evs2];
        cbn [fst] in H2; try congruence.
      assert (lastError = e) by congruence. now subst.
    + destruct (tier2_resolves ai prompt ar w1) as [second H2].
      destruct (tier2 ai prompt ar w1) as [[[[uri|]|e2] w2] evs2];
        cbn [fst] in H2; try congruence.
      destruct (to_boolean e1) eqn:Htrue.
      * left. assert (e1 = e) by congruence. now subst.
      * right. left. exists e1. repeat split; congruence.
  - left. unfold generateImage in Hgen.
    rewrite (bind_getAI_rejected _ w _ Hai) in Hgen.
    injection Hgen as <- <- <-. repeat split. exact Hai.
Qed.

Lemma attempts_app (evs1 evs2 : list Event) :
  attempts (evs1 ++ evs2) = (attempts evs1 + attempts evs2)%nat.
Proof. induction evs1 as [|[| |] evs1 IH]; cbn; auto. Qed.

Lemma tier2_events (ai : GoogleGenAI) (prompt : jsstr) (ar : AspectRatio)
      (w : World) :
  snd (tier2 ai prompt ar w)
  = snd (withRetry (generateImages ai (tier2Request prompt ar))
           retriesForImages delayDefault w).
Proof.
  rewrite tier2_run.
  destruct (withRetry _ _ _ w) as [[[r|e] w1] evs]; [|reflexivity].
  now destruct (firstImageBytes r) as [[|c b]|].
Qed.

Lemma generateImage_requests_shape (prompt : jsstr) (ar : AspectRatio)
        (w : World) :
  exists (key : jsstr) (n1 n2 : nat),
    (n1 <= 3)%nat /\ (n2 <= 3)%nat
    /\ requests (snd (generateImage prompt ar w))
       = repeat (GenerateContent key (tier1Request prompt ar)) n1
         ++ repeat (GenerateImages key (tier2Request prompt ar)) n2
    /\ attempts (snd (generateImage prompt ar w)) = (n1 + n2)%nat.
Proof.
  destruct (getAI_cases w) as [[ai Hai]|Hai].
  - rewrite (generateImage_unfold _ _ _ _ Hai), tier1_unfold.
    pose proof (withRetry_requests_repeat _ _ retriesForImages delayDefault w
                  (generateContent_one_request ai (tier1Request prompt ar))) as R1.
    pose proof (withRetry_attempts_bound
                  (generateContent ai (tier1Request prompt ar))
                  retriesForImages delayDefault w) as B1.
    assert (Hfallback : forall (lastError : JsError) (w1 : World) (evs1 : list Event),
      requests evs1
      = repeat (GenerateContent (apiKey ai) (tier1Request prompt ar)) (attempts evs1) ->
      (attempts evs1 <= 3)%nat ->
      let run : Outcome jsstr * World * list Event :=
        match tier2 ai prompt ar w1 with
        | (Resolved (Some uri), w2, evs2) => (Resolved uri, w2, evs1 ++ evs2)
        | (Resolved None, w2, evs2) => (Rejected lastError, w2, evs1 ++ evs2)
        | (Rejected e2, w2, evs2) => (Rejected e2, w2, evs1 ++ evs2)
        end in
      exists (key : jsstr) (n1 n2 : nat),
        (n1 <= 3)%nat /\ (n2 <= 3)%nat
        /\ requests (snd run)
           = repeat (GenerateContent key (tier1Request prompt ar)) n1
             ++ repeat (GenerateImages key (tier2Request prompt ar)) n2
        /\ attempts (snd run) = (n1 + n2)%nat).
    { intros lastError w1 evs1 R B. cbv zeta.
      pose proof (tier2_events ai prompt ar w1) as H2.
      pose proof (withRetry_requests_repeat _ _ retriesForImages delayDefault w1
                    (generateImages_one_request ai (tier2Request prompt ar))) as R2.
      pose proof (withRetry_attempts_bound
                    (generateImages ai (tier2Request prompt ar))
                    retriesForImages delayDefault w1) as B2.
      rewrite <- H2 in R2, B2.
      exists (apiKey ai), (attempts evs1).
      destruct (tier2 ai prompt ar w1) as [[[[uri|]|e2] w2] evs2];
        cbn [snd] in *; exists (attempts evs2);
        rewrite requests_app, attempts_app, R, R2; auto. }
    destruct (withRetry (generateContent ai (tier1Request prompt ar))
                retriesForImages delayDefault w) as [[[response|e1] w1] evs1];
      cbn [snd] in R1, B1.
    + destruct (inspectParts response) as [uri|lastError].
      * exists (apiKey ai), (attempts evs1), 0%nat. cbn [snd repeat].
        rewrite app_nil_r. repeat split; auto; lia.
      * now apply Hfallback.
    + now apply Hfallback.
  - exists [], 0%nat, 0%nat. unfold generateImage.
    rewrite (bind_getAI_rejected _ w _ Hai). repeat split; auto; lia.
Qed.

(** X6.  Whatever the provider does, one call of [generateImage] sends
    the Tier 1 request at most three times, then the Tier 2 request at most
    three times, and nothing else. *)
Theorem generateImage_request_budget (prompt : jsstr) (ar : AspectRatio)
        (w : World) :
  exists (key : jsstr) (n1 n2 : nat),
    (n1 <= 3)%nat /\ (n2 <= 3)%nat
    /\ requests (snd (generateImage prompt ar w))
       = repeat (GenerateContent key (tier1Request prompt ar)) n1
         ++ repeat (GenerateImages key (tier2Request prompt ar)) n2
    /\ attempts (snd (generateImage prompt ar w)) = (n1 + n2)%nat.
Proof. apply generateImage_requests_shape. Qed.

End ImagesMore.

Lemma generateImage_primary_image_witness :
  let w := world [] (Some storedKey) None
             [ContentReply (Resolved captionedImageResponse)] in
  @generateImage (scripted []) panelPromptText Ratio_16_9 w
  = (Resolved (js "data:image/png;base64," ++ js "iVBORw0KGgo"),
     world [] (Some storedKey) None [],
     [Attempt;
      Request (GenerateContent storedKey (tier1Request panelPromptText Ratio_16_9))]).
Proof.
  intros w.
  set (inline := {| inlineData := Some {| data := Some (js "iVBORw0KGgo") |};
                    text := None |}).
  assert (Hfirst : firstInlinePart captionedImageResponse inline).
  { exists [{| inlineData := None; text := Some (js "Here is your image.") |}], [].
    split; [reflexivity|]. split; [repeat constructor|discriminate]. }
  assert (Hrun : @withRetry (scripted []) _
                   (generateContent client (tier1Request panelPromptText Ratio_16_9))
                   retriesForImages delayDefault w
                 = (Resolved captionedImageResponse,
                    world [] (Some storedKey) None [],
                    [Attempt;
                     Request (GenerateContent storedKey
                                (tier1Request panelPromptText Ratio_16_9))]))
    by (vm_compute; reflexivity).
  exact (proj1 (generateImage_primary_image panelPromptText Ratio_16_9 w _ client
                  captionedImageResponse _ inline _ eq_refl Hrun Hfirst eq_refl)).
Defined.

Lemma generateImage_failure_origin_witness :
  let w := world [] (Some storedKey) None
             [ContentReply (Rejected badRequest);
              ImagesReply (Rejected rejectedUpstream)] in
  let w' := world [] (Some storedKey) None
              [ContentReply (Rejected emptyString);
               ImagesReply (Rejected rejectedUpstream)] in
  let evs := [Attempt;
              Request (GenerateContent storedKey
                         (tier1Request panelPromptText Ratio_16_9));
              Attempt;
              Request (GenerateImages storedKey
                         (tier2Request panelPromptText Ratio_16_9))] in
  let first (w : @World (scripted [])) :=
    fst (fst (withRetry
                (generateContent client (tier1Request panelPromptText Ratio_16_9))
                retriesForImages delayDefault w)) in
  @generateImage (scripted []) panelPromptText Ratio_16_9 w
  = (Rejected badRequest, world [] (Some storedKey) None [], evs)
  /\ first w = Rejected badRequest
  /\ @generateImage (scripted []) panelPromptText Ratio_16_9 w'
     = (Rejected generationFailed, world [] (Some storedKey) None [], evs)
  /\ exists e1, first w' = Rejected e1 /\ to_boolean e1 = false.
Proof.
  intros w w' evs first.
  assert (Hgen : @generateImage (scripted []) panelPromptText Ratio_16_9 w
                 = (Rejected badRequest, world [] (Some storedKey) None [], evs))
    by (vm_compute; reflexivity).
  assert (Hgen' : @generateImage (scripted []) panelPromptText Ratio_16_9 w'
                  = (Rejected generationFailed, world [] (Some storedKey) None [],
                     evs))
    by (vm_compute; reflexivity).
  assert (Hclient : @getAI (scripted []) w = (Resolved client, w, []))
    by reflexivity.
  assert (Hclient' : @getAI (scripted []) w' = (Resolved client, w', []))
    by reflexivity.
  split; [exact Hgen|]. split; [|split; [exact Hgen'|]].
  - destruct (generateImage_failure_origin panelPromptText Ratio_16_9 w _ _ _ Hgen)
      as [(Hno & _)
         |(ai & Hai & [[Hfirst _]|[(e1 & Hfirst & _ & Hfixed)
                                  |(response & Hresolved & _)]])].
    + rewrite Hclient in Hno. discriminate Hno.
    + assert (ai = client) by congruence. subst ai. exact Hfirst.
    + assert (Hstatus : status badRequest = status generationFailed)
        by (now rewrite Hfixed).
      discriminate Hstatus.
    + assert (ai = client) by congruence. subst ai.
      vm_compute in Hresolved. discriminate Hresolved.
  - destruct (generateImage_failure_origin panelPromptText Ratio_16_9 w' _ _ _ Hgen')
      as [(Hno & _)
         |(ai & Hai & [[Hfirst _]|[(e1 & Hfirst & Hfalsy & _)
                                  |(response & Hresolved & _)]])].
    + rewrite Hclient' in Hno. discriminate Hno.
    + assert (ai = client) by congruence. subst ai.
      vm_compute in Hfirst. discriminate Hfirst.
    + assert (ai = client) by congruence. subst ai. exists e1. split; assumption.
    + assert (ai = client) by congruence. subst ai.
      vm_compute in Hresolved. discriminate Hresolved.
Defined.

(* ================================================================== *)
(** * More on speech *)
(* ================================================================== *)

Section SpeechMore.

Context {platform : Platform}.

Lemma withRetry_objectURLs {T} (fn : Op T) (N : nat) (d : Z) (w w1 : World)
      (r : Outcome T) (evs : list Event) :
  withRetry fn N d w = (r, w1, evs) ->
  objectURLs w1 = objectURLs w
  /\ localStorage_gemini_api_key w1 = localStorage_gemini_api_key w
  /\ process_env_API_KEY w1 = process_env_API_KEY w.
Proof.
  intros Hrun. destruct (withRetry_world fn N d w) as [p Hp].
  rewrite Hrun in Hp. cbn [fst snd] in Hp. subst w1. now repeat split.
Qed.

Lemma generateSpeech_unfold (text voiceName : jsstr) (w w1 : World)
      (ai : GoogleGenAI) (response : GenerateContentResponse)
      (evs : list Event) :
  getAI w = (Resolved ai, w, []) ->
  withRetry (generateContent ai (speechRequest text voiceName)) 2 delayDefault w
  = (Resolved response, w1, evs) ->
  generateSpeech text voiceName w
  = let '(r, w2, evs2) :=
      match firstInlineData response with
      | Some base64Audio =>
        if nonEmpty base64Audio then pcmBase64ToWavUrl base64Audio w1
        else (Rejected noAudio, w1, [])
      | None => (Rejected noAudio, w1, [])
      end in
    (r, w2, evs ++ evs2).
Proof.
  intros Hai Hrun. unfold generateSpeech.
  rewrite (bind_after_getAI _ w ai Hai). unfold bind. rewrite Hrun.
  destruct (firstInlineData response) as [b|]; [destruct (nonEmpty b)|];
    reflexivity.
Qed.

Lemma speech_requests (ai : GoogleGenAI) (text voiceName : jsstr) (w : World) :
  speechRequests ai text voiceName
    (snd (withRetry (generateContent ai (speechRequest text voiceName))
            2 delayDefault w)).
Proof.
  split.
  - apply withRetry_requests_repeat. apply generateContent_one_request.
  - apply (withRetry_attempts_bound _ 2).
Qed.

(** X7.  [generateSpeech] reads the audio from the first part of the
    response only.  When that part carries none (no part at all, no
    inline data, or inline data that is missing or empty), the call fails
    with "AI did not return audio data." whatever the later parts hold; no
    object URL is registered, and the request is not repeated beyond the
    invoker's own attempts. *)
Theorem generateSpeech_no_audio (text voiceName : jsstr) (w w1 : World)
        (ai : GoogleGenAI) (response : GenerateContentResponse)
        (evs : list Event) :
  getAI w = (Resolved ai, w, []) ->
  withRetry (generateContent ai (speechRequest text voiceName)) 2 delayDefault w
  = (Resolved response, w1, evs) ->
  noLeadingAudio response ->
  generateSpeech text voiceName w = (Rejected noAudio, w1, evs)
  /\ objectURLs w1 = objectURLs w
  /\ speechRequests ai text voiceName evs.
Proof.
  intros Hai Hrun Hno.
  assert (Hdata : firstInlineData response = None
                  \/ firstInlineData response = Some []).
  { unfold noLeadingAudio, partsOf in Hno. unfold firstInlineData.
    destruct (firstParts response) as [[|first rest]|]; auto.
    destruct (inlineData first) as [audio|]; cbn [option_bind]; auto. }
  split; [|split].
  - rewrite (generateSpeech_unfold _ _ _ _ _ _ _ Hai Hrun).
    destruct Hdata as [-> | ->]; cbn; now rewrite app_nil_r.
  - now destruct (withRetry_objectURLs _ _ _ _ _ _ _ Hrun).
  - pose proof (speech_requests ai text voiceName w) as H.
    now rewrite Hrun in H.
Qed.

(** X8.  When [atob] raises on the audio data, [generateSpeech] fails
    with that exception; no object URL is registered. *)
Theorem generateSpeech_undecodable (text voiceName : jsstr) (w w1 : World)
        (ai : GoogleGenAI) (response : GenerateContentResponse)
        (evs : list Event) (base64Audio : jsstr) (e : JsError) :
  getAI w = (Resolved ai, w, []) ->
  withRetry (generateContent ai (speechRequest text voiceName)) 2 delayDefault w
  = (Resolved response, w1, evs) ->
  firstInlineData response = Some base64Audio ->
  base64Audio <> [] ->
  atob base64Audio = Rejected e ->
  generateSpeech text voiceName w = (Rejected e, w1, evs)
  /\ objectURLs w1 = objectURLs w.
Proof.
  intros Hai Hrun Hdata Hne Hatob. split.
  - rewrite (generateSpeech_unfold _ _ _ _ _ _ _ Hai Hrun), Hdata.
    rewrite (proj2 (nonEmpty_true _) Hne). unfold pcmBase64ToWavUrl. rewrite Hatob.
    cbn. now rewrite app_nil_r.
  - now destruct (withRetry_objectURLs _ _ _ _ _ _ _ Hrun).
Qed.

(** X9.  When the first part of the response carries audio that [atob]
    decodes to fewer than 2^32 - 36 bytes, [generateSpeech] registers
    exactly one new object, of type audio/wav, whose bytes are the
    canonical RIFF/WAVE container (24 kHz, mono, 16 bit) of the decoded
    bytes, and returns the URL minted for it; the stored keys and earlier
    objects are untouched, and the one request, carrying the text and the
    voice, is sent at most three times. *)
Theorem generateSpeech_registers_wav (text voiceName : jsstr) (w w1 : World)
        (ai : GoogleGenAI) (response : GenerateContentResponse)
        (evs : list Event) (base64Audio binaryString : jsstr) :
  getAI w = (Resolved ai, w, []) ->
  withRetry (generateContent ai (speechRequest text voiceName)) 2 delayDefault w
  = (Resolved response, w1, evs) ->
  firstInlineData response = Some base64Audio ->
  base64Audio <> [] ->
  atob base64Audio = Resolved binaryString ->
  Z.of_nat (length binaryString) + 36 < 2 ^ 32 ->
  exists wav w2,
    generateSpeech text voiceName w
    = (Resolved (objectURL (length (objectURLs w))), w2, evs)
    /\ objectURLs w2
       = objectURLs w ++ [{| blobParts := wav; type := js "audio/wav" |}]
    /\ canonicalContainer (map (fun c => ToUint8 (Z.of_N c)) binaryString) wav
    /\ localStorage_gemini_api_key w2 = localStorage_gemini_api_key w
    /\ process_env_API_KEY w2 = process_env_API_KEY w
    /\ provider w2 = provider w1
    /\ speechRequests ai text voiceName evs.
Proof.
  intros Hai Hrun Hdata Hne Hatob Hlen.
  destruct (pcmBase64ToWavUrl_registers base64Audio binaryString w1 Hatob Hlen)
    as (wav & Hurl & Hc).
  destruct (withRetry_objectURLs _ _ _ _ _ _ _ Hrun) as (Ho & Hl & He).
  exists wav. eexists. split; [|split; [|split; [exact Hc|]]].
  - rewrite (generateSpeech_unfold _ _ _ _ _ _ _ Hai Hrun), Hdata.
    rewrite (proj2 (nonEmpty_true _) Hne), Hurl. cbv iota beta.
    rewrite app_nil_r, Ho. reflexivity.
  - reflexivity.
  - cbn [localStorage_gemini_api_key process_env_API_KEY provider].
    repeat split; auto.
    + pose proof (speech_requests ai text voiceName w) as H.
      rewrite Hrun in H. apply H.
    + pose proof (speech_requests ai text voiceName w) as H.
      rewrite Hrun in H. apply H.
Qed.

End SpeechMore.

Lemma generateSpeech_no_audio_witness :
  let w := world [] (Some storedKey) None
             [ContentReply (Resolved audioSecondResponse)] in
  noLeadingAudio audioSecondResponse
  /\ @generateSpeech (scripted []) (js "hi") (js "Kore") w
     = (Rejected noAudio, world [] (Some storedKey) None [],
        [Attempt;
         Request (GenerateContent storedKey (speechRequest (js "hi") (js "Kore")))]).
Proof.
  intros w.
  assert (Hno : noLeadingAudio audioSecondResponse) by exact I.
  assert (Hrun : @withRetry (scripted []) _
                   (generateContent client (speechRequest (js "hi") (js "Kore")))
                   2 delayDefault w
                 = (Resolved audioSecondResponse,
                    world [] (Some storedKey) None [],
                    [Attempt;
                     Request (GenerateContent storedKey
                                (speechRequest (js "hi") (js "Kore")))]))
    by (vm_compute; reflexivity).
  split; [exact Hno|].
  exact (proj1 (generateSpeech_no_audio (js "hi") (js "Kore") w _ client
                  audioSecondResponse _ eq_refl Hrun Hno)).
Defined.

Lemma generateSpeech_undecodable_witness :
  let w := strictWorld [ContentReply (Resolved (audioResponse (js "A*ID")))] in
  @generateSpeech strictDecoder (js "hi") (js "Kore") w
  = (Rejected invalidCharacter, strictWorld [],
     [Attempt;
      Request (GenerateContent storedKey (speechRequest (js "hi") (js "Kore")))]).
Proof.
  intros w.
  assert (Hrun : @withRetry strictDecoder _
                   (generateContent client (speechRequest (js "hi") (js "Kore")))
                   2 delayDefault w
                 = (Resolved (audioResponse (js "A*ID")), strictWorld [],
                    [Attempt;
                     Request (GenerateContent storedKey
                                (speechRequest (js "hi") (js "Kore")))]))
    by (vm_compute; reflexivity).
  assert (Hne : js "A*ID" <> []) by discriminate.
  exact (proj1 (generateSpeech_undecodable (js "hi") (js "Kore") w _ client
                  (audioResponse (js "A*ID")) _ (js "A*ID") invalidCharacter
                  eq_refl Hrun eq_refl Hne eq_refl)).
Defined.

Lemma generateSpeech_registers_wav_witness :
  let w := world [] (Some storedKey) None
             [ContentReply (Resolved (audioResponse (js "AQID")))] in
  exists wav w2,
    @generateSpeech (scripted []) (js "hi") (js "Kore") w
    = (Resolved (js "blob:0"), w2,
       [Attempt;
        Request (GenerateContent storedKey (speechRequest (js "hi") (js "Kore")))])
    /\ objectURLs w2 = [{| blobParts := wav; type := js "audio/wav" |}]
    /\ length wav = 48%nat.
Proof.
  intros w.
  assert (Hrun : @withRetry (scripted []) _
                   (generateContent client (speechRequest (js "hi") (js "Kore")))
                   2 delayDefault w
                 = (Resolved (audioResponse (js "AQID")),
                    world [] (Some storedKey) None [],
                    [Attempt;
                     Request (GenerateContent storedKey
                                (speechRequest (js "hi") (js "Kore")))]))
    by (vm_compute; reflexivity).
  assert (Hne : js "AQID" <> []) by discriminate.
  assert (Hlen : Z.of_nat (length (js "AQID")) + 36 < 2 ^ 32)
    by (vm_compute; reflexivity).
  destruct (generateSpeech_registers_wav (js "hi") (js "Kore") w _ client
              (audioResponse (js "AQID")) _ (js "AQID") (js "AQID")
              eq_refl Hrun eq_refl Hne eq_refl Hlen)
    as (wav & w2 & Hgen & Hobj & Hc & _).
  exists wav, w2. split; [exact Hgen|]. split; [exact Hobj|].
  destruct Hc as [Hl _]. rewrite Hl. vm_compute. reflexivity.
Defined.

(* ================================================================== *)
(** * More on the WAV container *)
(* ================================================================== *)

Lemma truncate_eighths (a b : Z) :
  0 <= a -> 0 <= b ->
  truncate (inject_Z a * (inject_Z b / 8))%Q = a * b / 8.
Proof.
  intros Ha Hb. unfold truncate. cbn.
  rewrite Z.mul_1_r. apply Z.quot_div_nonneg; nia.
Qed.

Lemma truncate_rate (sr ch bps : Z) :
  0 <= sr -> 0 <= ch -> 0 <= bps ->
  truncate (inject_Z sr * inject_Z ch * (inject_Z bps / 8))%Q
  = sr * ch * bps / 8.
Proof.
  intros Hs Hc Hb. unfold truncate. cbn.
  rewrite Z.mul_1_r. apply Z.quot_div_nonneg; nia.
Qed.

(** X10.  For any format whose numbers fit their fields (sample rate and
    byte rate below 2^32; channel count, block alignment and sample width
    below 2^16), [createWavHeader] writes them as given: the format chunk
    is tagged 'fmt ' at offset 12 and holds the channel count at 22, the
    sample rate at 24, the byte rate sampleRate * channels * bits / 8 at
    28, the block alignment channels * bits / 8 at 32 and the sample width
    at 34, fractions cut off. *)
Theorem createWavHeader_format (pcm : Uint8Array) (sr ch bps : Z) :
  0 <= sr < 2 ^ 32 -> 0 <= ch < 2 ^ 16 -> 0 <= bps < 2 ^ 16 ->
  sr * ch * bps / 8 < 2 ^ 32 ->
  ch * bps / 8 < 2 ^ 16 ->
  exists wav,
    createWavHeader pcm sr ch bps = Some wav
    /\ firstn 4 (skipn 12 wav) = asciiBytes "fmt "
    /\ getUint16 wav 22 true = Some ch
    /\ getUint32 wav 24 true = Some sr
    /\ getUint32 wav 28 true = Some (sr * ch * bps / 8)
    /\ getUint16 wav 32 true = Some (ch * bps / 8)
    /\ getUint16 wav 34 true = Some bps.
Proof.
  intros Hs Hc Hb Hrate Halign. eexists.
  split; [apply createWavHeader_closed|].
  pose proof (field_tags pcm sr ch bps) as (_ & _ & Hfmt & _).
  repeat match goal with |- _ /\ _ => split end.
  - exact Hfmt.
  - rewrite field_numChannels. f_equal. unfold ToUint16, truncate.
    cbn [inject_Z Qnum Qden]. rewrite Z.quot_1_r. apply Z.mod_small. lia.
  - rewrite field_sampleRate, ToUint32_integer. f_equal. apply Z.mod_small. lia.
  - rewrite field_byteRate. f_equal. unfold ToUint32.
    rewrite truncate_rate by lia. apply Z.mod_small.
    split; [apply Z.div_pos; nia|exact Hrate].
  - rewrite field_blockAlign. f_equal. unfold ToUint16.
    rewrite truncate_eighths by lia. apply Z.mod_small.
    split; [apply Z.div_pos; nia|exact Halign].
  - rewrite field_bitsPerSample. f_equal. unfold ToUint16, truncate.
    cbn [inject_Z Qnum Qden]. rewrite Z.quot_1_r. apply Z.mod_small. lia.
Qed.

Lemma createWavHeader_format_witness :
  exists wav,
    createWavHeader [x01; x02; x03; x04] 44100 2 16 = Some wav
    /\ getUint16 wav 22 true = Some 2
    /\ getUint32 wav 24 true = Some 44100
    /\ getUint32 wav 28 true = Some 176400
    /\ getUint16 wav 32 true = Some 4
    /\ getUint16 wav 34 true = Some 16.
Proof.
  destruct (createWavHeader_format [x01; x02; x03; x04] 44100 2 16)
    as (wav & Hwav & _ & H22 & H24 & H28 & H32 & H34);
    try (vm_compute; split; congruence); try (vm_compute; reflexivity).
  exists wav. repeat match goal with |- _ /\ _ => split end; assumption.
Defined.

(** X11.  [createWavHeader] never raises: whatever payload and format
    numbers it is given, it returns the 44 header bytes followed by the
    payload unchanged, with the three chunk tags in place, format chunk
    size 16, audio format 1 (PCM), and the two size fields holding
    36 + L and L reduced modulo 2^32. *)
Theorem createWavHeader_total (pcm : Uint8Array) (sr ch bps : Z) :
  exists wav,
    createWavHeader pcm sr ch bps = Some wav
    /\ length wav = (length pcm + 44)%nat
    /\ skipn 44 wav = pcm
    /\ firstn 4 wav = asciiBytes "RIFF"
    /\ firstn 4 (skipn 8 wav) = asciiBytes "WAVE"
    /\ firstn 4 (skipn 36 wav) = asciiBytes "data"
    /\ getUint32 wav 16 true = Some 16
    /\ getUint16 wav 20 true = Some 1
    /\ getUint32 wav 4 true = Some ((36 + Z.of_nat (length pcm)) mod 2 ^ 32)
    /\ getUint32 wav 40 true = Some (Z.of_nat (length pcm) mod 2 ^ 32).
Proof.
  eexists. split; [apply createWavHeader_closed|].
  pose proof (field_tags pcm sr ch bps) as (Hriff & Hwave & _ & Hdata).
  repeat match goal with |- _ /\ _ => split end.
  - apply container_length.
  - reflexivity.
  - exact Hriff.
  - exact Hwave.
  - exact Hdata.
  - apply field_subchunk1Size.
  - apply field_audioFormat.
  - apply field_fileSize.
  - apply field_dataSize.
Qed.

(* ================================================================== *)
(** * More on the analyses *)
(* ================================================================== *)

Section AnalysesMore.

Context {platform : Platform}.

Lemma trimStart_nil (s : jsstr) : trimStart s = [] <-> blank s = true.
Proof.
  unfold blank. induction s as [|c s IH]; cbn [trimStart forallb]; [tauto|].
  destruct (isWhiteSpace c); cbn [andb]; [exact IH|split; discriminate].
Qed.

Lemma blank_trimStart (s : jsstr) : blank (trimStart s) = blank s.
Proof.
  unfold blank. induction s as [|c s IH]; cbn [trimStart forallb]; [reflexivity|].
  destruct (isWhiteSpace c) eqn:E; cbn [andb forallb]; [exact IH|].
  now rewrite E.
Qed.

Lemma blank_rev (s : jsstr) : blank (rev s) = blank s.
Proof.
  unfold blank. induction s as [|c s IH]; cbn [rev forallb]; [reflexivity|].
  rewrite forallb_app, IH. cbn [forallb]. rewrite andb_true_r. apply andb_comm.
Qed.

(** [s.trim().length === 0] holds of the strings of white space only. *)
Lemma trim_blank (s : jsstr) : (length (trim s) =? 0)%nat = blank s.
Proof.
  unfold trim, trimEnd. rewrite length_rev.
  destruct (blank s) eqn:Hb.
  - apply Nat.eqb_eq, length_zero_iff_nil, trimStart_nil.
    now rewrite blank_rev, blank_trimStart.
  - apply Nat.eqb_neq. intros H.
    apply length_zero_iff_nil, trimStart_nil in H.
    rewrite blank_rev, blank_trimStart in H. congruence.
Qed.

Lemma recoverDescription_kept (desc dialogue : jsstr) (chars : list JsVal) :
  blank desc = false -> desc <> NO_DESCRIPTION ->
  recoverDescription desc dialogue chars = Some desc.
Proof.
  intros Hb Hs. unfold recoverDescription. rewrite trim_blank, Hb.
  assert (Hne : nonEmpty desc = true) by (destruct desc; [discriminate|reflexivity]).
  destruct (str_eqb desc NO_DESCRIPTION) eqn:E.
  - now apply str_eqb_eq in E.
  - now rewrite Hne.
Qed.

Lemma recoverDescription_blank (desc dialogue : jsstr) (chars : list JsVal) :
  blank desc = true ->
  recoverDescription desc dialogue chars =
  if nonEmpty dialogue then
    option_map
      (fun joined => spokenLine (orString (Some joined) (js "Character")) dialogue)
      (joinValues (js "&") chars)
  else Some establishingShot.
Proof.
  intros Hb. unfold recoverDescription, establishingShot, spokenLine, substring0.
  rewrite trim_blank, Hb, orb_true_r. cbn [orb].
  now destruct (joinValues _ _).
Qed.

Lemma panelOf_preserved (p : JsVal) (r : ReturnedPanel) :
  p <> JNull -> panelOf p = Some r -> preserved p r.
Proof.
  intros Hp Hr.
  destruct (panelOf_defined p Hp)
    as (va & dt & cs & pid & st & Hva & Hdt & Hcs & Hpid & Hst & E).
  rewrite E in Hr.
  destruct (recoverDescription _ _ _) as [desc|] eqn:Hdesc; [|discriminate].
  cbn [option_map] in Hr. apply some_eq in Hr. subst r. unfold preserved.
  cbn [ScriptPanel.description ScriptPanel.dialogue ScriptPanel.cameraAngle
       ScriptPanel.panelNumber].
  rewrite (stringField_stringOr p _ va [] Hva),
          (stringField_stringOr p _ dt [] Hdt) in Hdesc.
  rewrite (stringField_stringOr p _ dt [] Hdt),
          (stringField_stringOr p _ st _ Hst).
  repeat match goal with |- _ /\ _ => split end.
  - intros s Hs. rewrite Hs in Hdesc. split.
    + intros Hb Hsent. rewrite (recoverDescription_kept _ _ _ Hb Hsent) in Hdesc.
      now apply some_eq in Hdesc.
    + intros Hb. rewrite (recoverDescription_blank _ _ _ Hb) in Hdesc.
      unfold synthesized.
      destruct (stringField p (js "dialogue_text")) as [[|c d]|];
        try (cbn in Hdesc; now apply some_eq in Hdesc).
      cbn [nonEmpty str_eqb negb] in Hdesc.
      destruct (joinValues (js "&") (arrayOr [] cs)) as [joined|] eqn:Hjoin;
        [|discriminate].
      cbn [option_map] in Hdesc. apply some_eq in Hdesc. subst desc.
      split; [eauto|]. intros names Hnames.
      now rewrite (joinValues_listed p cs names joined Hcs Hnames Hjoin).
  - now intros d ->.
  - now intros a ->.
  - intros n Hn. rewrite Hpid in Hn. apply some_eq in Hn. now subst pid.
Qed.

(** The callback raises on an element that takes its description from
    its dialogue and lists a character that cannot be printed. *)
Lemma panelOf_raises (p : JsVal) (names : list JsVal) :
  spokenFor p ->
  member p (js "characters_in_shot") = Some (Some (JArr names)) ->
  forallb printable names = false ->
  panelOf p = None.
Proof.
  intros [(c & d & Hd) Hva] Hnames Hraises.
  assert (Hp : p <> JNull) by (intros ->; discriminate Hnames).
  destruct (panelOf_defined p Hp)
    as (va & dt & cs & pid & st & Hva' & Hdt & Hcs & _ & _ & ->).
  rewrite Hnames in Hcs. apply some_eq in Hcs. subst cs. cbn [arrayOr].
  rewrite (stringField_stringOr p _ va [] Hva'),
          (stringField_stringOr p _ dt [] Hdt), Hd.
  assert (Hrec : forall desc,
             blank desc = true \/ desc = NO_DESCRIPTION ->
             recoverDescription desc (c :: d) names = None).
  { intros desc [Hb | ->].
    - rewrite (recoverDescription_blank _ _ _ Hb).
      cbn [nonEmpty str_eqb negb].
      now rewrite (joinValues_not_printable _ _ Hraises).
    - rewrite (recoverDescription_unusable _ _ _ (or_intror eq_refl)).
      cbn [nonEmpty str_eqb negb].
      now rewrite (joinValues_not_printable _ _ Hraises). }
  destruct (stringField p (js "visual_action")) as [s|].
  - now rewrite (Hrec s Hva).
  - now rewrite (Hrec [] (or_introl eq_refl)).
Qed.

(** X12.  The failure contract of [analyzeScript]: an absent or empty
    response body gives the error "Failed to analyze script"; a body that
    is not valid JSON, or that parses to an array with a null element,
    gives "Invalid JSON response from AI".  In each case the call ends
    with the world and the events the one invoker call left: nothing is
    retried at this layer. *)
Theorem analyzeScript_contract (scriptText : jsstr) (roster : list Character.t)
        (w w1 : World) (response : GenerateContentResponse)
        (evs : list Event) :
  panelsResponse scriptText roster w response w1 evs ->
  (bodyAbsent response ->
     analyzeScript scriptText roster w = (Rejected failedPanels, w1, evs))
  /\ (forall text,
        response_text response = Some text -> text <> [] ->
        JSON_parse text = None ->
        analyzeScript scriptText roster w = (Rejected invalidJson, w1, evs))
  /\ (forall text before after,
        response_text response = Some text ->
        JSON_parse text = Some (JArr (before ++ JNull :: after)) ->
        analyzeScript scriptText roster w = (Rejected invalidJson, w1, evs)).
Proof.
  intros Hresp. split; [|split].
  - rewrite (analyzeScript_run _ _ _ _ _ _ Hresp). now intros [-> | ->].
  - rewrite (analyzeScript_run _ _ _ _ _ _ Hresp).
    intros [|c text] -> Hne Hparse; [congruence|]. now rewrite Hparse.
  - intros text before after Ht Hparse.
    exact (analyzeScript_null_element _ _ _ _ _ _ _ _ _ Hresp Ht Hparse).
Qed.

(** X13.  What [analyzeScript] keeps of the provider's panels: a
    visual action that holds more than white space and is not the sentinel
    becomes the description exactly as sent, surrounding white space
    included; one of white space only is replaced by the synthesized
    description (a line spoken by the listed names separated by [&] when
    there is dialogue, the establishing shot otherwise); a string dialogue,
    a string shot type and a numeric panel id are passed on unchanged.
    Panels are returned whenever no element is null and no listed
    character is, or holds inside nested arrays, an object with a
    [toString] key, which [join] cannot print.  When an element that takes
    its description from its dialogue lists such a character, no panel is
    returned at all: the call fails with "Invalid JSON response from
    AI". *)
Theorem analyzeScript_preserves (scriptText : jsstr)
        (roster : list Character.t) (w w1 : World)
        (response : GenerateContentResponse) (evs : list Event)
        (text : jsstr) (elements : list JsVal) :
  panelsResponse scriptText roster w response w1 evs ->
  response_text response = Some text ->
  JSON_parse text = Some (JArr elements) ->
  (Forall usable elements ->
   exists panels,
     analyzeScript scriptText roster w = (Resolved panels, w1, evs)
     /\ Forall2 preserved elements panels)
  /\ (forall p names,
        In p elements -> spokenFor p ->
        member p (js "characters_in_shot") = Some (Some (JArr names)) ->
        forallb printable names = false ->
        analyzeScript scriptText roster w = (Rejected invalidJson, w1, evs)).
Proof.
  intros Hresp Ht Hparse.
  rewrite (analyzeScript_run _ _ _ _ _ _ Hresp), Ht.
  pose proof (JSON_parse_nonempty _ _ Hparse) as Hne.
  destruct text as [|c text]; [discriminate|]. rewrite Hparse. cbn [panelsOf].
  split.
  - intros Hnn. destruct (mapPanels_defined elements Hnn) as (panels & Hmap).
    rewrite Hmap. exists panels. split; [reflexivity|].
    apply mapPanels_some in Hmap. revert Hmap. apply Forall2_impl.
    intros p r [Hp Hr]. now apply panelOf_preserved.
  - intros p names Hin Hspoken Hnames Hraises.
    now rewrite (mapPanels_none elements p Hin
                   (panelOf_raises p names Hspoken Hnames Hraises)).
Qed.

(** X14.  Whenever the body parses to anything but null,
    [extractWorldInfo] succeeds, and each of the two fields it returns is
    the parsed body's field as sent when that is truthy (an array, but
    also a string or a number: the value is not checked to be an array,
    nor are an array's elements looked at), and the empty array
    otherwise. *)
Theorem extractWorldInfo_passes_fields (scriptText : jsstr) (w w1 : World)
        (response : GenerateContentResponse) (evs : list Event)
        (text : jsstr) (result : JsVal) :
  worldInfoResponse scriptText w response w1 evs ->
  response_text response = Some text ->
  JSON_parse text = Some result ->
  result <> JNull ->
  exists info,
    extractWorldInfo scriptText w = (Resolved info, w1, evs)
    /\ fieldOrEmpty result (js "characters") (characters info)
    /\ fieldOrEmpty result (js "scenes") (scenes info).
Proof.
  intros Hresp Ht Hparse Hnn.
  rewrite (extractWorldInfo_run _ _ _ _ _ Hresp), Ht.
  pose proof (JSON_parse_nonempty _ _ Hparse) as Hne.
  destruct text as [|c text]; [discriminate|]. rewrite Hparse.
  unfold worldInfoOf, fieldOrEmpty.
  destruct (member_defined result (js "characters") Hnn) as [cs ->].
  destruct (member_defined result (js "scenes") Hnn) as [ss ->].
  eexists. split; [reflexivity|]. cbn [characters scenes]. unfold orEmptyArray.
  split.
  - destruct cs as [sent|]; [|reflexivity]. now destruct (truthy (Some sent)).
  - destruct ss as [sent|]; [|reflexivity]. now destruct (truthy (Some sent)).
Qed.

End AnalysesMore.

Lemma scripted_more_panels (text : jsstr) :
  @panelsResponse (scripted moreParses) scriptLine []
    (world moreParses (Some storedKey) None [ContentReply (Resolved (bodyOnly text))])
    (bodyOnly text)
    (world moreParses (Some storedKey) None [])
    [Attempt; Request (GenerateContent storedKey (panelsRequest scriptLine []))].
Proof. exists client. split; vm_compute; reflexivity. Qed.

Lemma scripted_more_worldInfo (text : jsstr) :
  @worldInfoResponse (scripted moreParses) scriptLine
    (world moreParses (Some storedKey) None [ContentReply (Resolved (bodyOnly text))])
    (bodyOnly text)
    (world moreParses (Some storedKey) None [])
    [Attempt; Request (GenerateContent storedKey (worldInfoRequest scriptLine))].
Proof. exists client. split; vm_compute; reflexivity. Qed.

Lemma scripted_parse_pier :
  @JSON_parse (scripted moreParses) pierBody = Some (JArr pierElements).
Proof. vm_compute. reflexivity. Qed.

Lemma scripted_parse_mia :
  @JSON_parse (scripted moreParses) miaBody = Some miaValue.
Proof. vm_compute. reflexivity. Qed.

Lemma analyzeScript_contract_witness :
  let evs := [Attempt;
              Request (GenerateContent storedKey (panelsRequest scriptLine []))] in
  @analyzeScript (scripted moreParses) scriptLine []
    (world moreParses (Some storedKey) None
       [ContentReply (Resolved (bodyOnly []))])
  = (Rejected failedPanels, world moreParses (Some storedKey) None [], evs)
  /\ @analyzeScript (scripted moreParses) scriptLine []
       (world moreParses (Some storedKey) None
          [ContentReply (Resolved (bodyOnly (js "Sorry, I cannot.")))])
     = (Rejected invalidJson, world moreParses (Some storedKey) None [], evs).
Proof.
  intros evs. split.
  - destruct (analyzeScript_contract scriptLine [] _ _ _ _
                (scripted_more_panels [])) as (Habsent & _).
    apply Habsent. now right.
  - destruct (analyzeScript_contract scriptLine [] _ _ _ _
                (scripted_more_panels (js "Sorry, I cannot."))) as (_ & Hbad & _).
    apply (Hbad (js "Sorry, I cannot.")); [reflexivity|discriminate|].
    vm_compute. reflexivity.
Defined.

Lemma scripted_parse_more_masked :
  @JSON_parse (scripted moreParses) maskedBody = Some (JArr maskedElements).
Proof. vm_compute. reflexivity. Qed.

Lemma analyzeScript_preserves_witness :
  Forall usable pierElements
  /\ (exists panels,
        fst (fst (@analyzeScript (scripted moreParses) scriptLine []
                    (world moreParses (Some storedKey) None
                       [ContentReply (Resolved (bodyOnly pierBody))])))
        = Resolved panels
        /\ Forall2 preserved pierElements panels)
  /\ fst (fst (@analyzeScript (scripted moreParses) scriptLine []
                 (world moreParses (Some storedKey) None
                    [ContentReply (Resolved (bodyOnly maskedBody))])))
     = Rejected invalidJson.
Proof.
  assert (Hok : Forall usable pierElements)
    by (unfold pierElements; usable_elements).
  split; [exact Hok|]. split.
  - destruct (analyzeScript_preserves scriptLine [] _ _ _ _ pierBody pierElements
                (scripted_more_panels pierBody) eq_refl scripted_parse_pier)
      as [Hkeeps _].
    destruct (Hkeeps Hok) as (panels & Hrun & Hkept).
    exists panels. split; [now rewrite Hrun|exact Hkept].
  - destruct (analyzeScript_preserves scriptLine [] _ _ _ _ maskedBody
                maskedElements (scripted_more_panels maskedBody) eq_refl
                scripted_parse_more_masked)
      as [_ Hraises].
    rewrite (Hraises
               (JObj [(js "characters_in_shot",
                       JArr [JObj [(js "toString", JStr (js "x"))]]);
                      (js "dialogue_text", JStr (js "hi"))])
               [JObj [(js "toString", JStr (js "x"))]]);
      [reflexivity|now left| |vm_compute; reflexivity|vm_compute; reflexivity].
    split; [exists 104%N, [105%N]; vm_compute; reflexivity|].
    vm_compute. exact I.
Defined.

(** The three panels of the pier body: the padded description as sent,
    the blank ones replaced, by the establishing shot and by the line the
    two characters speak. *)
Example analyzeScript_pier :
  fst (fst (@analyzeScript (scripted moreParses) scriptLine []
              (world moreParses (Some storedKey) None
                 [ContentReply (Resolved (bodyOnly pierBody))])))
  = Resolved [ScriptPanel.make 3 (js "  Wide shot of the pier. ") []
                (Some []) (Some (js "Wide"));
              ScriptPanel.make 0 establishingShot [] (Some [])
                (Some (js "Medium Shot"));
              ScriptPanel.make 0
                (js "Mia&Bob saying: " ++ DQUOTE ++ js "Ahoy there!..." ++ DQUOTE
                 ++ js ". Cinematic lighting, detailed expression.")
                [JStr (js "Mia"); JStr (js "Bob")] (Some (js "Ahoy there!"))
                (Some (js "Medium Shot"))].
Proof. vm_compute. reflexivity. Qed.

Lemma extractWorldInfo_passes_fields_witness :
  exists info,
    fst (fst (@extractWorldInfo (scripted moreParses) scriptLine
                (world moreParses (Some storedKey) None
                   [ContentReply (Resolved (bodyOnly miaBody))])))
    = Resolved info
    /\ characters info = JArr [JObj [(js "name", JStr (js "Mia"))]]
    /\ scenes info = JStr (js "none").
Proof.
  assert (Hnn : miaValue <> JNull) by discriminate.
  destruct (extractWorldInfo_passes_fields scriptLine _ _ _ _ miaBody miaValue
              (scripted_more_worldInfo miaBody) eq_refl scripted_parse_mia Hnn)
    as (info & Hrun & Hc & Hs).
  exists info. split; [now rewrite Hrun|]. split; [exact Hc|exact Hs].
Defined.

(* ================================================================== *)
(** * More on prompt assembly *)
(* ================================================================== *)

Lemma startsWith_nil (s : jsstr) : startsWith s [] = true.
Proof. now destruct s. Qed.

Lemma includes_nil (s : jsstr) : includes s [] = true.
Proof. destruct s; cbn [includes]; now rewrite startsWith_nil. Qed.

(** X15.  The empty string is contained in every string, so the fuzzy
    match gives way on empty names: when the first roster entry has an
    empty name, or the names listed on the panel are all empty, every line
    of the [CHARACTERS] section carries the visual DNA of the first roster
    entry, whatever the other entries are. *)
Theorem constructPanelPrompt_empty_names (panel : DeclaredPanel)
        (c : Character.t) (roster : list Character.t)
        (scene : option Scene.t) :
  Character.name c = []
  \/ Forall (fun n => n = []) (ScriptPanel.charactersPresent panel) ->
  ScriptPanel.charactersPresent panel <> [] ->
  constructPanelPrompt panel (c :: roster) scene
  = promptHead panel scene ++ LF ++ js "[CHARACTERS]:"
    ++ concat (map (fun n => LF ++ js "- (" ++ n ++ js "): "
                             ++ Character.visualPrompt c)
                 (ScriptPanel.charactersPresent panel)).
Proof.
  intros Hempty Hnames. rewrite constructPanelPrompt_sections.
  unfold charactersSection.
  destruct (ScriptPanel.charactersPresent panel) as [|n names] eqn:E;
    [congruence|].
  do 3 f_equal. clear E Hnames. revert Hempty.
  generalize (n :: names) as l. intros l Hempty.
  f_equal. apply map_ext_in. intros m Hm. cbn [find].
  assert (Hmatch : fuzzyMatch m c = true).
  { unfold fuzzyMatch. destruct Hempty as [Hc|Hall].
    - rewrite Hc, includes_nil. now rewrite orb_true_r.
    - rewrite Forall_forall in Hall. rewrite (Hall m Hm), includes_nil.
      apply orb_true_r. }
  now rewrite Hmatch.
Qed.

Lemma constructPanelPrompt_empty_names_witness :
  constructPanelPrompt (panelWith [js "Alice"; js "Bob"]) [nameless; alice; bob] None
  = promptHead (panelWith [js "Alice"; js "Bob"]) None ++ LF ++ js "[CHARACTERS]:"
    ++ LF ++ js "- (Alice): a hooded figure"
    ++ LF ++ js "- (Bob): a hooded figure".
Proof.
  rewrite (constructPanelPrompt_empty_names (panelWith [js "Alice"; js "Bob"])
             nameless [alice; bob] None);
    [|left; reflexivity|discriminate].
  vm_compute. reflexivity.
Defined.

Lemma find_exact_in (roster : list Character.t) (n : jsstr) (c : Character.t) :
  find (fun c => str_eqb (Character.name c) n) roster = Some c ->
  In c roster /\ Character.name c = n.
Proof.
  intros H. apply find_some in H. destruct H as [Hin Hn].
  split; [exact Hin|now apply str_eqb_eq].
Qed.

(** On a roster of independent names the single pass of the code and the
    two steps of the specification find the same entry. *)
Lemma find_resolveAsSpecified (roster : list Character.t) (n : jsstr) :
  independentNames roster ->
  find (fuzzyMatch n) roster = resolveAsSpecified roster n.
Proof.
  unfold independentNames, resolveAsSpecified.
  induction 1 as [|c rest Hc _ IH]; [reflexivity|].
  cbn [find]. unfold fuzzyMatch at 1.
  destruct (str_eqb (Character.name c) n) eqn:Hexact; [reflexivity|].
  cbn [orb].
  destruct (includes n (Character.name c) || includes (Character.name c) n)
    eqn:Hcont.
  - destruct (find (fun c0 => str_eqb (Character.name c0) n) rest) as [c2|] eqn:Hf;
      [|reflexivity].
    exfalso. apply find_exact_in in Hf. destruct Hf as [Hin Hn].
    rewrite Forall_forall in Hc. destruct (Hc c2 Hin) as [Heq|[H1 H2]].
    + rewrite Heq, Hn, str_eqb_refl in Hexact. discriminate.
    + rewrite Hn in H1, H2. rewrite H1, H2 in Hcont. discriminate.
  - rewrite IH.
    destruct (find (fun c0 => str_eqb (Character.name c0) n) rest);
      reflexivity.
Qed.

(** X16.  When no two roster entries have names one of which contains
    the other (entries of the same name apart), the single fuzzy pass of
    [constructPanelPrompt] resolves every name as an exact match first
    and a containment match second would: the prompt is the one built
    with the two-step resolution. *)
Theorem constructPanelPrompt_independent_names (panel : DeclaredPanel)
        (roster : list Character.t) (scene : option Scene.t) :
  independentNames roster ->
  constructPanelPrompt panel roster scene
  = promptHead panel scene
    ++ charactersSection (resolveAsSpecified roster)
         (ScriptPanel.charactersPresent panel).
Proof.
  intros Hind. rewrite constructPanelPrompt_sections. f_equal.
  unfold charactersSection.
  destruct (ScriptPanel.charactersPresent panel) as [|m names]; [reflexivity|].
  do 3 f_equal. apply map_ext. intros k.
  now rewrite (find_resolveAsSpecified roster k Hind).
Qed.

Lemma constructPanelPrompt_independent_names_witness :
  independentNames [bob; alice]
  /\ constructPanelPrompt (panelWith [js "Alice"; js "Bobby"]) [bob; alice] None
     = promptHead (panelWith [js "Alice"; js "Bobby"]) None
       ++ charactersSection (resolveAsSpecified [bob; alice])
            [js "Alice"; js "Bobby"].
Proof.
  assert (Hind : independentNames [bob; alice]).
  { apply FOP_cons; [|apply FOP_cons; [constructor|apply FOP_nil]].
    constructor; [|constructor]. right. split; vm_compute; reflexivity. }
  split; [exact Hind|].
  exact (constructPanelPrompt_independent_names
           (panelWith [js "Alice"; js "Bobby"]) [bob; alice] None Hind).
Defined.

Lemma trimStart_blank_app (pre t : jsstr) :
  blank pre = true -> trimStart (pre ++ t) = trimStart t.
Proof.
  unfold blank. induction pre as [|c pre IH]; cbn [forallb app trimStart];
    [reflexivity|].
  intros H. apply andb_true_iff in H. destruct H as [-> H]. now apply IH.
Qed.

(** [trim] takes the white space off both ends and nothing else. *)
Lemma trim_core (pre post body : jsstr) (a z : N) :
  blank pre = true -> blank post = true ->
  isWhiteSpace a = false -> isWhiteSpace z = false ->
  trim (pre ++ (a :: body ++ [z]) ++ post) = a :: body ++ [z].
Proof.
  intros Hpre Hpost Ha Hz. unfold trim, trimEnd.
  rewrite trimStart_blank_app by exact Hpre.
  cbn [app trimStart]. rewrite Ha.
  change (a :: (body ++ [z]) ++ post) with ((a :: body ++ [z]) ++ post).
  rewrite rev_app_distr, trimStart_blank_app by now rewrite blank_rev.
  change (a :: body ++ [z]) with ((a :: body) ++ [z]).
  rewrite rev_app_distr. cbn [rev app trimStart]. rewrite Hz.
  change (z :: rev body ++ [a]) with ([z] ++ rev (a :: body)).
  rewrite rev_app_distr, rev_involutive. reflexivity.
Qed.

(** A template between two interpolated values, trimmed: the white space
    around the template goes, the values stay as they are. *)
Lemma trim_template (head middle tail head' tail' : jsstr) (n v : jsstr)
      (h t : nat) :
  head' = skipn h head -> blank (firstn h head) = true ->
  tail' = firstn t tail -> blank (skipn t tail) = true ->
  (exists a rest, head' = a :: rest /\ isWhiteSpace a = false) ->
  (exists rest z, tail' = rest ++ [z] /\ isWhiteSpace z = false) ->
  trim (head ++ n ++ middle ++ v ++ tail)
  = head' ++ n ++ middle ++ v ++ tail'.
Proof.
  intros Hh Hpre Ht Hpost (a & ha & Ea & Ha) (tb & z & Ez & Hz).
  rewrite <- (firstn_skipn h head), <- (firstn_skipn t tail), <- Hh, <- Ht.
  rewrite Ea, Ez.
  replace ((firstn h head ++ a :: ha) ++ n ++ middle ++ v
           ++ (tb ++ [z]) ++ skipn t tail)
    with (firstn h head ++ (a :: (ha ++ n ++ middle ++ v ++ tb) ++ [z])
          ++ skipn t tail)
    by (cbn [app]; now rewrite <- !app_assoc).
  rewrite trim_core by assumption. cbn [app]. now rewrite <- !app_assoc.
Qed.

(** X17.  The three sheet prompts in closed form.  [trim] removes the
    white space the template itself begins and ends with, and nothing of
    the values: the name and the visual DNA appear exactly as given, white
    space included, and a missing one as the text undefined.  Every
    character prompt begins with the art type line and ends with the style
    line. *)
Theorem sheet_prompts_closed_form :
  (forall char : PartialCharacter.t,
      constructCharacterPrompt char
      = js "[Art Type] **Production Character Model Sheet (Settei)**.
[Subject] Name: " ++ interpolate (PartialCharacter.name char)
        ++ js ".
[Visual DNA] " ++ interpolate (PartialCharacter.visualPrompt char)
        ++ js ".
[Layout] **Horizontal Composition** on Technical Grid Background.
1. **Left**: Full body Standing pose (Front View).
2. **Center**: Full body Profile pose (Side View).
3. **Right**: Full body (Back View).
4. **Inserts**: Include 2 close-up sketches of facial expressions (Eyes/Face) and 1 detail of clothing/accessory in the corners.
[Background] White/Light Grey background with technical measurement grid lines.
[Style] Professional Anime Character Design, Flat colors, Clean lines, Reference Art, High Quality 4k.")
  /\ (forall scene : PartialScene.t,
        constructScenePrompt scene
        = js "[Type] Wide-angle Concept Art.
    [Location] " ++ interpolate (PartialScene.name scene)
          ++ js ".
    [Visuals] " ++ interpolate (PartialScene.visualPrompt scene)
          ++ js ".
    [Quality] Masterpiece, Cinematic Lighting, 8k, Makoto Shinkai Style.
    [Style] Anime Background Art.
    No characters.")
  /\ (forall scene : PartialScene.t,
        constructSceneGridPrompt scene
        = js "[Type] 9-Panel Grid Concept Sheet.
    [Subject] Details of " ++ interpolate (PartialScene.name scene)
          ++ js ".
    [Visuals] " ++ interpolate (PartialScene.visualPrompt scene)
          ++ js ".
    [Content] Close-ups of props, textures, lighting, corners.
    [Style] Technical concept art.").
Proof.
  split; [|split].
  - intros char. unfold constructCharacterPrompt.
    apply (trim_template _ _ _ _ _ _ _ 1 518);
      try (vm_compute; reflexivity).
    + eexists. eexists. split; [vm_compute; reflexivity|reflexivity].
    + exists (removelast (js ".
[Layout] **Horizontal Composition** on Technical Grid Background.
1. **Left**: Full body Standing pose (Front View).
2. **Center**: Full body Profile pose (Side View).
3. **Right**: Full body (Back View).
4. **Inserts**: Include 2 close-up sketches of facial expressions (Eyes/Face) and 1 detail of clothing/accessory in the corners.
[Background] White/Light Grey background with technical measurement grid lines.
[Style] Professional Anime Character Design, Flat colors, Clean lines, Reference Art, High Quality 4k.")), 46%N.
      split; [vm_compute; reflexivity|reflexivity].
  - intros scene. unfold constructScenePrompt.
    apply (trim_template _ _ _ _ _ _ _ 5 127);
      try (vm_compute; reflexivity).
    + eexists. eexists. split; [vm_compute; reflexivity|reflexivity].
    + exists (removelast (js ".
    [Quality] Masterpiece, Cinematic Lighting, 8k, Makoto Shinkai Style.
    [Style] Anime Background Art.
    No characters.")), 46%N.
      split; [vm_compute; reflexivity|reflexivity].
  - intros scene. unfold constructSceneGridPrompt.
    apply (trim_template _ _ _ _ _ _ _ 5 99);
      try (vm_compute; reflexivity).
    + eexists. eexists. split; [vm_compute; reflexivity|reflexivity].
    + exists (removelast (js ".
    [Content] Close-ups of props, textures, lighting, corners.
    [Style] Technical concept art.")), 46%N.
      split; [vm_compute; reflexivity|reflexivity].
Qed.

(* ================================================================== *)
(** * The tabs *)
(* ================================================================== *)

Section UpdatesById.

Context {A : Type} (idOf : A -> jsstr).

Lemma str_eqb_neq (s t : jsstr) : str_eqb s t = false <-> s <> t.
Proof.
  rewrite <- str_eqb_eq. now destruct (str_eqb s t).
Qed.

Lemma mapWhere_compose (target : jsstr) (g h : A -> A) (l : list A) :
  (forall x, idOf (g x) = idOf x) ->
  mapWhere idOf target h (mapWhere idOf target g l)
  = mapWhere idOf target (fun x => h (g x)) l.
Proof.
  intros Hg. unfold mapWhere. rewrite map_map. apply map_ext. intros x.
  destruct (str_eqb (idOf x) target) eqn:E; [now rewrite Hg, E|now rewrite E].
Qed.

(** Updates by distinct identifiers act on each element separately: an
    element gets the update recorded for its identifier, if any. *)
Lemma applyAll_pointwise (ups : list (jsstr * (A -> A))) (st : list A) :
  Forall (fun tu => forall x, idOf (snd tu x) = idOf x) ups ->
  NoDup (map fst ups) ->
  applyAll idOf ups st
  = map (fun x => match updateFor ups (idOf x) with
                  | Some u => u x
                  | None => x
                  end) st.
Proof.
  unfold applyAll, updateFor. revert st.
  induction ups as [|[t u] ups IH]; intros st Hid Hnd; cbn [fold_left find].
  - cbn. symmetry. apply map_id.
  - inversion Hid as [|? ? Hu Hrest]; subst. inversion Hnd as [|? ? Hnot Hnd']; subst.
    rewrite (IH _ Hrest Hnd'). unfold mapWhere. rewrite map_map.
    apply map_ext. intros x. cbn [fst snd] in *.
    destruct (str_eqb (idOf x) t) eqn:E.
    + rewrite Hu. cbn [option_map snd].
      destruct (find (fun tu => str_eqb (idOf x) (fst tu)) ups) as [[t' u']|] eqn:F;
        [|reflexivity].
      exfalso. apply find_some in F. destruct F as [Hin Ht'].
      cbn [fst] in Ht'. apply str_eqb_eq in Ht'. apply str_eqb_eq in E.
      apply Hnot. rewrite <- E, Ht'. now apply (in_map fst _ (t', u')).
    + reflexivity.
Qed.

Lemma updateFor_none (ups : list (jsstr * (A -> A))) (target : jsstr) :
  ~ In target (map fst ups) -> updateFor ups target = None.
Proof.
  intros Hnot. unfold updateFor.
  destruct (find (fun tu => str_eqb target (fst tu)) ups) as [[t u]|] eqn:F;
    [|reflexivity].
  exfalso. apply find_some in F. destruct F as [Hin Ht].
  cbn [fst] in Ht. apply str_eqb_eq in Ht. subst t.
  apply Hnot. now apply (in_map fst _ (target, u)).
Qed.

Lemma updateFor_in (ups : list (jsstr * (A -> A))) (t : jsstr) (u : A -> A) :
  NoDup (map fst ups) -> In (t, u) ups -> updateFor ups t = Some u.
Proof.
  unfold updateFor. induction ups as [|[t' u'] ups IH]; intros Hnd Hin;
    [contradiction|].
  inversion Hnd as [|? ? Hnot Hnd']; subst. cbn [find fst].
  destruct Hin as [[= -> ->]|Hin].
  - now rewrite str_eqb_refl.
  - destruct (str_eqb t t') eqn:E; [|now apply IH].
    apply str_eqb_eq in E. subst t'. exfalso. apply Hnot.
    now apply (in_map fst _ (t, u)).
Qed.

(** Distinct identifiers name distinct elements. *)
Lemma NoDup_ids_inj (l : list A) (x y : A) :
  NoDup (map idOf l) -> In x l -> In y l -> idOf x = idOf y -> x = y.
Proof.
  induction l as [|a l IH]; intros Hnd Hx Hy E; [contradiction|].
  inversion Hnd as [|? ? Hnot Hnd']; subst.
  destruct Hx as [->|Hx], Hy as [->|Hy]; auto.
  - exfalso. apply Hnot. rewrite E. now apply in_map.
  - exfalso. apply Hnot. rewrite <- E. now apply in_map.
Qed.

Lemma NoDup_ids_filter (keep : A -> bool) (l : list A) :
  NoDup (map idOf l) -> NoDup (map idOf (filter keep l)).
Proof.
  induction l as [|a l IH]; intros Hnd; [constructor|].
  inversion Hnd as [|? ? Hnot Hnd']; subst. cbn [filter].
  destruct (keep a); [|now apply IH].
  cbn [map]. constructor; [|now apply IH].
  intros Hin. apply Hnot. apply in_map_iff in Hin.
  destruct Hin as (x & Hx & Hin). apply filter_In in Hin.
  rewrite <- Hx. apply in_map. tauto.
Qed.

(** A batch that updates, by identifier, the elements a test selects,
    seen element by element: a selected element gets one of the updates
    allowed for it, the others stay as they are. *)
Lemma batch_pointwise (keep : A -> bool) (allowed : A -> (A -> A) -> Prop)
      (items : list A) (ups : list (jsstr * (A -> A))) :
  NoDup (map idOf items) ->
  Forall2 (fun item tu => fst tu = idOf item /\ allowed item (snd tu))
    (filter keep items) ups ->
  (forall item u, allowed item u -> forall x, idOf (u x) = idOf x) ->
  Forall2 (fun x x' => if keep x then exists u, allowed x u /\ x' = u x
                       else x' = x)
    items (applyAll idOf ups items).
Proof.
  intros Hnd Hups Hid.
  assert (Hfst : map fst ups = map idOf (filter keep items)).
  { clear Hnd. induction Hups as [|item tu l l' [E _] _ IH]; [reflexivity|].
    cbn [map]. now rewrite E, IH. }
  assert (Hnd' : NoDup (map fst ups)).
  { rewrite Hfst. now apply NoDup_ids_filter. }
  rewrite applyAll_pointwise; [|clear Hfst Hnd'|exact Hnd'].
  2:{ clear Hnd. induction Hups as [|item tu l l' [_ Ha] _ IH]; constructor; auto.
      now apply (Hid item). }
  assert (Hall : forall x, In x items ->
            if keep x
            then exists u, allowed x u
                           /\ match updateFor ups (idOf x) with
                              | Some u' => u' x
                              | None => x
                              end = u x
            else match updateFor ups (idOf x) with
                 | Some u' => u' x
                 | None => x
                 end = x).
  { intros x Hx. destruct (keep x) eqn:Hk.
    - assert (Hin : In x (filter keep items)) by (apply filter_In; tauto).
      assert (Htu : exists tu, In tu ups /\ fst tu = idOf x /\ allowed x (snd tu)).
      { clear Hfst Hnd' Hnd. induction Hups as [|item tu l l' [E Ha] _ IH];
          [contradiction|].
        destruct Hin as [->|Hin].
        - exists tu. repeat split; auto. now left.
        - destruct (IH Hin) as (tu' & Hin' & H'). exists tu'. split; [now right|exact H']. }
      destruct Htu as ([t u] & Hin' & Et & Ha). cbn [fst snd] in *. subst t.
      exists u. split; [exact Ha|]. now rewrite (updateFor_in _ _ _ Hnd' Hin').
    - rewrite updateFor_none; [reflexivity|].
      rewrite Hfst. intros Hin. apply in_map_iff in Hin.
      destruct Hin as (y & Ey & Hy). apply filter_In in Hy. destruct Hy as [Hy Hky].
      assert (y = x) by (apply (NoDup_ids_inj items); auto).
      subst y. congruence. }
  clear Hups Hfst Hnd' Hnd. induction items as [|x items IH]; cbn [map];
    constructor.
  - specialize (Hall x (or_introl eq_refl)). destruct (keep x).
    + destruct Hall as (u & Ha & E). exists u. now rewrite E.
    + exact Hall.
  - apply IH. intros y Hy. apply Hall. now right.
Qed.

End UpdatesById.

Section Progress.

Context {platform : Platform}.

Lemma sameKeys_refl (w : World) : sameKeys w w.
Proof. now split. Qed.

Lemma sameKeys_trans (w1 w2 w3 : World) :
  sameKeys w1 w2 -> sameKeys w2 w3 -> sameKeys w1 w3.
Proof. intros [H1 H2] [H3 H4]. split; congruence. Qed.

Lemma withRetry_sameKeys {T} (fn : Op T) (N : nat) (d : Z) (w : World) :
  sameKeys w (snd (fst (withRetry fn N d w))).
Proof.
  destruct (withRetry fn N d w) as [[r w1] evs] eqn:Hrun. cbn [fst snd].
  destruct (withRetry_objectURLs _ _ _ _ _ _ _ Hrun) as (_ & H1 & H2).
  now split.
Qed.

Lemma credentialed_sameKeys (w w' : World) :
  sameKeys w w' -> credentialed w -> credentialed w'.
Proof.
  intros [H1 H2] [ai H]. exists ai. unfold getAI in *. rewrite H1, H2.
  destruct (resolveKey _ _) as [k|]; [destruct (nonEmpty k)|];
    unfold ret, throw in *; try discriminate.
  now injection H as <-.
Qed.

Lemma generateImage_sameKeys (prompt : jsstr) (ar : AspectRatio) (w : World) :
  sameKeys w (snd (fst (generateImage prompt ar w))).
Proof.
  destruct (getAI_cases w) as [[ai Hai]|Hai].
  - rewrite (generateImage_unfold _ _ _ _ Hai), tier1_unfold.
    pose proof (withRetry_sameKeys
                  (generateContent ai (tier1Request prompt ar))
                  retriesForImages delayDefault w) as H1.
    assert (Hfallback : forall (lastError : JsError) (w1 : World)
                               (evs1 : list Event),
      sameKeys w w1 ->
      sameKeys w
        (snd (fst (match tier2 ai prompt ar w1 with
                   | (Resolved (Some uri), w2, evs2) =>
                     (Resolved uri, w2, evs1 ++ evs2)
                   | (Resolved None, w2, evs2) =>
                     (@Rejected jsstr lastError, w2, evs1 ++ evs2)
                   | (Rejected e2, w2, evs2) => (Rejected e2, w2, evs1 ++ evs2)
                   end)))).
    { intros lastError w1 evs1 Hw1.
      pose proof (withRetry_sameKeys
                    (generateImages ai (tier2Request prompt ar))
                    retriesForImages delayDefault w1) as H2.
      rewrite tier2_run.
      destruct (withRetry (generateImages ai (tier2Request prompt ar))
                  retriesForImages delayDefault w1) as [[[r2|e2] w2] evs2];
        cbn [fst snd] in *.
      - destruct (firstImageBytes r2) as [[|c b]|]; cbn [fst snd];
          now apply (sameKeys_trans _ w1).
      - now apply (sameKeys_trans _ w1). }
    destruct (withRetry (generateContent ai (tier1Request prompt ar))
                retriesForImages delayDefault w) as [[[response|e1] w1] evs1];
      cbn [fst snd] in H1.
    + destruct (inspectParts response) as [uri|lastError]; [exact H1|].
      now apply Hfallback.
    + now apply Hfallback.
  - unfold generateImage. rewrite (bind_getAI_rejected _ w _ Hai).
    apply sameKeys_refl.
Qed.

Lemma generateSpeech_sameKeys (text voiceName : jsstr) (w : World) :
  sameKeys w (snd (fst (generateSpeech text voiceName w))).
Proof.
  destruct (getAI_cases w) as [[ai Hai]|Hai].
  - pose proof (withRetry_sameKeys
                  (generateContent ai (speechRequest text voiceName))
                  2 delayDefault w) as H1.
    destruct (withRetry (generateContent ai (speechRequest text voiceName))
                2 delayDefault w) as [[[response|e] w1] evs] eqn:Hrun;
      cbn [fst snd] in H1.
    + rewrite (generateSpeech_unfold _ _ _ _ _ _ _ Hai Hrun).
      assert (Hw : forall run : Outcome jsstr * World * list Event,
                sameKeys w (snd (fst run)) ->
                sameKeys w (snd (fst (let '(r, w2, evs2) := run in
                                      (r, w2, evs ++ evs2))))).
      { now intros [[r w2] evs2]. }
      apply Hw.
      destruct (firstInlineData response) as [b|]; [|exact H1].
      destruct (nonEmpty b); [|exact H1].
      unfold pcmBase64ToWavUrl. destruct (atob b); [|exact H1].
      destruct (createWavHeader _ _ _ _); [|exact H1].
      cbn [createObjectURL fst snd]. destruct H1 as [H1 H2]. now split.
    + unfold generateSpeech. rewrite (bind_after_getAI _ w ai Hai).
      unfold bind. rewrite Hrun. exact H1.
  - unfold generateSpeech. rewrite (bind_getAI_rejected _ w _ Hai).
    apply sameKeys_refl.
Qed.

(** With a credential in place a service call sends something. *)
Lemma generateImage_sends (prompt : jsstr) (ar : AspectRatio) (w : World) :
  credentialed w ->
  (1 <= length (requests (snd (generateImage prompt ar w))))%nat.
Proof.
  intros [ai Hai].
  destruct (perform_with_client (GenerateImage prompt ar) w ai Hai) as [Hne _].
  cbn [perform] in Hne. rewrite forget_events in Hne.
  destruct (requests (snd (generateImage prompt ar w))); [congruence|cbn; lia].
Qed.

Lemma generateSpeech_sends (text voiceName : jsstr) (w : World) :
  credentialed w ->
  (1 <= length (requests (snd (generateSpeech text voiceName w))))%nat.
Proof.
  intros [ai Hai].
  destruct (perform_with_client (GenerateSpeech text voiceName) w ai Hai)
    as [Hne _].
  cbn [perform] in Hne. rewrite forget_events in Hne.
  destruct (requests (snd (generateSpeech text voiceName w)));
    [congruence|cbn; lia].
Qed.

End Progress.

Section StoryboardMore.

Context {platform : Platform}.
Variables (characters : list Character.t) (scenes : list Scene.t).

Lemma imageRequests_generateImage (prompt : jsstr) (ar : AspectRatio)
      (w : World) :
  imageRequests prompt ar (snd (generateImage prompt ar w)).
Proof.
  destruct (generateImage_requests_shape prompt ar w)
    as (key & n1 & n2 & H1 & H2 & Hreq & _).
  now exists key, n1, n2.
Qed.

Lemma imageRequests_length (prompt : jsstr) (ar : AspectRatio)
      (evs : list Event) :
  imageRequests prompt ar evs -> (length (requests evs) <= 6)%nat.
Proof.
  intros (key & n1 & n2 & H1 & H2 & ->).
  rewrite length_app, !repeat_length. lia.
Qed.

Lemma requests_wait (evs1 evs2 : list Event) (d : Z) :
  requests (evs1 ++ Timeout d :: evs2) = requests evs1 ++ requests evs2.
Proof. now rewrite requests_app. Qed.

Lemma generateFrame_run (frame : StoryboardFrame.t)
      (prev : list StoryboardFrame.t) (w : World) :
  StoryboardTab.generateFrame characters scenes frame prev w
  = let prompt := StoryboardTab.promptToUse characters scenes frame in
    match generateImage prompt Ratio_16_9 w with
    | (Resolved imageUrl, w1, evs) =>
      (mapWhere StoryboardFrame.id (StoryboardFrame.id frame)
         (StoryboardFrame.withImage imageUrl prompt) prev, w1, evs)
    | (Rejected e, w1, evs) =>
      (mapWhere StoryboardFrame.id (StoryboardFrame.id frame)
         (StoryboardFrame.withStatus StoryboardFrame.error) prev, w1, evs)
    end.
Proof.
  unfold StoryboardTab.generateFrame. cbv zeta.
  destruct (generateImage _ Ratio_16_9 w) as [[[imageUrl|e] w1] evs];
    now rewrite mapWhere_compose.
Qed.

(** X18.  [generateFrame] calls [generateImage] once, at 16:9, with the
    prompt rebuilt from the frame it is given and from the current
    characters and scenes, which sends that prompt in at most six requests;
    the world and the events it ends with are those of that call.  It
    leaves every frame with that identifier settled by the outcome of the
    call: when the call resolved with an image, done, with that image and
    with that very prompt recorded as its current prompt; when the call
    was rejected, in error, image and prompt as before.  No frame is left
    in the generating state, and frames with other identifiers are not
    touched. *)
Theorem generateFrame_settles (frame : StoryboardFrame.t)
        (prev : list StoryboardFrame.t) (w : World) :
  let prompt := StoryboardTab.promptToUse characters scenes frame in
  let run := StoryboardTab.generateFrame characters scenes frame prev w in
  let call := generateImage prompt Ratio_16_9 w in
  imageRequests prompt Ratio_16_9 (snd run)
  /\ snd (fst run) = snd (fst call)
  /\ snd run = snd call
  /\ Forall2 (fun f f' =>
                if str_eqb (StoryboardFrame.id f) (StoryboardFrame.id frame)
                then match fst (fst call) with
                     | Resolved imageUrl =>
                       f' = StoryboardFrame.withImage imageUrl prompt f
                       /\ StoryboardFrame.status f' = StoryboardFrame.done
                       /\ StoryboardFrame.generatedImageUrl f' = Some imageUrl
                       /\ StoryboardFrame.currentPrompt f' = prompt
                     | Rejected _ =>
                       f' = StoryboardFrame.withStatus StoryboardFrame.error f
                       /\ StoryboardFrame.status f' = StoryboardFrame.error
                       /\ StoryboardFrame.generatedImageUrl f'
                          = StoryboardFrame.generatedImageUrl f
                       /\ StoryboardFrame.currentPrompt f'
                          = StoryboardFrame.currentPrompt f
                     end
                else f' = f)
       prev (fst (fst run))
  /\ Forall (fun f' => StoryboardFrame.id f' = StoryboardFrame.id frame ->
                       StoryboardFrame.status f' <> StoryboardFrame.generating)
       (fst (fst run)).
Proof.
  intros prompt run call. subst run call. rewrite generateFrame_run.
  fold prompt. cbv zeta.
  pose proof (imageRequests_generateImage prompt Ratio_16_9 w) as Hreq.
  destruct (generateImage prompt Ratio_16_9 w) as [[[imageUrl|e] w1] evs];
    cbn [fst snd] in *; (split; [exact Hreq|]);
    (split; [reflexivity|]); (split; [reflexivity|]); unfold mapWhere; split.
  - clear. induction prev as [|f prev IH]; cbn [map]; constructor; auto.
    destruct (str_eqb _ _); auto.
  - apply Forall_map. apply Forall_forall. intros f _.
    destruct (str_eqb _ _) eqn:E; [discriminate|].
    intros Hid. apply str_eqb_neq in E. congruence.
  - clear. induction prev as [|f prev IH]; cbn [map]; constructor; auto.
    destruct (str_eqb _ _); auto.
  - apply Forall_map. apply Forall_forall. intros f _.
    destruct (str_eqb _ _) eqn:E; [discriminate|].
    intros Hid. apply str_eqb_neq in E. congruence.
Qed.

Lemma frameUpdate_id (frame : StoryboardFrame.t)
      (u : StoryboardFrame.t -> StoryboardFrame.t) :
  frameUpdate characters scenes frame u ->
  forall x, StoryboardFrame.id (u x) = StoryboardFrame.id x.
Proof. now intros [[imageUrl ->]| ->] x. Qed.

Lemma generateEach_updates (frames prev : list StoryboardFrame.t) (w : World) :
  exists ups,
    fst (fst (StoryboardTab.generateEach characters scenes frames prev w))
    = applyAll StoryboardFrame.id ups prev
    /\ Forall2 (fun item tu => fst tu = StoryboardFrame.id item
                               /\ frameUpdate characters scenes item (snd tu))
         (filter StoryboardTab.unfinished frames) ups
    /\ (length (requests
                  (snd (StoryboardTab.generateEach characters scenes frames prev w)))
        <= 6 * length (filter StoryboardTab.unfinished frames))%nat.
Proof.
  revert prev w. induction frames as [|frame rest IH]; intros prev w;
    cbn [StoryboardTab.generateEach filter].
  - exists []. repeat split; [constructor|cbn; lia].
  - destruct (StoryboardTab.unfinished frame); [|apply IH].
    rewrite generateFrame_run. cbv zeta.
    pose proof (imageRequests_length _ _ _
                  (imageRequests_generateImage
                     (StoryboardTab.promptToUse characters scenes frame)
                     Ratio_16_9 w)) as Hlen.
    destruct (generateImage _ Ratio_16_9 w) as [[[imageUrl|e] w1] evs1];
      cbn [snd] in Hlen.
    + specialize (IH (mapWhere StoryboardFrame.id (StoryboardFrame.id frame)
                        (StoryboardFrame.withImage imageUrl
                           (StoryboardTab.promptToUse characters scenes frame))
                        prev) w1).
      destruct IH as (ups & Hst & Hups & Hreq).
      destruct (StoryboardTab.generateEach characters scenes rest _ w1)
        as [[prev2 w2] evs2].
      cbn [fst snd] in *.
      exists ((StoryboardFrame.id frame,
               StoryboardFrame.withImage imageUrl
                 (StoryboardTab.promptToUse characters scenes frame)) :: ups).
      split; [exact Hst|]. split.
      * constructor; [|exact Hups]. split; [reflexivity|]. left. now exists imageUrl.
      * rewrite requests_wait, length_app. cbn [length]. lia.
    + specialize (IH (mapWhere StoryboardFrame.id (StoryboardFrame.id frame)
                        (StoryboardFrame.withStatus StoryboardFrame.error)
                        prev) w1).
      destruct IH as (ups & Hst & Hups & Hreq).
      destruct (StoryboardTab.generateEach characters scenes rest _ w1)
        as [[prev2 w2] evs2].
      cbn [fst snd] in *.
      exists ((StoryboardFrame.id frame,
               StoryboardFrame.withStatus StoryboardFrame.error) :: ups).
      split; [exact Hst|]. split.
      * constructor; [|exact Hups]. split; [reflexivity|]. now right.
      * rewrite requests_wait, length_app. cbn [length]. lia.
Qed.

Lemma generateEach_attempts (frames prev : list StoryboardFrame.t) (w : World) :
  credentialed w ->
  (length (filter StoryboardTab.unfinished frames)
   <= length (requests
                (snd (StoryboardTab.generateEach characters scenes frames prev w))))%nat.
Proof.
  revert prev w. induction frames as [|frame rest IH]; intros prev w Hc;
    cbn [StoryboardTab.generateEach filter]; [cbn; lia|].
  destruct (StoryboardTab.unfinished frame); [|now apply IH].
  rewrite generateFrame_run. cbv zeta.
  pose proof (generateImage_sameKeys
                (StoryboardTab.promptToUse characters scenes frame)
                Ratio_16_9 w) as Hk.
  pose proof (generateImage_sends
                (StoryboardTab.promptToUse characters scenes frame)
                Ratio_16_9 w Hc) as Hs.
  destruct (generateImage _ Ratio_16_9 w) as [[[imageUrl|e] w1] evs1];
    cbn [fst snd] in Hk, Hs.
  - specialize (IH (mapWhere StoryboardFrame.id (StoryboardFrame.id frame)
                      (StoryboardFrame.withImage imageUrl
                         (StoryboardTab.promptToUse characters scenes frame))
                      prev) w1 (credentialed_sameKeys _ _ Hk Hc)).
    destruct (StoryboardTab.generateEach characters scenes rest _ w1)
      as [[prev2 w2] evs2].
    cbn [snd length] in *. rewrite requests_wait, length_app. lia.
  - specialize (IH (mapWhere StoryboardFrame.id (StoryboardFrame.id frame)
                      (StoryboardFrame.withStatus StoryboardFrame.error)
                      prev) w1 (credentialed_sameKeys _ _ Hk Hc)).
    destruct (StoryboardTab.generateEach characters scenes rest _ w1)
      as [[prev2 w2] evs2].
    cbn [snd length] in *. rewrite requests_wait, length_app. lia.
Qed.

(** X19.  The batch of the storyboard tab, run on frames with distinct
    identifiers: a frame that has an image and is not in error is left
    exactly as it is; every other frame ends done, with an image and the
    prompt built from its own data, or in error with image and prompt
    untouched.  At most six requests are sent per unfinished frame, so
    none at all when every frame is finished, and with a credential in
    place at least one per unfinished frame: a failure does not stop the
    batch.  When the user declines, nothing happens. *)
Theorem storyboard_batch_settles (frames : list StoryboardFrame.t)
        (w : World) :
  NoDup (map StoryboardFrame.id frames) ->
  let run := StoryboardTab.handleGenerateAll characters scenes true frames frames w in
  Forall2 (settled characters scenes) frames (fst (fst run))
  /\ (length (requests (snd run))
      <= 6 * length (filter StoryboardTab.unfinished frames))%nat
  /\ (credentialed w ->
      (length (filter StoryboardTab.unfinished frames)
       <= length (requests (snd run)))%nat)
  /\ StoryboardTab.handleGenerateAll characters scenes false frames frames w
     = (frames, w, []).
Proof.
  intros Hnd run. subst run. unfold StoryboardTab.handleGenerateAll.
  destruct (generateEach_updates frames frames w) as (ups & Hst & Hups & Hreq).
  split; [|split; [exact Hreq|split; [apply generateEach_attempts|reflexivity]]].
  rewrite Hst.
  pose proof (batch_pointwise StoryboardFrame.id StoryboardTab.unfinished
                (frameUpdate characters scenes) frames ups Hnd Hups
                frameUpdate_id) as H.
  revert H. apply Forall2_impl. intros f f'. unfold settled, generated.
  destruct (StoryboardTab.unfinished f); [|auto].
  intros (u & [[imageUrl ->]| ->] & ->); eauto.
Qed.

End StoryboardMore.

Section StoryboardEdits.

Variables (characters : list Character.t) (scenes : list Scene.t).

Lemma existsb_str_eqb (name : jsstr) (l : list jsstr) :
  existsb (str_eqb name) l = true <-> In name l.
Proof.
  rewrite existsb_exists. split.
  - intros (x & Hx & E). apply str_eqb_eq in E. now subst x.
  - intros H. exists name. split; [exact H|apply str_eqb_refl].
Qed.

Lemma find_by_id (frames : list StoryboardFrame.t) (frame : StoryboardFrame.t) :
  NoDup (map StoryboardFrame.id frames) -> In frame frames ->
  find (fun f => str_eqb (StoryboardFrame.id f) (StoryboardFrame.id frame)) frames
  = Some frame.
Proof.
  intros Hnd Hin.
  destruct (find _ frames) as [g|] eqn:F.
  - apply find_some in F. destruct F as [Hg E]. apply str_eqb_eq in E.
    f_equal. now apply (NoDup_ids_inj StoryboardFrame.id frames).
  - apply (find_none _ _ F) in Hin. now rewrite str_eqb_refl in Hin.
Qed.

(** X20.  Edits on the storyboard keep the preview in step.  Toggling
    a name on a frame (identifiers distinct) flips whether the name is
    listed and leaves the other names as they are; binding a frame to a
    scene records the scene's identifier.  In both cases the frame's
    current prompt becomes the prompt [generateFrame] would send for the
    edited frame, the frame's other data stay, and the other frames are not
    touched. *)
Theorem storyboard_edits_keep_preview (frames : list StoryboardFrame.t)
        (frame : StoryboardFrame.t) (charName sceneId : jsstr) :
  NoDup (map StoryboardFrame.id frames) ->
  In frame frames ->
  (exists names,
      (In charName names <-> ~ In charName (namesOf frame))
      /\ (forall n, n <> charName -> In n names <-> In n (namesOf frame))
      /\ Forall2 (fun f f' =>
                    if str_eqb (StoryboardFrame.id f) (StoryboardFrame.id frame)
                    then f' = relisted characters scenes names frame
                    else f' = f)
           frames
           (StoryboardTab.toggleCharacterInFrame characters scenes frames
              (StoryboardFrame.id frame) charName frames)
      /\ StoryboardFrame.currentPrompt (relisted characters scenes names frame)
         = StoryboardTab.promptToUse characters scenes
             (relisted characters scenes names frame))
  /\ Forall2 (fun f f' =>
                if str_eqb (StoryboardFrame.id f) (StoryboardFrame.id frame)
                then f' = rebound characters scenes sceneId frame
                else f' = f)
       frames
       (StoryboardTab.handleAssignScene characters scenes
          (StoryboardFrame.id frame) sceneId frames)
  /\ StoryboardFrame.assignedSceneId (rebound characters scenes sceneId frame)
     = Some sceneId
  /\ StoryboardFrame.currentPrompt (rebound characters scenes sceneId frame)
     = StoryboardTab.promptToUse characters scenes
         (rebound characters scenes sceneId frame).
Proof.
  intros Hnd Hin.
  assert (Hmap : forall updates,
    Forall2 (fun f f' =>
               if str_eqb (StoryboardFrame.id f) (StoryboardFrame.id frame)
               then f' = StoryboardFrame.withCurrentPrompt
                           (StoryboardTab.promptToUse characters scenes
                              (updates frame)) (updates frame)
               else f' = f)
      frames
      (StoryboardTab.updateFrameData characters scenes
         (StoryboardFrame.id frame) updates frames)).
  { intros updates. unfold StoryboardTab.updateFrameData.
    assert (Hall : forall f, In f frames ->
              StoryboardFrame.id f = StoryboardFrame.id frame -> f = frame).
    { intros f Hf E. now apply (NoDup_ids_inj StoryboardFrame.id frames). }
    clear Hnd Hin. induction frames as [|f rest IH]; cbn [map]; constructor.
    - destruct (str_eqb _ _) eqn:E; [|reflexivity]. cbn [negb].
      apply str_eqb_eq in E. now rewrite (Hall f (or_introl eq_refl) E).
    - apply IH. intros g Hg. apply Hall. now right. }
  split; [|split; [apply Hmap|split; reflexivity]].
  unfold StoryboardTab.toggleCharacterInFrame. rewrite (find_by_id _ _ Hnd Hin).
  fold (namesOf frame).
  destruct (existsb (str_eqb charName) (namesOf frame)) eqn:E.
  - apply existsb_str_eqb in E.
    exists (filter (fun c => negb (str_eqb c charName)) (namesOf frame)).
    split; [|split; [|split; [apply Hmap|reflexivity]]].
    + rewrite filter_In, str_eqb_refl. cbn. split; [intros [_ [=]]|tauto].
    + intros n Hn. rewrite filter_In.
      apply str_eqb_neq in Hn. rewrite Hn. cbn. tauto.
  - assert (Hnot : ~ In charName (namesOf frame)).
    { intros H. apply existsb_str_eqb in H. congruence. }
    exists (namesOf frame ++ [charName]).
    split; [|split; [|split; [apply Hmap|reflexivity]]].
    + rewrite in_app_iff. cbn. tauto.
    + intros n Hn. rewrite in_app_iff. cbn. split; [|tauto].
      intros [H|[H|[]]]; [exact H|congruence].
Qed.

End StoryboardEdits.

Section BatchesMore.

Context {platform : Platform}.

Lemma mapWhere_same {A} (idOf : A -> jsstr) (target : jsstr) (l : list A) :
  mapWhere idOf target (fun x => x) l = l.
Proof.
  unfold mapWhere. rewrite <- (map_id l) at 2. apply map_ext.
  intros x. now destruct (str_eqb (idOf x) target).
Qed.

Lemma filter_filter {A} (f g : A -> bool) (l : list A) :
  filter f (filter g l) = filter (fun x => g x && f x) l.
Proof.
  induction l as [|a l IH]; [reflexivity|]. cbn [filter].
  destruct (g a); cbn [filter andb]; [destruct (f a)|]; now rewrite IH.
Qed.

(** One call of [generateSpeech] sends at most three requests. *)
Lemma pcmBase64ToWavUrl_silent (base64Pcm : jsstr) (w : World) :
  snd (pcmBase64ToWavUrl base64Pcm w) = [].
Proof.
  unfold pcmBase64ToWavUrl. destruct (atob base64Pcm); [|reflexivity].
  now destruct (createWavHeader _ _ _ _).
Qed.

(** One call of [generateSpeech] sends at most three requests. *)
Lemma generateSpeech_requests (text voiceName : jsstr) (w : World) :
  (length (requests (snd (generateSpeech text voiceName w))) <= 3)%nat.
Proof.
  destruct (getAI_cases w) as [[ai Hai]|Hai].
  - pose proof (speech_requests ai text voiceName w) as [Hreq Hle].
    destruct (withRetry (generateContent ai (speechRequest text voiceName))
                2 delayDefault w) as [[[response|e] w1] evs] eqn:Hrun;
      cbn [snd] in *.
    + rewrite (generateSpeech_unfold _ _ _ _ _ _ _ Hai Hrun).
      assert (Hevs : forall run : Outcome jsstr * World * list Event,
                snd run = [] ->
                requests (snd (let '(r, w2, evs2) := run in (r, w2, evs ++ evs2)))
                = requests evs).
      { intros [[r w2] evs2]. cbn [snd]. intros ->. now rewrite app_nil_r. }
      rewrite Hevs.
      * rewrite Hreq, repeat_length. exact Hle.
      * destruct (firstInlineData response) as [b|]; [|reflexivity].
        destruct (nonEmpty b); [apply pcmBase64ToWavUrl_silent|reflexivity].
    + unfold generateSpeech. rewrite (bind_after_getAI _ w ai Hai).
      unfold bind. rewrite Hrun. cbn [snd].
      rewrite Hreq, repeat_length. exact Hle.
  - unfold generateSpeech. rewrite (bind_getAI_rejected _ w _ Hai). cbn. lia.
Qed.

(* ---------------------------------------------------------------- *)

Section Audio.

Variables (characters : list Character.t) (charVoiceMap : jsstr -> option jsstr).

Lemma speakEach_updates (todo prev : list StoryboardFrame.t) (w : World) :
  exists ups,
    fst (fst (AudioTab.speakEach characters charVoiceMap todo prev w))
    = applyAll StoryboardFrame.id ups prev
    /\ Forall2 (fun item tu => fst tu = StoryboardFrame.id item
                               /\ keepsOrSets StoryboardFrame.withAudioUrl (snd tu))
         (filter (fun f => negb (truthyString (StoryboardFrame.audioUrl f))) todo)
         ups
    /\ (length (requests
                  (snd (AudioTab.speakEach characters charVoiceMap todo prev w)))
        <= 3 * length (filter (fun f => negb (truthyString
                                               (StoryboardFrame.audioUrl f)))
                         todo))%nat.
Proof.
  revert prev w. induction todo as [|frame rest IH]; intros prev w;
    cbn [AudioTab.speakEach filter].
  - exists []. repeat split; [constructor|cbn; lia].
  - destruct (truthyString (StoryboardFrame.audioUrl frame)); cbn [negb];
      [apply IH|].
    pose proof (generateSpeech_requests (AudioTab.dialogueOf frame)
                  (AudioTab.getVoiceForFrame characters charVoiceMap frame) w)
      as Hlen.
    destruct (generateSpeech _ _ w) as [[[wavUrl|e] w1] evs1]; cbn [snd] in Hlen.
    + specialize (IH (mapWhere StoryboardFrame.id (StoryboardFrame.id frame)
                        (StoryboardFrame.withAudioUrl wavUrl) prev) w1).
      destruct IH as (ups & Hst & Hups & Hreq).
      destruct (AudioTab.speakEach characters charVoiceMap rest _ w1)
        as [[prev2 w2] evs2].
      cbn [fst snd] in *.
      exists ((StoryboardFrame.id frame, StoryboardFrame.withAudioUrl wavUrl) :: ups).
      split; [exact Hst|]. split.
      * constructor; [|exact Hups]. split; [reflexivity|]. right. now exists wavUrl.
      * rewrite requests_wait, length_app. cbn [length]. lia.
    + specialize (IH prev w1). destruct IH as (ups & Hst & Hups & Hreq).
      destruct (AudioTab.speakEach characters charVoiceMap rest prev w1)
        as [[prev2 w2] evs2].
      cbn [fst snd] in *.
      exists ((StoryboardFrame.id frame, fun x => x) :: ups).
      split; [|split].
      * unfold applyAll. cbn [fold_left fst snd]. now rewrite mapWhere_same.
      * constructor; [|exact Hups]. split; [reflexivity|]. now left.
      * rewrite requests_app, length_app. cbn [length]. lia.
Qed.

Lemma speakEach_attempts (todo prev : list StoryboardFrame.t) (w : World) :
  credentialed w ->
  (length (filter (fun f => negb (truthyString (StoryboardFrame.audioUrl f))) todo)
   <= length (requests
                (snd (AudioTab.speakEach characters charVoiceMap todo prev w))))%nat.
Proof.
  revert prev w. induction todo as [|frame rest IH]; intros prev w Hc;
    cbn [AudioTab.speakEach filter]; [cbn; lia|].
  destruct (truthyString (StoryboardFrame.audioUrl frame)); cbn [negb];
    [now apply IH|].
  pose proof (generateSpeech_sameKeys (AudioTab.dialogueOf frame)
                (AudioTab.getVoiceForFrame characters charVoiceMap frame) w) as Hk.
  pose proof (generateSpeech_sends (AudioTab.dialogueOf frame)
                (AudioTab.getVoiceForFrame characters charVoiceMap frame) w Hc)
    as Hs.
  destruct (generateSpeech _ _ w) as [[[wavUrl|e] w1] evs1];
    cbn [fst snd] in Hk, Hs.
  - specialize (IH (mapWhere StoryboardFrame.id (StoryboardFrame.id frame)
                      (StoryboardFrame.withAudioUrl wavUrl) prev) w1
                  (credentialed_sameKeys _ _ Hk Hc)).
    destruct (AudioTab.speakEach characters charVoiceMap rest _ w1)
      as [[prev2 w2] evs2].
    cbn [snd length] in *. rewrite requests_wait, length_app. lia.
  - specialize (IH prev w1 (credentialed_sameKeys _ _ Hk Hc)).
    destruct (AudioTab.speakEach characters charVoiceMap rest prev w1)
      as [[prev2 w2] evs2].
    cbn [snd length] in *. rewrite requests_app, length_app. lia.
Qed.

(** X21.  The audio batch, run on frames with distinct identifiers:
    a frame without dialogue, or whose dialogue is white space only, or
    that already has audio, is left exactly as it is; any other frame is
    left as it is (when speech generation failed for it) or gets an audio
    URL and no other change.  At most three requests are sent per frame
    that awaits a voice, and with a credential in place at least one: a
    failure does not stop the batch. *)
Theorem audio_batch_voices (frames : list StoryboardFrame.t) (w : World) :
  NoDup (map StoryboardFrame.id frames) ->
  let run := AudioTab.handleGenerateAllAudio characters charVoiceMap
               frames frames w in
  Forall2 voiced frames (fst (fst run))
  /\ (length (requests (snd run)) <= 3 * length (filter awaitsVoice frames))%nat
  /\ (credentialed w ->
      (length (filter awaitsVoice frames) <= length (requests (snd run)))%nat).
Proof.
  intros Hnd run. subst run. unfold AudioTab.handleGenerateAllAudio.
  destruct (speakEach_updates (AudioTab.dialogueFrames frames) frames w)
    as (ups & Hst & Hups & Hreq).
  pose proof (speakEach_attempts (AudioTab.dialogueFrames frames) frames w)
    as Hlow.
  unfold AudioTab.dialogueFrames in Hups, Hreq, Hlow.
  rewrite filter_filter in Hups, Hreq, Hlow.
  split; [|split; [exact Hreq|exact Hlow]]. rewrite Hst.
  pose proof (batch_pointwise StoryboardFrame.id awaitsVoice
                (fun _ => keepsOrSets StoryboardFrame.withAudioUrl)
                frames ups Hnd Hups) as H.
  assert (Hid : forall (item : StoryboardFrame.t) u,
             keepsOrSets StoryboardFrame.withAudioUrl u ->
             forall x, StoryboardFrame.id (u x) = StoryboardFrame.id x).
  { now intros _ u [->|[b ->]] x. }
  specialize (H Hid). revert H. apply Forall2_impl. intros f f'. unfold voiced.
  destruct (awaitsVoice f); [|auto].
  intros (u & [->|[b ->]] & ->); eauto.
Qed.

End Audio.

(* ---------------------------------------------------------------- *)

Lemma designEach_updates (characters prev : list Character.t) (w : World) :
  exists ups,
    fst (fst (CharacterTab.designEach characters prev w))
    = applyAll Character.id ups prev
    /\ Forall2 (fun item tu => fst tu = Character.id item
                               /\ keepsOrSets CharacterTab.withImageUrl (snd tu))
         (filter (fun _ => true) characters) ups
    /\ (length (requests (snd (CharacterTab.designEach characters prev w)))
        <= 6 * length characters)%nat.
Proof.
  revert prev w. induction characters as [|char rest IH]; intros prev w;
    cbn [CharacterTab.designEach filter].
  - exists []. repeat split; [constructor|cbn; lia].
  - pose proof (imageRequests_length _ _ _
                  (imageRequests_generateImage
                     (constructCharacterPrompt (CharacterTab.asPartial char))
                     Ratio_16_9 w)) as Hlen.
    destruct (generateImage _ Ratio_16_9 w) as [[[base64Img|e] w1] evs1];
      cbn [snd] in Hlen.
    + specialize (IH (mapWhere Character.id (Character.id char)
                        (CharacterTab.withImageUrl base64Img) prev) w1).
      destruct IH as (ups & Hst & Hups & Hreq).
      destruct (CharacterTab.designEach rest _ w1) as [[prev2 w2] evs2].
      cbn [fst snd] in *.
      exists ((Character.id char, CharacterTab.withImageUrl base64Img) :: ups).
      split; [exact Hst|]. split.
      * constructor; [|exact Hups]. split; [reflexivity|]. right. now exists base64Img.
      * rewrite requests_wait, length_app. cbn [length]. lia.
    + specialize (IH prev w1). destruct IH as (ups & Hst & Hups & Hreq).
      destruct (CharacterTab.designEach rest prev w1) as [[prev2 w2] evs2].
      cbn [fst snd] in *.
      exists ((Character.id char, fun x => x) :: ups).
      split; [|split].
      * unfold applyAll. cbn [fold_left fst snd]. now rewrite mapWhere_same.
      * constructor; [|exact Hups]. split; [reflexivity|]. now left.
      * rewrite requests_app, length_app. cbn [length]. lia.
Qed.

Lemma designEach_attempts (characters prev : list Character.t) (w : World) :
  credentialed w ->
  (length characters
   <= length (requests (snd (CharacterTab.designEach characters prev w))))%nat.
Proof.
  revert prev w. induction characters as [|char rest IH]; intros prev w Hc;
    cbn [CharacterTab.designEach]; [cbn; lia|].
  pose proof (generateImage_sameKeys
                (constructCharacterPrompt (CharacterTab.asPartial char))
                Ratio_16_9 w) as Hk.
  pose proof (generateImage_sends
                (constructCharacterPrompt (CharacterTab.asPartial char))
                Ratio_16_9 w Hc) as Hs.
  destruct (generateImage _ Ratio_16_9 w) as [[[base64Img|e] w1] evs1];
    cbn [fst snd] in Hk, Hs.
  - specialize (IH (mapWhere Character.id (Character.id char)
                      (CharacterTab.withImageUrl base64Img) prev) w1
                  (credentialed_sameKeys _ _ Hk Hc)).
    destruct (CharacterTab.designEach rest _ w1) as [[prev2 w2] evs2].
    cbn [snd length] in *. rewrite requests_wait, length_app. lia.
  - specialize (IH prev w1 (credentialed_sameKeys _ _ Hk Hc)).
    destruct (CharacterTab.designEach rest prev w1) as [[prev2 w2] evs2].
    cbn [snd length] in *. rewrite requests_app, length_app. lia.
Qed.

(** X22.  The design batch of the character tab, run on characters
    with distinct identifiers: every character is left as it is (when
    image generation failed for it) or has its image replaced and nothing
    else changed: name, description, visual DNA and voice stay.  At most
    six requests are sent per character, and with a credential in place
    at least one: a failure does not stop the batch.  With no character,
    or when the user declines, nothing happens. *)
Theorem character_batch_designs (characters : list Character.t) (w : World) :
  NoDup (map Character.id characters) ->
  let run := CharacterTab.handleGenerateAll true characters characters w in
  Forall2 designed characters (fst (fst run))
  /\ (length (requests (snd run)) <= 6 * length characters)%nat
  /\ (credentialed w -> (length characters <= length (requests (snd run)))%nat)
  /\ CharacterTab.handleGenerateAll false characters characters w
     = (characters, w, []).
Proof.
  intros Hnd run. subst run.
  assert (Hrun : CharacterTab.handleGenerateAll true characters characters w
                 = CharacterTab.designEach characters characters w)
    by now destruct characters.
  rewrite Hrun.
  destruct (designEach_updates characters characters w) as (ups & Hst & Hups & Hreq).
  split; [|split; [exact Hreq|split; [apply designEach_attempts
                                      |now destruct characters]]].
  rewrite Hst.
  pose proof (batch_pointwise Character.id (fun _ => true)
                (fun _ => keepsOrSets CharacterTab.withImageUrl)
                characters ups Hnd Hups) as H.
  assert (Hid : forall (item : Character.t) u,
             keepsOrSets CharacterTab.withImageUrl u ->
             forall x, Character.id (u x) = Character.id x).
  { now intros _ u [->|[b ->]] x. }
  specialize (H Hid). revert H. apply Forall2_impl. intros c c'. unfold designed.
  intros (u & [->|[b ->]] & ->); eauto.
Qed.

(* ---------------------------------------------------------------- *)

Lemma fullSet_requests (scene : PartialScene.t) (between : Z) (w : World) :
  (length (requests (snd (SceneTab.fullSet scene between w))) <= 12)%nat.
Proof.
  unfold SceneTab.fullSet, bind, setTimeout, ret.
  pose proof (imageRequests_length _ _ _
                (imageRequests_generateImage (constructScenePrompt scene)
                   Ratio_16_9 w)) as H1.
  destruct (generateImage (constructScenePrompt scene) Ratio_16_9 w)
    as [[[panImg|e] w1] evs1]; cbn [snd] in *; [|lia].
  pose proof (imageRequests_length _ _ _
                (imageRequests_generateImage (constructSceneGridPrompt scene)
                   Ratio_1_1 w1)) as H2.
  destruct (generateImage (constructSceneGridPrompt scene) Ratio_1_1 w1)
    as [[[gridImg|e] w2] evs2]; cbn [snd app] in *;
    rewrite ?app_nil_r, requests_wait, length_app; lia.
Qed.

Lemma sceneEach_updates (scenes prev : list Scene.t) (w : World) :
  exists ups,
    fst (fst (SceneTab.generateEach scenes prev w))
    = applyAll Scene.id ups prev
    /\ Forall2 (fun item tu =>
                  fst tu = Scene.id item
                  /\ keepsOrSets (fun '(panImg, gridImg) =>
                                    SceneTab.withImages panImg gridImg) (snd tu))
         (filter (fun _ => true) scenes) ups
    /\ (length (requests (snd (SceneTab.generateEach scenes prev w)))
        <= 12 * length scenes)%nat.
Proof.
  revert prev w. induction scenes as [|scene rest IH]; intros prev w;
    cbn [SceneTab.generateEach filter].
  - exists []. repeat split; [constructor|cbn; lia].
  - pose proof (fullSet_requests (SceneTab.asPartial scene) 1000 w) as Hlen.
    destruct (SceneTab.fullSet _ 1000 w) as [[[[panImg gridImg]|e] w1] evs1];
      cbn [snd] in Hlen.
    + specialize (IH (mapWhere Scene.id (Scene.id scene)
                        (SceneTab.withImages panImg gridImg) prev) w1).
      destruct IH as (ups & Hst & Hups & Hreq).
      destruct (SceneTab.generateEach rest _ w1) as [[prev2 w2] evs2].
      cbn [fst snd] in *.
      exists ((Scene.id scene, SceneTab.withImages panImg gridImg) :: ups).
      split; [exact Hst|]. split.
      * constructor; [|exact Hups]. split; [reflexivity|].
        right. now exists (panImg, gridImg).
      * rewrite requests_wait, length_app. cbn [length]. lia.
    + specialize (IH prev w1). destruct IH as (ups & Hst & Hups & Hreq).
      destruct (SceneTab.generateEach rest prev w1) as [[prev2 w2] evs2].
      cbn [fst snd] in *.
      exists ((Scene.id scene, fun x => x) :: ups).
      split; [|split].
      * unfold applyAll. cbn [fold_left fst snd]. now rewrite mapWhere_same.
      * constructor; [|exact Hups]. split; [reflexivity|]. now left.
      * rewrite requests_app, length_app. cbn [length]. lia.
Qed.

Lemma fullSet_sameKeys (scene : PartialScene.t) (between : Z) (w : World) :
  sameKeys w (snd (fst (SceneTab.fullSet scene between w))).
Proof.
  unfold SceneTab.fullSet, bind, setTimeout, ret.
  pose proof (generateImage_sameKeys (constructScenePrompt scene)
                Ratio_16_9 w) as H1.
  destruct (generateImage (constructScenePrompt scene) Ratio_16_9 w)
    as [[[panImg|e] w1] evs1]; cbn [fst snd] in *; [|exact H1].
  pose proof (generateImage_sameKeys (constructSceneGridPrompt scene)
                Ratio_1_1 w1) as H2.
  destruct (generateImage (constructSceneGridPrompt scene) Ratio_1_1 w1)
    as [[[gridImg|e] w2] evs2]; cbn [fst snd] in *;
    now apply (sameKeys_trans _ w1).
Qed.

Lemma fullSet_sends (scene : PartialScene.t) (between : Z) (w : World) :
  credentialed w ->
  (1 <= length (requests (snd (SceneTab.fullSet scene between w))))%nat.
Proof.
  intros Hc. unfold SceneTab.fullSet, bind, setTimeout, ret.
  pose proof (generateImage_sends (constructScenePrompt scene)
                Ratio_16_9 w Hc) as H1.
  destruct (generateImage (constructScenePrompt scene) Ratio_16_9 w)
    as [[[panImg|e] w1] evs1]; cbn [snd] in *; [|exact H1].
  destruct (generateImage (constructSceneGridPrompt scene) Ratio_1_1 w1)
    as [[[gridImg|e] w2] evs2]; cbn [snd app];
    rewrite requests_app, length_app; lia.
Qed.

Lemma sceneEach_attempts (scenes prev : list Scene.t) (w : World) :
  credentialed w ->
  (length scenes
   <= length (requests (snd (SceneTab.generateEach scenes prev w))))%nat.
Proof.
  revert prev w. induction scenes as [|scene rest IH]; intros prev w Hc;
    cbn [SceneTab.generateEach]; [cbn; lia|].
  pose proof (fullSet_sameKeys (SceneTab.asPartial scene) 1000 w) as Hk.
  pose proof (fullSet_sends (SceneTab.asPartial scene) 1000 w Hc) as Hs.
  destruct (SceneTab.fullSet _ 1000 w) as [[[[panImg gridImg]|e] w1] evs1];
    cbn [fst snd] in Hk, Hs.
  - specialize (IH (mapWhere Scene.id (Scene.id scene)
                      (SceneTab.withImages panImg gridImg) prev) w1
                  (credentialed_sameKeys _ _ Hk Hc)).
    destruct (SceneTab.generateEach rest _ w1) as [[prev2 w2] evs2].
    cbn [snd length] in *. rewrite requests_wait, length_app. lia.
  - specialize (IH prev w1 (credentialed_sameKeys _ _ Hk Hc)).
    destruct (SceneTab.generateEach rest prev w1) as [[prev2 w2] evs2].
    cbn [snd length] in *. rewrite requests_app, length_app. lia.
Qed.

(** X23.  The batch of the scene tab, run on scenes with distinct
    identifiers, updates a scene with both images or not at all: every
    scene is left exactly as it is (when the panorama or the grid failed,
    a panorama already generated being dropped) or has both its panorama
    and its grid replaced and nothing else changed.  At most twelve
    requests are sent per scene, and with a credential in place at least
    one: a failure does not stop the batch.  With no scene, or when the
    user declines, nothing happens. *)
Theorem scene_batch_pictures (scenes : list Scene.t) (w : World) :
  NoDup (map Scene.id scenes) ->
  let run := SceneTab.handleGenerateAll true scenes scenes w in
  Forall2 pictured scenes (fst (fst run))
  /\ (length (requests (snd run)) <= 12 * length scenes)%nat
  /\ (credentialed w -> (length scenes <= length (requests (snd run)))%nat)
  /\ SceneTab.handleGenerateAll false scenes scenes w = (scenes, w, []).
Proof.
  intros Hnd run. subst run.
  assert (Hrun : SceneTab.handleGenerateAll true scenes scenes w
                 = SceneTab.generateEach scenes scenes w)
    by now destruct scenes.
  rewrite Hrun.
  destruct (sceneEach_updates scenes scenes w) as (ups & Hst & Hups & Hreq).
  split; [|split; [exact Hreq|split; [apply sceneEach_attempts
                                      |now destruct scenes]]].
  rewrite Hst.
  pose proof (batch_pointwise Scene.id (fun _ => true)
                (fun _ => keepsOrSets (fun '(panImg, gridImg) =>
                                         SceneTab.withImages panImg gridImg))
                scenes ups Hnd Hups) as H.
  assert (Hid : forall (item : Scene.t) u,
             keepsOrSets (fun '(panImg, gridImg) =>
                            SceneTab.withImages panImg gridImg) u ->
             forall x, Scene.id (u x) = Scene.id x).
  { now intros _ u [->|[[p g] ->]] x. }
  specialize (H Hid). revert H. apply Forall2_impl. intros s s'. unfold pictured.
  intros (u & [->|[[p g] ->]] & ->); eauto.
Qed.

End BatchesMore.

(* ================================================================== *)
(** * Applying an analysis *)
(* ================================================================== *)

Section ApplyMore.

Variable randomUUID : nat -> jsstr.

Lemma mapFrom_Forall2 {A B} (R : A -> B -> Prop) (f : nat -> A -> B)
      (k : nat) (l : list A) :
  (forall i a, R a (f i a)) -> Forall2 R l (mapFrom k f l).
Proof.
  intros H. revert k. induction l as [|a l IH]; intros k; cbn [mapFrom];
    constructor; auto.
Qed.

Lemma mapFrom_Forall {A B} (P : B -> Prop) (f : nat -> A -> B)
      (k : nat) (l : list A) :
  (forall i a, In a l -> P (f i a)) -> Forall P (mapFrom k f l).
Proof.
  revert k. induction l as [|a l IH]; intros k H; cbn [mapFrom]; constructor.
  - apply H. now left.
  - apply IH. intros i b Hb. apply H. now right.
Qed.

Lemma mapFrom_map {A B C} (g : B -> C) (h : nat -> A -> C)
      (f : nat -> A -> B) (k : nat) (l : list A) :
  (forall i a, g (f i a) = h i a) ->
  map g (mapFrom k f l) = mapFrom k h l.
Proof.
  intros H. revert k. induction l as [|a l IH]; intros k; cbn [mapFrom map];
    [reflexivity|]. now rewrite H, IH.
Qed.

Lemma mapFrom_const {A C} (h : A -> C) (k : nat) (l : list A) :
  mapFrom k (fun _ a => h a) l = map h l.
Proof.
  revert k. induction l as [|a l IH]; intros k; cbn [mapFrom map];
    [reflexivity|]. now rewrite IH.
Qed.

Lemma mapFrom_draws {A} (k : nat) (l : list A) :
  mapFrom k (fun i _ => randomUUID i) l = map randomUUID (seq k (length l)).
Proof.
  revert k. induction l as [|a l IH]; intros k; cbn [mapFrom map seq length];
    [reflexivity|]. now rewrite IH.
Qed.

Lemma nameOrUnknown_orString (name : option jsstr) :
  orString name (js "Unknown") = nameOrUnknown name.
Proof. now destruct name as [[|c s]|]. Qed.

Lemma nameOrUnknown_nonempty (name : option jsstr) : nameOrUnknown name <> [].
Proof. destruct name as [[|c s]|]; cbn; try discriminate; vm_compute; discriminate. Qed.

(** X24.  What [handleApply] makes of an analysis.  Every character
    and scene it adopts has a name that is not empty, the one given or
    Unknown, and an empty image; they are appended after those already
    there, in order.  The storyboard is replaced: there is exactly one
    frame per panel, in order and carrying the panel's data unchanged,
    pending, without image or audio.  The characters tab is opened. *)
Theorem handleApply_result (drawn : nat) (data : ScriptTab.ExtractedData)
        (st : App.state) :
  let st' := ScriptTab.handleApply randomUUID drawn (Some data) st in
  App.activeTab st' = CHARACTERS
  /\ App.script st' = App.script st
  /\ (exists newChars,
        App.characters st' = App.characters st ++ newChars
        /\ Forall2 adoptedCharacter (ScriptTab.characters data) newChars)
  /\ (exists newScenes,
        App.scenes st' = App.scenes st ++ newScenes
        /\ Forall2 adoptedScene (ScriptTab.scenes data) newScenes)
  /\ map StoryboardFrame.panel (App.frames st') = ScriptTab.panels data
  /\ Forall fresh (App.frames st').
Proof.
  cbv zeta. unfold ScriptTab.handleApply.
  cbn [App.activeTab App.script App.characters App.scenes App.frames].
  repeat match goal with |- _ /\ _ => split end; try reflexivity.
  - eexists. split; [reflexivity|]. apply mapFrom_Forall2. intros i c.
    unfold adoptedCharacter, ScriptTab.newCharacter.
    cbn [Character.name Character.description Character.visualPrompt
         Character.imageUrl].
    rewrite nameOrUnknown_orString.
    repeat split. apply nameOrUnknown_nonempty.
  - eexists. split; [reflexivity|]. apply mapFrom_Forall2. intros i s.
    unfold adoptedScene, ScriptTab.newScene.
    cbn [Scene.name Scene.description Scene.visualPrompt Scene.imageUrl].
    rewrite nameOrUnknown_orString.
    repeat split. apply nameOrUnknown_nonempty.
  - rewrite (mapFrom_map _ (fun _ p => p)); [|reflexivity].
    rewrite mapFrom_const. apply map_id.
  - apply mapFrom_Forall. intros i p _. now repeat split.
Qed.

Lemma find_app_none {A} (f : A -> bool) (l1 l2 : list A) :
  Forall (fun a => f a = false) l1 -> find f (l1 ++ l2) = find f l2.
Proof. induction 1 as [|a l Ha _ IH]; cbn [app find]; [reflexivity|now rewrite Ha]. Qed.

(** Characters unrelated to the names of a panel make no difference to
    its prompt. *)
Lemma constructPanelPrompt_strangers (p : DeclaredPanel)
      (prior roster : list Character.t) (scene : option Scene.t) :
  (forall c n, In c prior -> In n (ScriptPanel.charactersPresent p) ->
               fuzzyMatch n c = false) ->
  constructPanelPrompt p (prior ++ roster) scene
  = constructPanelPrompt p roster scene.
Proof.
  intros H. rewrite !constructPanelPrompt_sections. f_equal.
  unfold charactersSection.
  destruct (ScriptPanel.charactersPresent p) as [|n names]; [reflexivity|].
  do 3 f_equal. apply map_ext_in. intros m Hm. f_equal.
  apply find_app_none. apply Forall_forall. intros c Hc. now apply H.
Qed.

Lemma find_scene_by_id (scenes : list Scene.t) (s : Scene.t) :
  NoDup (map Scene.id scenes) -> In s scenes ->
  find (fun x => sameId (Scene.id x) (Some (Scene.id s))) scenes = Some s.
Proof.
  intros Hnd Hin. cbn [sameId].
  destruct (find _ scenes) as [g|] eqn:F.
  - apply find_some in F. destruct F as [Hg E]. apply str_eqb_eq in E.
    f_equal. now apply (NoDup_ids_inj Scene.id scenes).
  - apply (find_none _ _ F) in Hin. now rewrite str_eqb_refl in Hin.
Qed.

Lemma NoDup_map_injective {A B} (f : A -> B) (l : list A) :
  (forall x y, f x = f y -> x = y) -> NoDup l -> NoDup (map f l).
Proof.
  intros Hf. induction 1 as [|a l Hnot _ IH]; cbn [map]; constructor; auto.
  intros Hin. apply in_map_iff in Hin. destruct Hin as (x & E & Hx).
  apply Hf in E. now subst x.
Qed.

Lemma newScenes_ids (k : nat) (l : list PartialScene.t) :
  map Scene.id (mapFrom k (ScriptTab.newScene randomUUID) l)
  = map randomUUID (seq k (length l)).
Proof.
  rewrite (mapFrom_map _ (fun i _ => randomUUID i)); [|reflexivity].
  apply mapFrom_draws.
Qed.

(** X25.  What the script tab shows is what the storyboard tab sends.
    When identifiers drawn are pairwise distinct, no scene already there
    bears a drawn identifier, and no character already there is related to
    a name listed on a panel, then for every frame [handleApply] creates,
    the prompt it stores as preview is the prompt [generateFrame] rebuilds
    from the characters and scenes of the new state. *)
Theorem handleApply_preview_is_sent (drawn : nat)
        (data : ScriptTab.ExtractedData) (st : App.state) :
  (forall i j, randomUUID i = randomUUID j -> i = j) ->
  (forall s k, In s (App.scenes st) -> Scene.id s <> randomUUID k) ->
  strangersTo (ScriptTab.panels data) (App.characters st) ->
  let st' := ScriptTab.handleApply randomUUID drawn (Some data) st in
  Forall (fun f =>
            StoryboardFrame.currentPrompt f
            = StoryboardTab.promptToUse (App.characters st') (App.scenes st') f)
    (App.frames st').
Proof.
  intros Hinj Hprior Hstrangers. cbv zeta. unfold ScriptTab.handleApply.
  cbn [App.characters App.scenes App.frames].
  set (newChars := mapFrom drawn (ScriptTab.newCharacter randomUUID)
                     (ScriptTab.characters data)).
  set (k := (drawn + length (ScriptTab.characters data))%nat).
  set (newScenes := mapFrom k (ScriptTab.newScene randomUUID)
                      (ScriptTab.scenes data)).
  assert (Hnd : NoDup (map Scene.id newScenes)).
  { subst newScenes. rewrite newScenes_ids.
    apply NoDup_map_injective; [exact Hinj|apply seq_NoDup]. }
  assert (Hdrawn : forall s, In s newScenes -> exists i, Scene.id s = randomUUID i).
  { intros s Hs. apply (in_map Scene.id) in Hs. subst newScenes.
    rewrite newScenes_ids in Hs. apply in_map_iff in Hs.
    destruct Hs as (i & E & _). now exists i. }
  apply mapFrom_Forall. intros i p Hp.
  unfold ScriptTab.newFrame, StoryboardTab.promptToUse.
  cbn [StoryboardFrame.currentPrompt StoryboardFrame.panel
       StoryboardFrame.assignedSceneId].
  rewrite constructPanelPrompt_strangers
    by (intros c n Hc Hn; now apply (Hstrangers c p n)).
  f_equal.
  destruct (find (ScriptTab.sceneMatches _) newScenes) as [s|] eqn:F;
    cbn [option_map].
  - apply find_some in F. destruct F as [Hs _].
    rewrite find_app_none; [now rewrite find_scene_by_id|].
    apply Forall_forall. intros s0 Hs0. cbn [sameId]. apply str_eqb_neq.
    destruct (Hdrawn s Hs) as [j Ej]. rewrite Ej. now apply Hprior.
  - symmetry. apply find_none_forall. apply Forall_forall. now intros s0 _.
Qed.

End ApplyMore.

(* ================================================================== *)
(** * Settings and the credential *)
(* ================================================================== *)

Section SettingsMore.

Context {platform : Platform}.

(** X26.  The settings tab governs the credential of every later call.
    Saving a key that holds more than white space stores it trimmed, and
    every request of every service operation run afterwards carries that
    trimmed key, whatever key was stored before and whatever the built-in
    key is; saving white space only changes nothing.  After deleting,
    the operations use the built-in key, and fail with the missing
    credential error, sending nothing, when there is none. *)
Theorem settings_govern_credential (s : SettingsTab.state) (w : World)
        (op : NetworkOperation) :
  (trim (SettingsTab.apiKey s) <> [] ->
   SettingsTab.savedKey (fst (SettingsTab.handleSave s w))
   = trim (SettingsTab.apiKey s)
   /\ localStorage_gemini_api_key (snd (SettingsTab.handleSave s w))
      = Some (trim (SettingsTab.apiKey s))
   /\ allRequestsCarry (trim (SettingsTab.apiKey s))
        (snd (perform op (snd (SettingsTab.handleSave s w)))))
  /\ (trim (SettingsTab.apiKey s) = [] -> SettingsTab.handleSave s w = (s, w))
  /\ (forall k, holdsKey (process_env_API_KEY w) k ->
        allRequestsCarry k
          (snd (perform op (snd (SettingsTab.handleDelete s w)))))
  /\ (holdsNoKey (process_env_API_KEY w) ->
      perform op (snd (SettingsTab.handleDelete s w))
      = (Rejected credentialMissing, snd (SettingsTab.handleDelete s w), [])).
Proof.
  repeat match goal with |- _ /\ _ => split end.
  - intros Hk. unfold SettingsTab.handleSave.
    rewrite (proj2 (nonEmpty_true _) Hk). cbn [negb fst snd].
    split; [reflexivity|]. split; [reflexivity|].
    apply (perform_with_client op _ {| apiKey := trim (SettingsTab.apiKey s) |}).
    apply getAI_stored. split; [reflexivity|exact Hk].
  - intros Hk. unfold SettingsTab.handleSave. now rewrite Hk.
  - intros k Hk. apply (perform_with_client op _ {| apiKey := k |}).
    apply getAI_default; [now left|exact Hk].
  - intros Hno. apply perform_without_client. apply getAI_missing;
      [now left|exact Hno].
Qed.

End SettingsMore.

(* ================================================================== *)
(** * The handlers on a small project *)
(* ================================================================== *)

(** Identifiers given as literals are distinct. *)
Ltac distinct_ids :=
  vm_compute;
  repeat (apply NoDup_cons;
          [ let H := fresh in
            intros H; cbn [In] in H;
            repeat (destruct H as [H|H]; [discriminate H|]); exact H
          | ]);
  apply NoDup_nil.

Lemma scripted_credentialed (script : list Reply) :
  @credentialed (scripted []) (world [] (Some storedKey) None script).
Proof. exists client. reflexivity. Qed.

Lemma storyboard_batch_settles_witness :
  let w := world [] (Some storedKey) None
             [ContentReply (Resolved captionedImageResponse)] in
  let run := @StoryboardTab.handleGenerateAll (scripted []) [alice; bob] [harbour]
               true [pierFrame; helloFrame] [pierFrame; helloFrame] w in
  NoDup (map StoryboardFrame.id [pierFrame; helloFrame])
  /\ Forall2 (settled [alice; bob] [harbour]) [pierFrame; helloFrame]
       (fst (fst run))
  /\ (1 <= length (requests (snd run)) <= 6)%nat.
Proof.
  intros w run.
  assert (Hnd : NoDup (map StoryboardFrame.id [pierFrame; helloFrame]))
    by distinct_ids.
  destruct (storyboard_batch_settles [alice; bob] [harbour]
              [pierFrame; helloFrame] w Hnd) as (Hst & Hreq & Hlow & _).
  split; [exact Hnd|]. split; [exact Hst|].
  split; [exact (Hlow (scripted_credentialed _))|exact Hreq].
Defined.

(** The pending frame comes out done, with the image and the prompt
    that was sent; the finished one is as before. *)
Example storyboard_batch_example :
  let w := world [] (Some storedKey) None
             [ContentReply (Resolved captionedImageResponse)] in
  fst (fst (@StoryboardTab.handleGenerateAll (scripted []) [alice; bob] [harbour]
              true [pierFrame; helloFrame] [pierFrame; helloFrame] w))
  = [StoryboardFrame.withImage (js "data:image/png;base64,iVBORw0KGgo")
       (constructPanelPrompt (panelWith [js "Alice"]) [alice; bob] None)
       pierFrame;
     helloFrame].
Proof. vm_compute. reflexivity. Qed.

(** One frame generated twice: the provider answers the first call with
    an image and turns down both tiers of the second.  The frame comes out
    done with the image and the prompt sent, then in error with both
    kept; the other frame is as before. *)
Example generateFrame_example :
  let w := world [] (Some storedKey) None
             [ContentReply (Resolved captionedImageResponse);
              ContentReply (Rejected badRequest);
              ImagesReply (Rejected quotaExceeded)] in
  let prompt :=
    constructPanelPrompt (panelWith [js "Alice"]) [alice; bob] None in
  let drawn :=
    StoryboardFrame.withImage (js "data:image/png;base64,iVBORw0KGgo") prompt
      pierFrame in
  let first :=
    @StoryboardTab.generateFrame (scripted []) [alice; bob] [harbour] pierFrame
      [pierFrame; helloFrame] w in
  let second :=
    @StoryboardTab.generateFrame (scripted []) [alice; bob] [harbour] pierFrame
      (fst (fst first)) (snd (fst first)) in
  fst (fst first) = [drawn; helloFrame]
  /\ fst (fst second)
     = [StoryboardFrame.withStatus StoryboardFrame.error drawn; helloFrame]
  /\ map StoryboardFrame.status (fst (fst second))
     = [StoryboardFrame.error; StoryboardFrame.done].
Proof. split; [|split]; vm_compute; reflexivity. Qed.

Lemma storyboard_edits_keep_preview_witness :
  NoDup (map StoryboardFrame.id [pierFrame; helloFrame])
  /\ In helloFrame [pierFrame; helloFrame]
  /\ Forall2 (fun f f' =>
                if str_eqb (StoryboardFrame.id f) (StoryboardFrame.id helloFrame)
                then f' = rebound [alice; bob] [harbour] (js "s-harbour") helloFrame
                else f' = f)
       [pierFrame; helloFrame]
       (StoryboardTab.handleAssignScene [alice; bob] [harbour]
          (StoryboardFrame.id helloFrame) (js "s-harbour")
          [pierFrame; helloFrame])
  /\ StoryboardFrame.currentPrompt
       (rebound [alice; bob] [harbour] (js "s-harbour") helloFrame)
     = StoryboardTab.promptToUse [alice; bob] [harbour]
         (rebound [alice; bob] [harbour] (js "s-harbour") helloFrame).
Proof.
  assert (Hnd : NoDup (map StoryboardFrame.id [pierFrame; helloFrame]))
    by distinct_ids.
  assert (Hin : In helloFrame [pierFrame; helloFrame]) by (right; now left).
  destruct (storyboard_edits_keep_preview [alice; bob] [harbour]
              [pierFrame; helloFrame] helloFrame (js "Bob") (js "s-harbour")
              Hnd Hin) as (_ & Hscene & _ & Hprompt).
  split; [exact Hnd|]. split; [exact Hin|]. split; [exact Hscene|exact Hprompt].
Defined.

(** Toggling Bob on the second frame lists him after Alice, and toggling
    Alice leaves no name. *)
Example toggleCharacterInFrame_example :
  map namesOf
    (StoryboardTab.toggleCharacterInFrame [alice; bob] [harbour]
       [pierFrame; helloFrame] (js "f-2") (js "Bob") [pierFrame; helloFrame])
  = [[js "Alice"]; [js "Alice"; js "Bob"]]
  /\ map namesOf
       (StoryboardTab.toggleCharacterInFrame [alice; bob] [harbour]
          [pierFrame; helloFrame] (js "f-2") (js "Alice") [pierFrame; helloFrame])
     = [[js "Alice"]; []].
Proof. split; vm_compute; reflexivity. Qed.

Lemma audio_batch_voices_witness :
  let w := world [] (Some storedKey) None
             [ContentReply (Resolved (audioResponse (js "AQID")))] in
  let run := @AudioTab.handleGenerateAllAudio (scripted []) [alice; bob]
               (fun _ => None) [pierFrame; helloFrame] [pierFrame; helloFrame] w in
  NoDup (map StoryboardFrame.id [pierFrame; helloFrame])
  /\ Forall2 voiced [pierFrame; helloFrame] (fst (fst run))
  /\ (1 <= length (requests (snd run)) <= 3)%nat.
Proof.
  intros w run.
  assert (Hnd : NoDup (map StoryboardFrame.id [pierFrame; helloFrame]))
    by distinct_ids.
  destruct (audio_batch_voices [alice; bob] (fun _ => None)
              [pierFrame; helloFrame] w Hnd) as (Hst & Hreq & Hlow).
  split; [exact Hnd|]. split; [exact Hst|].
  assert (Hcount : length (filter awaitsVoice [pierFrame; helloFrame]) = 1%nat)
    by (vm_compute; reflexivity).
  rewrite Hcount in Hreq, Hlow.
  split; [exact (Hlow (scripted_credentialed _))|exact Hreq].
Defined.

(** The frame without dialogue stays silent; the other one gets the URL
    of the first object registered. *)
Example audio_batch_example :
  let w := world [] (Some storedKey) None
             [ContentReply (Resolved (audioResponse (js "AQID")))] in
  fst (fst (@AudioTab.handleGenerateAllAudio (scripted []) [alice; bob]
              (fun _ => None) [pierFrame; helloFrame] [pierFrame; helloFrame] w))
  = [pierFrame; StoryboardFrame.withAudioUrl (js "blob:0") helloFrame].
Proof. vm_compute. reflexivity. Qed.

Lemma character_batch_designs_witness :
  let w := world [] (Some storedKey) None
             [ContentReply (Rejected badRequest);
              ImagesReply (Rejected badRequest);
              ContentReply (Resolved captionedImageResponse)] in
  let run := @CharacterTab.handleGenerateAll (scripted []) true
               [alice; bob] [alice; bob] w in
  NoDup (map Character.id [alice; bob])
  /\ Forall2 designed [alice; bob] (fst (fst run))
  /\ (2 <= length (requests (snd run)) <= 12)%nat.
Proof.
  intros w run.
  assert (Hnd : NoDup (map Character.id [alice; bob])) by distinct_ids.
  destruct (character_batch_designs [alice; bob] w Hnd) as (Hst & Hreq & Hlow & _).
  split; [exact Hnd|]. split; [exact Hst|].
  split; [exact (Hlow (scripted_credentialed _))|exact Hreq].
Defined.

(** Both tiers fail for the first character; the second one still gets
    its image. *)
Example character_batch_example :
  let w := world [] (Some storedKey) None
             [ContentReply (Rejected badRequest);
              ImagesReply (Rejected badRequest);
              ContentReply (Resolved captionedImageResponse)] in
  fst (fst (@CharacterTab.handleGenerateAll (scripted []) true
              [alice; bob] [alice; bob] w))
  = [alice;
     CharacterTab.withImageUrl (js "data:image/png;base64,iVBORw0KGgo") bob].
Proof. vm_compute. reflexivity. Qed.

Lemma scene_batch_pictures_witness :
  let w := world [] (Some storedKey) None
             [ContentReply (Resolved captionedImageResponse);
              ContentReply (Rejected badRequest)] in
  let run := @SceneTab.handleGenerateAll (scripted []) true
               [harbour; market] [harbour; market] w in
  NoDup (map Scene.id [harbour; market])
  /\ Forall2 pictured [harbour; market] (fst (fst run))
  /\ (2 <= length (requests (snd run)) <= 24)%nat.
Proof.
  intros w run.
  assert (Hnd : NoDup (map Scene.id [harbour; market])) by distinct_ids.
  destruct (scene_batch_pictures [harbour; market] w Hnd) as (Hst & Hreq & Hlow & _).
  split; [exact Hnd|]. split; [exact Hst|].
  split; [exact (Hlow (scripted_credentialed _))|exact Hreq].
Defined.

(** The panorama of the first scene arrives, its grid does not: the scene
    is left without either. *)
Example scene_batch_example :
  let w := world [] (Some storedKey) None
             [ContentReply (Resolved captionedImageResponse);
              ContentReply (Rejected badRequest)] in
  fst (fst (@SceneTab.handleGenerateAll (scripted []) true
              [harbour; market] [harbour; market] w))
  = [harbour; market].
Proof. vm_compute. reflexivity. Qed.

Lemma countingUUID_injective (i j : nat) :
  countingUUID i = countingUUID j -> i = j.
Proof.
  unfold countingUUID. intros H. apply app_inv_head in H.
  apply (f_equal (@length N)) in H. now rewrite !repeat_length in H.
Qed.

Lemma handleApply_preview_is_sent_witness :
  let st := {| App.activeTab := SCRIPT; App.characters := [bob];
               App.scenes := [market]; App.script := scriptLine;
               App.frames := [helloFrame] |} in
  let st' := ScriptTab.handleApply countingUUID 0 (Some pierAnalysis) st in
  strangersTo (ScriptTab.panels pierAnalysis) (App.characters st)
  /\ Forall (fun f =>
               StoryboardFrame.currentPrompt f
               = StoryboardTab.promptToUse (App.characters st') (App.scenes st') f)
       (App.frames st').
Proof.
  intros st st'.
  assert (Hstr : strangersTo (ScriptTab.panels pierAnalysis) (App.characters st)).
  { intros c p n [<-|[]] [<-|[]] [<-|[]]. vm_compute. reflexivity. }
  assert (Hprior : forall s k, In s (App.scenes st) -> Scene.id s <> countingUUID k).
  { intros s k [<-|[]]. unfold countingUUID. intros H.
    apply (f_equal (fun l => nth 0 l 0%N)) in H.
    destruct k; vm_compute in H; discriminate H. }
  split; [exact Hstr|].
  exact (handleApply_preview_is_sent countingUUID 0 pierAnalysis st
           countingUUID_injective Hprior Hstr).
Defined.

(** The analysis applied to the empty project: the nameless character
    becomes Unknown, and the frame is bound to the pier, which its
    description mentions. *)
Example handleApply_example :
  let st := ScriptTab.handleApply countingUUID 0 (Some pierAnalysis) App.initial in
  map Character.name (App.characters st) = [js "Unknown"]
  /\ map Scene.id (App.scenes st) = [countingUUID 1]
  /\ map StoryboardFrame.assignedSceneId (App.frames st) = [Some (countingUUID 1)]
  /\ map StoryboardFrame.id (App.frames st) = [countingUUID 2].
Proof. repeat split; vm_compute; reflexivity. Qed.

Lemma settings_govern_credential_witness :
  let s := {| SettingsTab.apiKey := js "  AIza-new ";
              SettingsTab.savedKey := storedKey;
              SettingsTab.status := SettingsTab.idle |} in
  let w := world [] (Some storedKey) (Some builtInKey)
             [ContentReply (Rejected badRequest)] in
  let op := GenerateSpeech (js "hi") voiceNameDefault in
  trim (SettingsTab.apiKey s) = js "AIza-new"
  /\ allRequestsCarry (js "AIza-new")
       (snd (@perform (scripted []) op (snd (SettingsTab.handleSave s w))))
  /\ allRequestsCarry builtInKey
       (snd (@perform (scripted []) op (snd (SettingsTab.handleDelete s w)))).
Proof.
  intros s w op.
  assert (Htrim : trim (SettingsTab.apiKey s) = js "AIza-new")
    by (vm_compute; reflexivity).
  destruct (settings_govern_credential s w op) as (Hsave & _ & Hdelete & _).
  split; [exact Htrim|]. split.
  - rewrite <- Htrim. apply Hsave. rewrite Htrim. discriminate.
  - apply Hdelete. split; [reflexivity|discriminate].
Defined.

(* ================================================================== *)
(** * The analysis of a script *)
(* ================================================================== *)

Section AnalyzeMore.

Context {platform : Platform}.

Lemma parseThen_silent {A} (text : jsstr) (body : JsVal -> option A)
      (w : World) :
  snd (parseThen text body w) = [].
Proof.
  unfold parseThen. destruct (JSON_parse text) as [v|]; [|reflexivity].
  now destruct (body v).
Qed.

(** An analysis is one invoker call with the default retry count: at most
    four requests. *)
Lemma analysis_requests {A} (ai : GoogleGenAI) (params : ContentParameters.t)
      (k : GenerateContentResponse -> M A) (w : World) :
  (forall r w1, snd (k r w1) = []) ->
  (length (requests
             (snd (bind (withRetry (generateContent ai params)
                           retriesDefault delayDefault) k w))) <= 4)%nat.
Proof.
  intros Hk.
  pose proof (withRetry_requests_repeat _ _ retriesDefault delayDefault w
                (generateContent_one_request ai params)) as Hreq.
  pose proof (withRetry_attempts_bound (generateContent ai params)
                retriesDefault delayDefault w) as Hle.
  unfold bind.
  destruct (withRetry (generateContent ai params) retriesDefault delayDefault w)
    as [[[r|e] w1] evs]; cbn [snd] in *.
  - specialize (Hk r w1). destruct (k r w1) as [[r2 w2] evs2].
    cbn [snd] in *. subst evs2.
    rewrite app_nil_r, Hreq, repeat_length. exact Hle.
  - rewrite Hreq, repeat_length. exact Hle.
Qed.

Lemma extractWorldInfo_requests (scriptText : jsstr) (w : World) :
  (length (requests (snd (extractWorldInfo scriptText w))) <= 4)%nat.
Proof.
  unfold extractWorldInfo. destruct (getAI_cases w) as [[ai Hai]|Hai].
  - rewrite (bind_after_getAI _ w ai Hai). apply analysis_requests.
    intros r w1. destruct (response_text r) as [text|]; [|reflexivity].
    destruct (nonEmpty text); [apply parseThen_silent|reflexivity].
  - rewrite (bind_getAI_rejected _ w _ Hai). cbn. lia.
Qed.

Lemma analyzeScript_requests (scriptText : jsstr) (roster : list Character.t)
      (w : World) :
  (length (requests (snd (analyzeScript scriptText roster w))) <= 4)%nat.
Proof.
  unfold analyzeScript. destruct (getAI_cases w) as [[ai Hai]|Hai].
  - rewrite (bind_after_getAI _ w ai Hai). apply analysis_requests.
    intros r w1. destruct (response_text r) as [text|]; [|reflexivity].
    destruct (nonEmpty text); [apply parseThen_silent|reflexivity].
  - rewrite (bind_getAI_rejected _ w _ Hai). cbn. lia.
Qed.

(** X27.  [handleAnalyze] stores both analyses or nothing.  On a
    script that holds more than white space it ends done, with the
    characters and scenes [extractWorldInfo] returned and the panels
    [analyzeScript] returned for the names of those characters, or it ends
    idle with the extracted data it had before: when either analysis
    fails, or when the characters returned are no array, hold a null, or
    hold a name that cannot be printed, the result of the first analysis
    is dropped.  At most eight requests
    are sent.  On a script of white space only nothing happens. *)
Theorem handleAnalyze_outcome (script : jsstr) (s : ScriptTab.state)
        (w : World) :
  let run := ScriptTab.handleAnalyze script s w in
  (trim script = [] -> run = (s, w, []))
  /\ (trim script <> [] ->
      ((exists worldData roster panels w1 evs1 evs2,
           extractWorldInfo script w = (Resolved worldData, w1, evs1)
           /\ ScriptTab.rosterOf (characters worldData) = Some roster
           /\ analyzeScript script roster w1
              = (Resolved panels, snd (fst run), evs2)
           /\ snd run = evs1 ++ evs2
           /\ fst (fst run)
              = {| ScriptTab.status := ScriptTab.done;
                   ScriptTab.extractedData :=
                     Some {| ScriptTab.returnedCharacters := characters worldData;
                             ScriptTab.returnedScenes := scenes worldData;
                             ScriptTab.returnedPanels := panels |} |})
       \/ fst (fst run)
          = {| ScriptTab.status := ScriptTab.idle;
               ScriptTab.extractedData := ScriptTab.extractedData s |})
      /\ (length (requests (snd run)) <= 8)%nat).
Proof.
  cbv zeta. unfold ScriptTab.handleAnalyze. split.
  - now intros ->.
  - intros Hne. rewrite (proj2 (nonEmpty_true _) Hne). cbn [negb].
    pose proof (extractWorldInfo_requests script w) as H1.
    destruct (extractWorldInfo script w) as [[[worldData|e] w1] evs1];
      cbn [snd] in H1; [|split; [now right|cbn [snd]; lia]].
    destruct (ScriptTab.rosterOf (characters worldData)) as [roster|] eqn:Hr;
      [|split; [now right|cbn [snd]; lia]].
    pose proof (analyzeScript_requests script roster w1) as H2.
    destruct (analyzeScript script roster w1) as [[[panels|e] w2] evs2] eqn:Ha;
      cbn [snd] in H2; (split; [|cbn [snd]; rewrite requests_app, length_app; lia]).
    + left. exists worldData, roster, panels, w1, evs1, evs2.
      cbn [fst snd]. repeat split; auto.
    + now right.
Qed.

End AnalyzeMore.

Lemma handleAnalyze_outcome_witness :
  let s := {| ScriptTab.status := ScriptTab.idle;
              ScriptTab.extractedData := None |} in
  let w := world moreParses (Some storedKey) None
             [ContentReply (Resolved (bodyOnly miaBody));
              ContentReply (Resolved (bodyOnly pierBody))] in
  let run := @ScriptTab.handleAnalyze (scripted moreParses) scriptLine s w in
  trim scriptLine <> []
  /\ ScriptTab.status (fst (fst run)) = ScriptTab.done
  /\ (length (requests (snd run)) <= 8)%nat.
Proof.
  intros s w run.
  assert (Hne : trim scriptLine <> []) by (vm_compute; discriminate).
  destruct (handleAnalyze_outcome scriptLine s w) as [_ H].
  destruct (H Hne) as [_ Hreq].
  split; [exact Hne|]. split; [vm_compute; reflexivity|exact Hreq].
Defined.

(** The two bodies in a row: the character Mia and the three panels of
    the pier are stored; the scenes, sent as a string, are stored as
    sent. *)
Example handleAnalyze_example :
  let s := {| ScriptTab.status := ScriptTab.idle;
              ScriptTab.extractedData := None |} in
  let w := world moreParses (Some storedKey) None
             [ContentReply (Resolved (bodyOnly miaBody));
              ContentReply (Resolved (bodyOnly pierBody))] in
  fst (fst (@ScriptTab.handleAnalyze (scripted moreParses) scriptLine s w))
  = {| ScriptTab.status := ScriptTab.done;
       ScriptTab.extractedData :=
         Some {| ScriptTab.returnedCharacters :=
                   JArr [JObj [(js "name", JStr (js "Mia"))]];
                 ScriptTab.returnedScenes := JStr (js "none");
                 ScriptTab.returnedPanels :=
                   [ScriptPanel.make 3 (js "  Wide shot of the pier. ") []
                      (Some []) (Some (js "Wide"));
                    ScriptPanel.make 0 establishingShot [] (Some [])
                      (Some (js "Medium Shot"));
                    ScriptPanel.make 0
                      (js "Mia&Bob saying: " ++ DQUOTE ++ js "Ahoy there!..."
                       ++ DQUOTE
                       ++ js ". Cinematic lighting, detailed expression.")
                      [JStr (js "Mia"); JStr (js "Bob")]
                      (Some (js "Ahoy there!")) (Some (js "Medium Shot"))] |} |}.
Proof. vm_compute. reflexivity. Qed.

(* ================================================================== *)
(** * What the batches send *)
(* ================================================================== *)

Section BatchRequests.

Context {platform : Platform}.

Lemma generateImage_requestFor (prompt : jsstr) (ar : AspectRatio) (w : World) :
  Forall (imageRequestFor prompt ar) (requests (snd (generateImage prompt ar w))).
Proof.
  destruct (generateImage_requests_shape prompt ar w)
    as (key & n1 & n2 & _ & _ & -> & _).
  apply Forall_app. split; apply Forall_forall; intros c Hc;
    apply repeat_spec in Hc; subst c; exists key; auto.
Qed.

Lemma generateSpeech_requestFor (text voiceName : jsstr) (w : World) :
  Forall (speechRequestFor text voiceName)
    (requests (snd (generateSpeech text voiceName w))).
Proof.
  destruct (getAI_cases w) as [[ai Hai]|Hai].
  - pose proof (speech_requests ai text voiceName w) as [Hreq _].
    assert (Hall : Forall (speechRequestFor text voiceName)
                     (requests (snd (withRetry
                                       (generateContent ai (speechRequest text voiceName))
                                       2 delayDefault w)))).
    { rewrite Hreq. apply Forall_forall. intros c Hc.
      apply repeat_spec in Hc. subst c. now exists (apiKey ai). }
    destruct (withRetry (generateContent ai (speechRequest text voiceName))
                2 delayDefault w) as [[[response|e] w1] evs] eqn:Hrun;
      cbn [snd] in Hall.
    + rewrite (generateSpeech_unfold _ _ _ _ _ _ _ Hai Hrun).
      assert (Hevs : forall run : Outcome jsstr * World * list Event,
                snd run = [] ->
                requests (snd (let '(r, w2, evs2) := run in (r, w2, evs ++ evs2)))
                = requests evs).
      { intros [[r w2] evs2]. cbn [snd]. intros ->. now rewrite app_nil_r. }
      rewrite Hevs; [exact Hall|].
      destruct (firstInlineData response) as [b|]; [|reflexivity].
      destruct (nonEmpty b); [apply pcmBase64ToWavUrl_silent|reflexivity].
    + unfold generateSpeech. rewrite (bind_after_getAI _ w ai Hai).
      unfold bind. now rewrite Hrun.
  - unfold generateSpeech. rewrite (bind_getAI_rejected _ w _ Hai). constructor.
Qed.

Lemma sentFor_step {A} (item : A) (rest : list A) (selected : A -> bool)
      (requestFor : A -> Call -> Prop) (evs1 evs2 : list Event) :
  selected item = true ->
  Forall (requestFor item) (requests evs1) ->
  sentFor rest selected requestFor evs2 ->
  sentFor (item :: rest) selected requestFor (evs1 ++ evs2).
Proof.
  intros Hsel H1 H2. unfold sentFor in *. rewrite requests_app.
  apply Forall_app. split.
  - revert H1. apply Forall_impl. intros c Hc. exists item.
    split; [now left|now split].
  - revert H2. apply Forall_impl. intros c (x & Hx & Hs & Hc). exists x.
    split; [now right|now split].
Qed.

Lemma sentFor_skip {A} (item : A) (rest : list A) (selected : A -> bool)
      (requestFor : A -> Call -> Prop) (evs : list Event) :
  sentFor rest selected requestFor evs ->
  sentFor (item :: rest) selected requestFor evs.
Proof.
  unfold sentFor. apply Forall_impl. intros c (x & Hx & Hs & Hc). exists x.
  split; [now right|now split].
Qed.

(** X28.  The batches send nothing but the prompts of their own
    items.  Every request of the storyboard batch carries the prompt
    rebuilt for an unfinished frame; every request of the audio batch
    carries the dialogue of a frame that awaits a voice, with the voice
    [getVoiceForFrame] finds for it; every request of the design batch
    carries the model sheet prompt of one of the characters; every request
    of the scene batch carries the panorama prompt or the grid prompt of
    one of the scenes. *)
Theorem batches_send_their_prompts :
  (forall characters scenes frames prev w,
      sentFor frames StoryboardTab.unfinished
        (fun f => imageRequestFor
                    (StoryboardTab.promptToUse characters scenes f) Ratio_16_9)
        (snd (StoryboardTab.handleGenerateAll characters scenes true
                frames prev w)))
  /\ (forall characters charVoiceMap frames prev w,
        sentFor frames awaitsVoice
          (fun f => speechRequestFor (AudioTab.dialogueOf f)
                      (AudioTab.getVoiceForFrame characters charVoiceMap f))
          (snd (AudioTab.handleGenerateAllAudio characters charVoiceMap
                  frames prev w)))
  /\ (forall characters prev w,
        sentFor characters (fun _ => true)
          (fun c => imageRequestFor
                      (constructCharacterPrompt (CharacterTab.asPartial c))
                      Ratio_16_9)
          (snd (CharacterTab.handleGenerateAll true characters prev w)))
  /\ (forall scenes prev w,
        sentFor scenes (fun _ => true)
          (fun s c =>
             imageRequestFor (constructScenePrompt (SceneTab.asPartial s))
               Ratio_16_9 c
             \/ imageRequestFor (constructSceneGridPrompt (SceneTab.asPartial s))
                  Ratio_1_1 c)
          (snd (SceneTab.handleGenerateAll true scenes prev w))).
Proof.
  repeat match goal with |- _ /\ _ => split end.
  - intros characters scenes frames. unfold StoryboardTab.handleGenerateAll.
    induction frames as [|frame rest IH]; intros prev w;
      cbn [StoryboardTab.generateEach]; [constructor|].
    destruct (StoryboardTab.unfinished frame) eqn:Hu;
      [|apply sentFor_skip, IH].
    rewrite generateFrame_run. cbv zeta.
    pose proof (generateImage_requestFor
                  (StoryboardTab.promptToUse characters scenes frame)
                  Ratio_16_9 w) as H1.
    destruct (generateImage _ Ratio_16_9 w) as [[[imageUrl|e] w1] evs1];
      cbn [snd] in H1;
      match goal with
      | |- context [StoryboardTab.generateEach _ _ rest ?p w1] =>
        specialize (IH p w1);
        destruct (StoryboardTab.generateEach characters scenes rest p w1)
          as [[prev2 w2] evs2]
      end;
      cbn [snd] in *; apply sentFor_step; auto.
  - intros characters charVoiceMap frames prev w.
    unfold AudioTab.handleGenerateAllAudio, AudioTab.dialogueFrames.
    revert prev w. induction frames as [|frame rest IH]; intros prev w;
      cbn [filter AudioTab.speakEach]; [constructor|].
    destruct (AudioTab.hasDialogue frame) eqn:Hd;
      [|apply sentFor_skip, IH].
    cbn [AudioTab.speakEach].
    destruct (truthyString (StoryboardFrame.audioUrl frame)) eqn:Ha;
      [apply sentFor_skip, IH|].
    assert (Hsel : awaitsVoice frame = true)
      by (unfold awaitsVoice; now rewrite Hd, Ha).
    pose proof (generateSpeech_requestFor (AudioTab.dialogueOf frame)
                  (AudioTab.getVoiceForFrame characters charVoiceMap frame) w)
      as H1.
    destruct (generateSpeech _ _ w) as [[[wavUrl|e] w1] evs1]; cbn [snd] in H1;
      match goal with
      | |- context [AudioTab.speakEach _ _ _ ?p w1] =>
        specialize (IH p w1);
        destruct (AudioTab.speakEach characters charVoiceMap
                    (filter AudioTab.hasDialogue rest) p w1)
          as [[prev2 w2] evs2]
      end;
      cbn [snd] in *; apply sentFor_step; auto.
  - intros characters prev w.
    assert (H : sentFor characters (fun _ => true)
                  (fun c => imageRequestFor
                              (constructCharacterPrompt (CharacterTab.asPartial c))
                              Ratio_16_9)
                  (snd (CharacterTab.designEach characters prev w))).
    { revert prev w. induction characters as [|char rest IH]; intros prev w;
        cbn [CharacterTab.designEach]; [constructor|].
      pose proof (generateImage_requestFor
                    (constructCharacterPrompt (CharacterTab.asPartial char))
                    Ratio_16_9 w) as H1.
      destruct (generateImage _ Ratio_16_9 w) as [[[img|e] w1] evs1];
        cbn [snd] in H1;
        match goal with
        | |- context [CharacterTab.designEach rest ?p w1] =>
          specialize (IH p w1);
          destruct (CharacterTab.designEach rest p w1) as [[prev2 w2] evs2]
        end;
        cbn [snd] in *; apply sentFor_step; auto. }
    destruct characters; [constructor|exact H].
  - intros scenes prev w.
    assert (Hset : forall s w0,
               Forall (fun c =>
                         imageRequestFor (constructScenePrompt (SceneTab.asPartial s))
                           Ratio_16_9 c
                         \/ imageRequestFor
                              (constructSceneGridPrompt (SceneTab.asPartial s))
                              Ratio_1_1 c)
                 (requests (snd (SceneTab.fullSet (SceneTab.asPartial s) 1000 w0)))).
    { intros s w0. unfold SceneTab.fullSet, bind, setTimeout, ret.
      pose proof (generateImage_requestFor
                    (constructScenePrompt (SceneTab.asPartial s)) Ratio_16_9 w0)
        as H1.
      destruct (generateImage (constructScenePrompt (SceneTab.asPartial s))
                  Ratio_16_9 w0) as [[[panImg|e] w1] evs1]; cbn [snd] in *.
      2:{ revert H1. apply Forall_impl. now left. }
      pose proof (generateImage_requestFor
                    (constructSceneGridPrompt (SceneTab.asPartial s)) Ratio_1_1 w1)
        as H2.
      destruct (generateImage (constructSceneGridPrompt (SceneTab.asPartial s))
                  Ratio_1_1 w1) as [[[gridImg|e] w2] evs2]; cbn [snd app] in *;
        rewrite ?app_nil_r, requests_wait; apply Forall_app;
        (split; [revert H1; apply Forall_impl; now left
                |revert H2; apply Forall_impl; now right]). }
    assert (H : sentFor scenes (fun _ => true)
                  (fun s c =>
                     imageRequestFor (constructScenePrompt (SceneTab.asPartial s))
                       Ratio_16_9 c
                     \/ imageRequestFor
                          (constructSceneGridPrompt (SceneTab.asPartial s))
                          Ratio_1_1 c)
                  (snd (SceneTab.generateEach scenes prev w))).
    { revert prev w. induction scenes as [|scene rest IH]; intros prev w;
        cbn [SceneTab.generateEach]; [constructor|].
      pose proof (Hset scene w) as H1.
      destruct (SceneTab.fullSet _ 1000 w) as [[[[panImg gridImg]|e] w1] evs1];
        cbn [snd] in H1;
        match goal with
        | |- context [SceneTab.generateEach rest ?p w1] =>
          specialize (IH p w1);
          destruct (SceneTab.generateEach rest p w1) as [[prev2 w2] evs2]
        end;
        cbn [snd] in *; apply sentFor_step; auto. }
    destruct scenes; [constructor|exact H].
Qed.

End BatchRequests.
